(** * Multi-device playback synchronisation: rooms, arbitration, fan-out

    A shallow embedding of [services/sync.py] (class [SyncService]), of
    [FirebaseDB.set_playback_state] from [services/firebase_db.py] and of
    the two entry points of [main.py] that drive them
    ([set_active_device] and [websocket_endpoint]).

    Python objects that the code only passes around are kept abstract:
    a [WebSocket] is its object identity, a JSON payload is a [Json]
    tree.  The asynchronous methods are written in a small state and
    exception monad; every call that leaves the process (accepting a
    socket, [send_json], a store write) and every arbitration decision
    is appended to a trace, so that statements such as "no store write"
    or "exactly one rejection" are statements about that trace.

    The service runs on one event loop: a coroutine runs alone between
    two awaits, and at an await other tasks run.  The tasks that matter
    to the rooms are the endpoints that call [connect] and [disconnect];
    what they do during the awaits of a broadcast, or while an endpoint
    waits for its next frame, is an argument of the embedded function.

    The code that reads and ranks ([get_frequent_artists], the playlist
    endpoint, [services/recommendations.py], [services/trusted_channels.py]
    and [services/ai_classifier.py]) is embedded as functions of what it
    reads; Python library calls whose meaning lies outside the sources
    ([str.lower], [str.strip], [re.sub], [str()], the search service)
    are parameters of those functions. *)

From Stdlib Require Import QArith_base.
From stdpp Require Import base option list strings gmap fin_maps sorting relations.

Local Open Scope string_scope.
Local Open Scope list_scope.
#[local] Set Warnings "-register-all".

(** ** Python values *)

(** JSON values as [receive_json] produces them and [send_json] accepts
    them.  Numbers are carried uninterpreted.  A [dict] keeps insertion
    order, hence an association list. *)
Inductive Json : Type :=
| JNull
| JBool (b : bool)
| JNum (n : Z)
| JStr (s : string)
| JList (items : list Json)
| JDict (fields : list (string * Json)).

Definition Dict : Type := list (string * Json).

(** [d.get(k)] *)
Fixpoint dict_get (k : string) (d : Dict) : option Json :=
  match d with
  | [] => None
  | (k', v) :: rest => if String.eqb k' k then Some v else dict_get k rest
  end.

(** [d[k] = v]: an existing key keeps its position, a new key goes last. *)
Fixpoint dict_set (k : string) (v : Json) (d : Dict) : Dict :=
  match d with
  | [] => [(k, v)]
  | (k', v') :: rest =>
      if String.eqb k' k then (k', v) :: rest else (k', v') :: dict_set k v rest
  end.

(** The ["type"] field of a message, when it is an object that has one. *)
Definition message_type (m : Json) : option Json :=
  match m with
  | JDict d => dict_get "type" d
  | _ => None
  end.

(** [None] or a string, as JSON. *)
Definition json_of_optional (o : option string) : Json :=
  match o with
  | Some s => JStr s
  | None => JNull
  end.

(** Truth value of a value under [if x] and [not x]. *)
Definition truthy (x : Json) : bool :=
  match x with
  | JNull => false
  | JBool b => b
  | JNum n => negb (Z.eqb n 0)
  | JStr s => negb (String.eqb s "")
  | JList items => match items with [] => false | _ :: _ => true end
  | JDict fields => match fields with [] => false | _ :: _ => true end
  end.

(** [s.split(sep)[0]], for a separator that is not empty: the part of
    [s] before the first occurrence of [sep], all of [s] if there is
    none. *)
Fixpoint split_first (sep s : string) : string :=
  match s with
  | EmptyString => EmptyString
  | String a s' =>
      if String.prefix sep s then EmptyString else String a (split_first sep s')
  end.

(** Whether a value can be put into a [set]: lists and dictionaries
    cannot. *)
Definition hashable (x : Json) : bool :=
  match x with
  | JList _ | JDict _ => false
  | _ => true
  end.

(** [x == y] on hashable values; [True] and [False] are the numbers 1
    and 0. *)
Definition py_eq (x y : Json) : bool :=
  match x, y with
  | JNull, JNull => true
  | JBool a, JBool b => Bool.eqb a b
  | JNum a, JNum b => Z.eqb a b
  | JBool a, JNum b | JNum b, JBool a => Z.eqb b (if a then 1 else 0)
  | JStr a, JStr b => String.eqb a b
  | _, _ => false
  end.

(** [x in seen] for a set [seen], kept as the list of its elements. *)
Definition py_in (x : Json) (seen : list Json) : bool := existsb (py_eq x) seen.

(** Exceptions of the code that reads and ranks, and results that may
    be one. *)
Inductive PyError : Type :=
| AttributeError
| TypeError
| KeyError
| IndexError.

Inductive Checked (A : Type) : Type :=
| Val (a : A)
| Err (e : PyError).
Arguments Val {A} a.
Arguments Err {A} e.

Definition cbind {A B} (c : Checked A) (k : A → Checked B) : Checked B :=
  match c with
  | Val a => k a
  | Err e => Err e
  end.

(** ** Connections, events, exceptions *)

(** A [WebSocket] object.  Starlette's [HTTPConnection] sets
    [__eq__ = object.__eq__], so [==], [in] and [list.remove] compare by
    identity; its [__len__] is that of the ASGI scope, never empty, so a
    socket is truthy. *)
Definition Conn : Type := nat.

Inductive Event : Type :=
| EvAccept (c : Conn) (ok : bool)
    (** [await websocket.accept()]; [ok = false] when it raised *)
| EvSendJson (c : Conn) (m : Json) (ok : bool)
    (** [await c.send_json(m)]; [ok = false] when it raised *)
| EvValidate (user_id device_id : string) (verdict : bool)
    (** a call of [device_manager.validate_device_control] *)
| EvStoreSet (path : string) (value : Json).
    (** [db.reference(path).set(value)] *)

(** Exceptions, all of them subclasses of Python's [Exception].
    [AcceptError] is whatever [accept()] raises: the error of a failed
    handshake, or the [RuntimeError] of a socket accepted before. *)
Inductive Exn : Type :=
| SendError (c : Conn)
| AcceptError (c : Conn)
| ReceiveError
| WebSocketDisconnect
| HTTPException (status_code : nat) (detail : string).

(** The network.  Whether a send raises, and whether the handshake of a
    socket that has not been accepted fails, is decided outside the
    program; it may depend on everything that happened so far. *)
Record World : Type := mkWorld {
  send_raises : list Event → Conn → Json → bool;
  accept_raises : list Event → Conn → bool
}.

(** A network on which nothing ever fails. *)
Definition reliable : World :=
  {| send_raises := λ _ _ _, false; accept_raises := λ _ _, false |}.

(** ** The device registry

    [services/device_manager.py] is not part of the sources at hand; its
    data is the [UserDeviceState] of the specification. *)
Record Device : Type := mkDevice {
  display_name : string;
  platform : string;
  user_agent : string;
  registered_at : Z;
  last_heartbeat_at : Z
}.

Record UserDeviceState : Type := mkUserDeviceState {
  devices : gmap string Device;
  active_device_id : option string
}.

(** ** Process state *)

Record State : Type := mkState {
  rooms : gmap string (list Conn);       (** [sync_service.rooms] *)
  registry : gmap string UserDeviceState; (** state behind [device_manager] *)
  store : gmap string Json;               (** the realtime database, by path *)
  trace : list Event                      (** oldest event first *)
}.

Definition set_rooms (r : gmap string (list Conn)) (st : State) : State :=
  {| rooms := r; registry := registry st; store := store st; trace := trace st |}.

Definition set_registry (g : gmap string UserDeviceState) (st : State) : State :=
  {| rooms := rooms st; registry := g; store := store st; trace := trace st |}.

Definition set_store (s : gmap string Json) (st : State) : State :=
  {| rooms := rooms st; registry := registry st; store := s; trace := trace st |}.

Definition log (e : Event) (st : State) : State :=
  {| rooms := rooms st; registry := registry st; store := store st;
     trace := trace st ++ [e] |}.

Definition initial : State :=
  {| rooms := ∅; registry := ∅; store := ∅; trace := [] |}.

(** ** State and exception monad *)

Inductive Result (A : Type) : Type :=
| Returned (a : A)
| Raised (e : Exn).
Arguments Returned {A} a.
Arguments Raised {A} e.

Definition M (A : Type) : Type := State → Result A * State.

Definition ret {A} (a : A) : M A := λ st, (Returned a, st).

Definition bind {A B} (m : M A) (k : A → M B) : M B :=
  λ st, match m st with
        | (Returned a, st') => k a st'
        | (Raised e, st') => (Raised e, st')
        end.

Definition raise {A} (e : Exn) : M A := λ st, (Raised e, st).

(** [try: body  except Exception as e: handler(e)] *)
Definition try_except {A} (body : M A) (handler : Exn → M A) : M A :=
  λ st, match body st with
        | (Returned a, st') => (Returned a, st')
        | (Raised e, st') => handler e st'
        end.

Notation "'let*' x ':=' m 'in' k" := (bind m (λ x, k))
  (at level 10, x name, m at level 100, k at level 200).
Notation "m ';;' k" := (bind m (λ _, k))
  (at level 100, k at level 200, right associativity).

(** The events a computation appended. *)
Definition emitted (before after : State) : list Event :=
  drop (length (trace before)) (trace after).

(** ** [services/device_manager.py] *)

Module DeviceManager.

(** Modelled from the spec: [getActive(user_id)], the active-device
    pointer of the user, [None] if never set or never registered.  The
    module [services/device_manager.py] is absent from the sources. *)
Definition get_active_device (user_id : string) : M (option string) :=
  λ st, (Returned (registry st !! user_id ≫= active_device_id), st).

(** Modelled from the spec: [validateControl(user_id, device_id)], true
    iff [device_id] is the user's [active_device_id]; liveness is not
    considered.  The module [services/device_manager.py] is absent from
    the sources. *)
Definition validate_device_control (user_id device_id : string) : M bool :=
  λ st,
    let verdict :=
      bool_decide (registry st !! user_id ≫= active_device_id = Some device_id) in
    (Returned verdict, log (EvValidate user_id device_id verdict) st).

(** Modelled from the spec: [setActive(user_id, device_id)], which
    succeeds only if [device_id] is a key of the user's [devices], then
    overwrites [active_device_id] and returns true; returns false for
    an unknown device.  The module [services/device_manager.py] is
    absent from the sources. *)
Definition set_active_device (user_id device_id : string) : M bool :=
  λ st,
    match registry st !! user_id with
    | Some uds =>
        match devices uds !! device_id with
        | Some _ =>
            let uds' := {| devices := devices uds;
                           active_device_id := Some device_id |} in
            (Returned true, set_registry (<[user_id := uds']> (registry st)) st)
        | None => (Returned false, st)
        end
    | None => (Returned false, st)
    end.

End DeviceManager.

(** ** [services/firebase_db.py] *)

Module FirebaseDB.

(** The placeholder the database replaces by its own clock. *)
Definition server_timestamp : Json := JDict [(".sv", JStr "timestamp")].

Definition playback_path (user_id : string) : string :=
  "users/" +:+ user_id +:+ "/playback/current".

(** [set_playback_state(user_id, state)].  The method assigns
    [state['updatedAt']] on the caller's dictionary; the result is that
    dictionary as the caller sees it afterwards. *)
Definition set_playback_state (user_id : string) (state : Dict) : M Dict :=
  if String.eqb user_id "" then ret state
  else
    let state' := dict_set "updatedAt" server_timestamp state in
    λ st,
      let path := playback_path user_id in
      (Returned state',
       log (EvStoreSet path (JDict state'))
           (set_store (<[path := JDict state']> (store st)) st)).

(** *** Listening statistics *)

Section Artists.
(** [str.strip()], Python's own notion of white space. *)
Context (strip : string → string).

(** [counts.get(k, 0)] on a dictionary of counters. *)
Fixpoint counts_get (k : string) (counts : list (string * nat)) : nat :=
  match counts with
  | [] => 0
  | (k', n) :: rest => if String.eqb k' k then n else counts_get k rest
  end.

(** [counts[k] = n] *)
Fixpoint counts_set (k : string) (n : nat) (counts : list (string * nat))
  : list (string * nat) :=
  match counts with
  | [] => [(k, n)]
  | (k', n') :: rest =>
      if String.eqb k' k then (k', n) :: rest else (k', n') :: counts_set k n rest
  end.

(** The [for item in history] loop of [get_frequent_artists].
    [item.get] exists on dictionaries only and [split] on strings
    only. *)
Fixpoint count_artists (history : list Json) (counts : list (string * nat))
  : Checked (list (string * nat)) :=
  match history with
  | [] => Val counts
  | JDict item :: rest =>
      match dict_get "artist" item with
      | Some (JStr artist) =>
          if truthy (JStr artist) then
            let artist := strip (split_first " - " artist) in
            count_artists rest (counts_set artist (counts_get artist counts + 1) counts)
          else count_artists rest counts
      | Some other =>
          if truthy other then Err AttributeError else count_artists rest counts
      | None => count_artists rest counts
      end
  | _ :: _ => Err AttributeError
  end.

(** [sorted(items, key=lambda x: x[1], reverse=True)]: by count, largest
    first, items of equal count in their original order. *)
Fixpoint insert_by_count (x : string * nat) (l : list (string * nat))
  : list (string * nat) :=
  match l with
  | [] => [x]
  | y :: l' =>
      if Nat.leb (snd y) (snd x) then x :: y :: l' else y :: insert_by_count x l'
  end.

Fixpoint sorted_by_count (l : list (string * nat)) : list (string * nat) :=
  match l with
  | [] => []
  | x :: l' => insert_by_count x (sorted_by_count l')
  end.

(** [get_frequent_artists(user_id, limit)], as a function of [history],
    the list that [self.get_play_history(user_id, limit=limit)] handed
    back. *)
Definition get_frequent_artists (history : list Json) : Checked (list string) :=
  match history with
  | [] => Val []
  | _ :: _ =>
      match count_artists history [] with
      | Val counts => Val (map fst (take 5 (sorted_by_count counts)))
      | Err e => Err e
      end
  end.

End Artists.

(** *** Playlists and song metadata *)

Definition collection_songs_path (user_id playlist_id : string) : string :=
  "collections/" +:+ user_id +:+ "/" +:+ playlist_id +:+ "/songs".

Definition song_path (song_id : string) : string := "songs/" +:+ song_id.

Section Str.
(** Python's [str()] on a value read from the database. *)
Context (str : Json → string).

(** [get_collection_songs(user_id, playlist_id)]; [ref.get()] is the
    value stored at the path, [None] when there is none. *)
Definition get_collection_songs (user_id playlist_id : string) : M (list string) :=
  λ st,
    if String.eqb user_id "" || String.eqb playlist_id "" then (Returned [], st)
    else
      match store st !! collection_songs_path user_id playlist_id with
      | None => (Returned [], st)
      | Some data =>
          if negb (truthy data) then (Returned [], st)
          else
            match data with
            | JList items => (Returned (map str (filter truthy items)), st)
            | JDict fields => (Returned (map (λ kv, str kv.2) fields), st)
            | _ => (Returned [], st)
            end
      end.

End Str.

(** [get_song_metadata(song_id)] *)
Definition get_song_metadata (song_id : string) : M Json :=
  λ st,
    if String.eqb song_id "" then (Returned (JDict []), st)
    else
      match store st !! song_path song_id with
      | Some data => if truthy data then (Returned data, st) else (Returned (JDict []), st)
      | None => (Returned (JDict []), st)
      end.

End FirebaseDB.

(** ** [services/sync.py] *)

Module SyncService.
Section Net.
Context (W : World).

(** Whether [accept()] has completed on the socket, going by the trace. *)
Definition accepted_in (tr : list Event) (websocket : Conn) : bool :=
  existsb (λ e, match e with
                | EvAccept c true => Nat.eqb c websocket
                | _ => false
                end) tr.

(** Whether the socket sits in some room.  Only [connect] puts sockets
    into rooms, and only after their [accept()] has completed. *)
Definition in_a_room (st : State) (websocket : Conn) : bool :=
  bool_decide (map_Exists (λ _ room, websocket ∈ room) (rooms st)).

(** [await websocket.accept()].  A socket is accepted once: on a socket
    whose [accept()] has completed, Starlette's [send] refuses a further
    [websocket.accept] message with a [RuntimeError].  The state of the
    socket is read off the state of the process: its [accept()] has
    completed if the trace says so or if it sits in a room.  On a socket
    that has not been accepted the network decides. *)
Definition accept (websocket : Conn) : M unit :=
  λ st,
    if accepted_in (trace st) websocket || in_a_room st websocket
       || accept_raises W (trace st) websocket
    then (Raised (AcceptError websocket), log (EvAccept websocket false) st)
    else (Returned tt, log (EvAccept websocket true) st).

(** [await connection.send_json(message)] *)
Definition send_json (connection : Conn) (message : Json) : M unit :=
  λ st,
    if send_raises W (trace st) connection message
    then (Raised (SendError connection), log (EvSendJson connection message false) st)
    else (Returned tt, log (EvSendJson connection message true) st).

Definition connect (websocket : Conn) (user_id : string) : M unit :=
  accept websocket ;;
  λ st,
    let room := default [] (rooms st !! user_id) in
    (Returned tt, set_rooms (<[user_id := room ++ [websocket]]> (rooms st)) st).

(** [list.remove(x)]: drops the first occurrence; the code calls it
    only under [if websocket in ...]. *)
Fixpoint list_remove (x : Conn) (l : list Conn) : list Conn :=
  match l with
  | [] => []
  | y :: l' => if Nat.eqb y x then l' else y :: list_remove x l'
  end.

Definition disconnect (websocket : Conn) (user_id : string) : M unit :=
  λ st,
    match rooms st !! user_id with
    | Some room =>
        let room' :=
          if bool_decide (websocket ∈ room) then list_remove websocket room
          else room in
        match room' with
        | [] => (Returned tt, set_rooms (delete user_id (rooms st)) st)
        | _ :: _ => (Returned tt, set_rooms (<[user_id := room']> (rooms st)) st)
        end
    | None => (Returned tt, st)
    end.

(** [sender and connection == sender] *)
Definition is_sender (sender : option Conn) (connection : Conn) : bool :=
  match sender with
  | Some s => Nat.eqb connection s
  | None => false
  end.

(** One turn of the [for] loop of [broadcast_to_user]. *)
Definition deliver (message : Json) (sender : option Conn) (connection : Conn)
  : M unit :=
  if is_sender sender connection then ret tt
  else try_except (send_json connection message) (λ _, ret tt).

(** The rest of the loop once no other task runs any more. *)
Fixpoint deliver_all (message : Json) (sender : option Conn)
    (connections : list Conn) : M unit :=
  match connections with
  | [] => ret tt
  | connection :: rest =>
      deliver message sender connection ;;
      deliver_all message sender rest
  end.

(** *** The event loop

    [for connection in self.rooms[user_id]] walks the room's own list
    object by index, and every [await connection.send_json(...)] lets
    other tasks of the event loop run, among them the endpoints that
    call [connect] and [disconnect] on the same room. *)

Inductive Interference : Type :=
| Joins (websocket : Conn) (user_id : string)
| Leaves (websocket : Conn) (user_id : string).

(** Another task runs to completion; an exception of its own stays in
    that task. *)
Definition interfere (a : Interference) : M unit :=
  match a with
  | Joins websocket user_id => try_except (connect websocket user_id) (λ _, ret tt)
  | Leaves websocket user_id => disconnect websocket user_id
  end.

(** What other tasks do while this one is suspended in an [await]. *)
Fixpoint meanwhile (during : list Interference) : M unit :=
  match during with
  | [] => ret tt
  | a :: rest => interfere a ;; meanwhile rest
  end.

(** The list object under iteration.  It is the room's list as long as
    the entry it was read from exists; [del self.rooms[user_id]] happens
    on an empty list only, and nothing appends to a list that is no
    longer in [rooms], so afterwards the iterator sees an empty list. *)
Definition iterated (user_id : string) (attached : bool) (st : State) : list Conn :=
  if attached then default [] (rooms st !! user_id) else [].

Fixpoint interfere_all (user_id : string) (during : list Interference)
    (attached : bool) : M bool :=
  match during with
  | [] => ret attached
  | a :: rest =>
      interfere a ;;
      λ st,
        interfere_all user_id rest
          (attached && bool_decide (is_Some (rooms st !! user_id))) st
  end.

(** The list iterator at position [index]; [schedule] holds, per turn of
    the loop, what other tasks do during that turn's await.  A turn
    skipped by [continue] has no await, its entry is dropped.  Once the
    schedule is used up nobody interferes any more. *)
Fixpoint broadcast_from (user_id : string) (message : Json) (sender : option Conn)
    (schedule : list (list Interference)) (index : nat) (attached : bool)
  : M unit :=
  match schedule with
  | [] => λ st,
      deliver_all message sender (drop index (iterated user_id attached st)) st
  | during :: later => λ st,
      match iterated user_id attached st !! index with
      | None => (Returned tt, st)
      | Some connection =>
          if is_sender sender connection
          then broadcast_from user_id message sender later (S index) attached st
          else
            (try_except (send_json connection message) (λ _, ret tt) ;;
             let* attached' := interfere_all user_id during attached in
             broadcast_from user_id message sender later (S index) attached') st
      end
  end.

(** [broadcast_to_user] as the event loop runs it. *)
Definition broadcast_to_user_interleaved (user_id : string) (message : Json)
    (sender : option Conn) (schedule : list (list Interference)) : M unit :=
  λ st,
    match rooms st !! user_id with
    | Some _ => broadcast_from user_id message sender schedule 0 true st
    | None => (Returned tt, st)
    end.

(** [broadcast_to_user] when no other task runs during its awaits: the
    same loop under the empty schedule. *)
Definition broadcast_to_user (user_id : string) (message : Json)
    (sender : option Conn) : M unit :=
  broadcast_to_user_interleaved user_id message sender [].

Definition rejection (active_device : option string) : Json :=
  JDict [("type", JStr "playback_controlled_elsewhere");
         ("active_device_id", json_of_optional active_device);
         ("message", JStr "Playback is controlled on another device")].

Definition playback_state_update (state : Dict) : Json :=
  JDict [("type", JStr "playback_state_update"); ("state", JDict state)].

(** [schedule] is what other tasks do during the awaits of the
    broadcast.  The rejection is the last thing the call does before it
    returns, so what runs during that await does not reach it. *)
Definition handle_playback_update (user_id device_id : string) (state : Dict)
    (sender : option Conn) (schedule : list (list Interference)) : M bool :=
  let* valid := DeviceManager.validate_device_control user_id device_id in
  if negb valid then
    let* active_device := DeviceManager.get_active_device user_id in
    match sender with
    | Some s =>
        try_except (send_json s (rejection active_device)) (λ _, ret tt)
    | None => ret tt
    end ;;
    ret false
  else
    let* state := FirebaseDB.set_playback_state user_id state in
    broadcast_to_user_interleaved user_id (playback_state_update state) sender
      schedule ;;
    ret true.

Definition device_switched (new_active_device_id : string) : Json :=
  JDict [("type", JStr "device_switched");
         ("active_device_id", JStr new_active_device_id);
         ("message",
          JStr ("Playback control switched to device " +:+ new_active_device_id))].

Definition broadcast_device_switch (user_id new_active_device_id : string)
    (schedule : list (list Interference)) : M unit :=
  broadcast_to_user_interleaved user_id (device_switched new_active_device_id) None
    schedule.

End Net.
End SyncService.

(** ** [main.py] *)

Module Main.
Section Net.
Context (W : World).

(** [POST /devices/set-active]; [schedule] is what other tasks do during
    the awaits of the broadcast. *)
Definition set_active_device (user_id device_id : string)
    (schedule : list (list SyncService.Interference)) : M Json :=
  let* success := DeviceManager.set_active_device user_id device_id in
  if success : bool then
    SyncService.broadcast_device_switch W user_id device_id schedule ;;
    ret (JDict [("status", JStr "active_device_set"); ("device_id", JStr device_id)])
  else raise (HTTPException 404 "Device not found").

(** What happens, in turn, at the awaits of the receive loop. *)
Inductive Received : Type :=
| Relay (data : Json) (schedule : list (list SyncService.Interference))
    (** [receive_json] returns [data]; [schedule] is what other tasks
        do during the awaits of the broadcast that relays it *)
| Meanwhile (during : list SyncService.Interference)
    (** other tasks run while the receive is pending *)
| Closed    (** [receive_json] raises [WebSocketDisconnect] *)
| Failed.   (** [receive_json] raises another exception *)

(** A frame relayed with no other task running during the relay. *)
Definition Frame (data : Json) : Received := Relay data [].

(** The [while True] loop; the end of the list is a receive that has
    not completed yet. *)
Fixpoint receive_loop (websocket : Conn) (user_id : string)
    (incoming : list Received) : M unit :=
  match incoming with
  | [] => ret tt
  | Relay data schedule :: later =>
      SyncService.broadcast_to_user_interleaved W user_id data (Some websocket)
        schedule ;;
      receive_loop websocket user_id later
  | Meanwhile during :: later =>
      SyncService.meanwhile W during ;;
      receive_loop websocket user_id later
  | Closed :: _ => raise WebSocketDisconnect
  | Failed :: _ => raise ReceiveError
  end.

(** [WS /ws/{user_id}] *)
Definition websocket_endpoint (websocket : Conn) (user_id : string)
    (incoming : list Received) : M unit :=
  SyncService.connect W websocket user_id ;;
  try_except (receive_loop websocket user_id incoming)
    (λ e, match e with
          | WebSocketDisconnect => SyncService.disconnect websocket user_id
          | _ => SyncService.disconnect websocket user_id
          end).

(** [{"id": sid, **meta}]: the fields of [meta] are assigned in turn
    to a dictionary that starts with [id]; unpacking anything but a
    mapping is a [TypeError]. *)
Definition with_id (sid : string) (meta : Json) : Checked Dict :=
  match meta with
  | JDict fields =>
      Val (fold_left (λ song kv, dict_set kv.1 kv.2 song) fields [("id", JStr sid)])
  | _ => Err TypeError
  end.

(** The loop of [get_collection_songs] over the song ids. *)
Fixpoint collect_songs (song_ids : list string) (songs : list Json)
  : M (Checked (list Json)) :=
  match song_ids with
  | [] => ret (Val songs)
  | sid :: rest =>
      let* meta := FirebaseDB.get_song_metadata sid in
      match with_id sid meta with
      | Val song => collect_songs rest (songs ++ [JDict song])
      | Err e => ret (Err e)
      end
  end.

(** [GET /collections/{user_id}/{playlist_id}/songs].  The endpoint
    catches nothing: [Err e] stands for the exception [e] leaving it. *)
Definition get_collection_songs (str : Json → string) (user_id playlist_id : string)
  : M (Checked Json) :=
  let* song_ids := FirebaseDB.get_collection_songs str user_id playlist_id in
  let* songs := collect_songs song_ids [] in
  match songs with
  | Val songs =>
      ret (Val (JDict [("playlist_id", JStr playlist_id); ("songs", JList songs)]))
  | Err e => ret (Err e)
  end.

End Net.
End Main.

(** ** [services/recommendations.py] *)

Module RecommendationService.
Section Search.
(** [str.strip()], and what [await search_service.search_songs(query,
    limit=...)] comes back with; [services/search.py] is not part of
    the sources at hand. *)
Context (strip : string → string).
Context (search_songs : Json → nat → Checked Json).

(** The value of a call inside [try: ... except: return []]. *)
Definition or_nothing (r : Checked Json) : Json :=
  match r with
  | Val v => v
  | Err _ => JList []
  end.

(** [get_daily_mix(user_id)], as a function of what reading the play
    history of the user yields. *)
Definition get_daily_mix (history : Checked (list Json)) : Json :=
  match history with
  | Val history =>
      match FirebaseDB.get_frequent_artists strip history with
      | Val [] => or_nothing (search_songs (JStr "lofi chill beats for study") 12)
      | Val (primary_artist :: _) =>
          or_nothing (search_songs (JStr (primary_artist +:+ " essential mix")) 12)
      | Err _ => JList []
      end
  | Err _ => JList []
  end.

End Search.
(** *** Recommendations after the last song *)

Section Recent.
(** [str()] as an f-string applies it, the search, and
    [ml_recommender.get_content_similarity(video_id)], which catches
    whatever goes wrong inside it and answers with a list. *)
Context (str : Json → string).
Context (search_songs : Json → nat → Checked Json).
Context (get_content_similarity : Json → list Json).

(** [s['id']] *)
Definition subscript_id (s : Json) : Checked Json :=
  match s with
  | JDict fields =>
      match dict_get "id" fields with
      | Some v => Val v
      | None => Err KeyError
      end
  | _ => Err TypeError
  end.

(** [res[0]] together with [res[0]['id']].  A dictionary has no key 0,
    a character of a string has no ['id']. *)
Definition first_with_id (res : Json) : Checked (Json * Json) :=
  match res with
  | JList (first :: _) => cbind (subscript_id first) (λ id, Val (first, id))
  | JList [] => Err IndexError
  | JStr EmptyString => Err IndexError
  | JStr (String _ _) => Err TypeError
  | JDict _ => Err KeyError
  | _ => Err TypeError
  end.

(** [if id not in seen_ids: recommendations.append(song);
    seen_ids.add(id)], on the pair of [recommendations] and
    [seen_ids]. *)
Definition keep_if_new (song id : Json) (acc : list Json * list Json)
  : Checked (list Json * list Json) :=
  if hashable id then
    if py_in id acc.2 then Val acc else Val (acc.1 ++ [song], acc.2 ++ [id])
  else Err TypeError.

(** The loop over [ml_results]. *)
Fixpoint enrich (ml_results : list Json) (acc : list Json * list Json)
  : Checked (list Json * list Json) :=
  match ml_results with
  | [] => Val acc
  | vid :: rest =>
      cbind (search_songs vid 1) (λ res,
      cbind (if truthy res
             then cbind (first_with_id res) (λ hit, keep_if_new hit.1 hit.2 acc)
             else Val acc) (λ acc,
      enrich rest acc))
  end.

(** The loop [for s in results] over a list. *)
Fixpoint fill (results : list Json) (acc : list Json * list Json)
  : Checked (list Json * list Json) :=
  match results with
  | [] => Val acc
  | s :: rest =>
      cbind (subscript_id s) (λ id,
      cbind (keep_if_new s id acc) (λ acc,
      fill rest acc))
  end.

(** [for s in results] over whatever the search gave: iterating a
    dictionary or a string yields strings, on which [s['id']] is a
    [TypeError]; other values cannot be iterated. *)
Definition fill_from (results : Json) (acc : list Json * list Json)
  : Checked (list Json * list Json) :=
  match results with
  | JList items => fill items acc
  | JDict [] => Val acc
  | JStr EmptyString => Val acc
  | _ => Err TypeError
  end.

Definition no_context : Json :=
  JDict [("last_song", JNull); ("recommendations", JList [])].

(** The body of the [try] of [get_recent_context]. *)
Definition recent_context (history : Checked (list Json)) : Checked Json :=
  cbind history (λ history,
  match history with
  | [] => Val no_context
  | last_song :: _ =>
      match last_song with
      | JDict fields =>
          let video_id := default JNull (dict_get "video_id" fields) in
          let ml_results := get_content_similarity video_id in
          if hashable video_id then
            cbind (enrich ml_results ([], [video_id])) (λ acc,
            cbind (if Nat.ltb (length acc.1) 8 then
                     let search_query :=
                       "songs similar to "
                       +:+ str (default JNull (dict_get "title" fields))
                       +:+ " " +:+ str (default JNull (dict_get "artist" fields)) in
                     cbind (search_songs (JStr search_query) 12) (λ results,
                     fill_from results acc)
                   else Val acc) (λ acc,
            Val (JDict [("last_song", last_song);
                        ("recommendations", JList (take 12 acc.1))])))
          else Err TypeError
      | _ => Err AttributeError
      end
  end).

(** [get_recent_context(user_id)], as a function of what reading the
    last entry of the play history yields. *)
Definition get_recent_context (history : Checked (list Json)) : Json :=
  match recent_context history with
  | Val context => context
  | Err _ => no_context
  end.

End Recent.

End RecommendationService.

(** ** [services/trusted_channels.py] *)

(** [needle in haystack] on strings. *)
Fixpoint contains (needle haystack : string) : bool :=
  String.prefix needle haystack
  || match haystack with
     | EmptyString => false
     | String _ rest => contains needle rest
     end.

Module TrustedChannels.

Definition GLOBAL_LABELS : list string :=
  ["vevo"; "topic"; "official audio"; "official video";
   "sony music"; "universal music"; "warner records";
   "atlantic records"; "republic records"; "interscope records";
   "capitol records"; "rca records"; "columbia records"; "def jam";
   "island records"; "epic records"; "vevo"; "umg"; "wmg"; "sme"].

Definition INDIAN_LABELS : list string :=
  ["t-series"; "zee music"; "saregama"; "tips official";
   "yrf"; "times music"; "sony music india"; "think music";
   "aditya music"; "lahari music"; "anand audio"; "muzik247";
   "satyam audios"; "millennium audios"; "manorama music";
   "mazhavil manorama"; "mathrubhumi music"; "speed audio"].

Definition EAST_ASIAN_LABELS : list string :=
  ["hybe labels"; "sm entertainment"; "jyp entertainment";
   "yg entertainment"; "stone music"; "avex"; "king records"].

Definition REGIONAL_LABELS : list string :=
  ["rotana music"; "platinum records"; "mazzika"; "spinnin' records";
   "armada music"; "ministry of sound"].

Definition HARD_BLOCK_KEYWORDS : list string :=
  ["trailer"; "teaser"; "scene"; "movie"; "film"; "cinema";
   "full movie"; "climax"; "dialogue"; "comedy"; "fight";
   "news"; "live news"; "breaking"; "report"; "journalist";
   "media"; "press"; "debate";
   "interview"; "speech"; "motivation"; "explained";
   "review"; "reaction"; "vlog"; "shorts"].

Definition SPAM_KEYWORDS : list string :=
  ["8d"; "3d"; "spatial"; "360";
   "slowed"; "reverb"; "nightcore"; "sped up"; "speed up";
   "bass boosted"; "boosted"; "karaoke"; "instrumental";
   "remix"; "dj"; "mix"; "mashup"; "bgm"; "background music";
   "status"; "edit"; "tiktok"].

Definition ALL_TRUSTED : list string :=
  GLOBAL_LABELS ++ INDIAN_LABELS ++ EAST_ASIAN_LABELS ++ REGIONAL_LABELS.

Section Text.
(** [str.lower()], [str.strip()] and [re.sub(pattern, repl, text)]. *)
Context (lower strip : string → string).
Context (re_sub : string → string → string → string).

Definition normalize (text : string) : string :=
  if String.eqb text "" then ""
  else
    let text := strip (lower text) in
    let text := re_sub "[^a-z0-9\s]" " " text in
    re_sub "\s+" " " text.

Definition calculate_trust_score (channel_name video_title : string) : Z :=
  let c := normalize channel_name in
  let t := normalize video_title in
  let score := 0%Z in
  let score :=
    if existsb (λ label, contains label c) ALL_TRUSTED then (score + 50)%Z else score in
  let score := if contains "vevo" c || contains "vevo" t then (score + 40)%Z else score in
  let score := if contains "topic" c then (score + 40)%Z else score in
  let audio_signals := ["official audio"; "official music video"; "song"; "audio"] in
  if existsb (λ signal, contains signal t) audio_signals then (score + 20)%Z
  else if contains "official" t then (score + 10)%Z
  else score.

Definition is_spam (title query : string) : bool :=
  let t := normalize title in
  let q := normalize query in
  if existsb (λ k, contains k t) HARD_BLOCK_KEYWORDS then true
  else existsb (λ word, contains word t && negb (contains word q)) SPAM_KEYWORDS.

End Text.
End TrustedChannels.

(** ** [services/ai_classifier.py] *)

Module AIChannelClassifier.

(** The dictionary a classification is returned as; the score is the
    decimal fraction written in the source. *)
Record Classification : Type := mkClassification {
  channel_type : string;
  score : Q;
  reason : string
}.

Section Text.
(** [str.lower()] *)
Context (lower : string → string).

Definition _heuristic_classify (channel_name : string) : Classification :=
  let name := lower channel_name in
  let music_keywords := ["music"; "records"; "audios"; "audio"; "label"; "topic"; "vevo"] in
  if existsb (λ k, contains k name) music_keywords then
    {| channel_type := "music_label"; score := (9 # 10)%Q;
       reason := "Keyword match in name" |}
  else
    let news_keywords := ["news"; "live"; "breaking"; "times"; "media"] in
    if existsb (λ k, contains k name) news_keywords then
      {| channel_type := "news"; score := (95 # 100)%Q;
         reason := "News keyword match" |}
    else
      let movie_keywords := ["film"; "movie"; "trailers"; "cinema"] in
      if existsb (λ k, contains k name) movie_keywords then
        {| channel_type := "movies"; score := (9 # 10)%Q;
           reason := "Movie keyword match" |}
      else
        {| channel_type := "unknown"; score := (5 # 10)%Q;
           reason := "Indeterminate" |}.

(** Whether [", ".join(titles)] goes through: every item has to be a
    string. *)
Definition joinable (titles : list Json) : bool :=
  forallb (λ title, match title with JStr _ => true | _ => false end) titles.

(** [classify_channel(channel_name, recent_titles)], with [api_key] what
    [os.getenv("GEMINI_API_KEY")] gave.  The prompt is put together
    before the [try]; what is inside the [try] cannot raise. *)
Definition classify_channel (api_key : option string) (channel_name : string)
    (recent_titles : list Json) : Checked Classification :=
  match api_key with
  | None => Val (_heuristic_classify channel_name)
  | Some key =>
      if String.eqb key "" then Val (_heuristic_classify channel_name)
      else if joinable (take 10 recent_titles) then Val (_heuristic_classify channel_name)
      else Err TypeError
  end.

End Text.
End AIChannelClassifier.

(** ** The broadcast of the specification

    The specification words the broadcast as a loop over a snapshot of
    the connection set taken before iteration.  This is that loop, for
    comparison with [SyncService.broadcast_to_user_interleaved]: the
    list is read once, and what other tasks do to [rooms] during the
    awaits (same [schedule], one entry per turn) cannot reach it. *)
Fixpoint deliver_snapshot (W : World) (user_id : string) (message : Json)
    (sender : option Conn) (snapshot : list Conn)
    (schedule : list (list SyncService.Interference)) : M unit :=
  match snapshot with
  | [] => ret tt
  | connection :: rest =>
      if SyncService.is_sender sender connection
      then deliver_snapshot W user_id message sender rest (tail schedule)
      else
        try_except (SyncService.send_json W connection message) (λ _, ret tt) ;;
        SyncService.interfere_all W user_id (default [] (head schedule)) true ;;
        deliver_snapshot W user_id message sender rest (tail schedule)
  end.

Definition broadcast_over_snapshot (W : World) (user_id : string) (message : Json)
    (sender : option Conn) (schedule : list (list SyncService.Interference)) : M unit :=
  λ st,
    match rooms st !! user_id with
    | Some room => deliver_snapshot W user_id message sender room schedule st
    | None => (Returned tt, st)
    end.

(** ** Reading a trace *)

(** The socket a [send_json] was called on. *)
Definition send_target (e : Event) : option Conn :=
  match e with
  | EvSendJson c _ _ => Some c
  | _ => None
  end.

(** The sockets [send_json] was called on, in order. *)
Definition attempts (evs : list Event) : list Conn := omap send_target evs.

(** The sockets a message went out to without an exception. *)
Definition delivered_to (evs : list Event) : list Conn :=
  omap (λ e, match e with EvSendJson c _ true => Some c | _ => None end) evs.

Definition is_store_write (e : Event) : bool :=
  match e with
  | EvStoreSet _ _ => true
  | _ => false
  end.

Definition is_validation (e : Event) : bool :=
  match e with
  | EvValidate _ _ _ => true
  | _ => false
  end.

Definition store_writes (evs : list Event) : list Event := filter is_store_write evs.

Definition validations (evs : list Event) : list Event := filter is_validation evs.

(** The events of one pass of the loop of [broadcast_to_user] over
    [connections], given the trace [tr] so far. *)
Fixpoint fan_out (W : World) (message : Json) (sender : option Conn)
    (connections : list Conn) (tr : list Event) : list Event :=
  match connections with
  | [] => []
  | c :: rest =>
      if SyncService.is_sender sender c then fan_out W message sender rest tr
      else
        let e := EvSendJson c message (negb (send_raises W tr c message)) in
        e :: fan_out W message sender rest (tr ++ [e])
  end.

(** The connections of a room that are not the sender. *)
Definition others (sender : option Conn) (room : list Conn) : list Conn :=
  filter (λ c, negb (SyncService.is_sender sender c)) room.

(** The name under which [get_frequent_artists] counts a history item,
    if it counts it. *)
Definition credited (strip : string → string) (item : Json) : option string :=
  match item with
  | JDict fields =>
      match dict_get "artist" fields with
      | Some (JStr artist) =>
          if String.eqb artist "" then None
          else Some (strip (split_first " - " artist))
      | _ => None
      end
  | _ => None
  end.

(** How many items of a history are counted under [name]. *)
Definition plays_of (strip : string → string) (name : string) (history : list Json)
  : nat :=
  length (filter (λ item, credited strip item = Some name) history).

(** The order of the sorted counters: the first counts no less than the
    second. *)
Definition at_least (x y : string * nat) : Prop := (snd y ≤ snd x)%nat.

(** A history item on which [get_frequent_artists] raises: not a
    dictionary, or one whose [artist] is neither a string nor falsy. *)
Definition unusable (item : Json) : bool :=
  match item with
  | JDict fields =>
      match dict_get "artist" fields with
      | Some (JStr _) => false
      | Some other => truthy other
      | None => false
      end
  | _ => true
  end.

(** How often a connection occurs in a room. *)
Definition occurrences (c : Conn) (room : list Conn) : nat :=
  length (filter (λ c', Nat.eqb c' c) room).

(** Every key of [rooms] holds at least one connection. *)
Definition rooms_nonempty (st : State) : Prop :=
  ∀ user_id room, rooms st !! user_id = Some room → room ≠ [].

(** [st] with [evs] appended to its trace and nothing else changed. *)
Definition append_events (evs : list Event) (st : State) : State :=
  {| rooms := rooms st; registry := registry st; store := store st;
     trace := trace st ++ evs |}.

(** ** A scenario

    Devices D1 and D2 are registered for user "u" and D1 is active;
    connections 1 and 2 of "u" are open. *)
Definition phone : Device :=
  {| display_name := "Phone"; platform := "android"; user_agent := "";
     registered_at := 0; last_heartbeat_at := 0 |}.

Definition two_devices (active : option string) : UserDeviceState :=
  {| devices := {[ "D1" := phone; "D2" := phone ]}; active_device_id := active |}.

Definition scenario : State :=
  {| rooms := {[ "u" := [1; 2] ]};
     registry := {[ "u" := two_devices (Some "D1") ]};
     store := ∅;
     trace := [] |}.

Definition track_t1 : Dict :=
  [("track", JStr "t1"); ("position", JNum 10); ("playing", JBool true)].

(** A network on which every [send_json] on [broken] raises. *)
Definition flaky (broken : Conn) : World :=
  {| send_raises := λ _ c _, Nat.eqb c broken; accept_raises := λ _ _, false |}.

(** Three open connections of "u". *)
Definition three_listeners : State :=
  {| rooms := {[ "u" := [1; 2; 3] ]};
     registry := {[ "u" := two_devices (Some "D1") ]};
     store := ∅;
     trace := [] |}.

(** Connection 1 of "u" is open, D1 is active. *)
Definition one_listener : State :=
  {| rooms := {[ "u" := [1] ]};
     registry := {[ "u" := two_devices (Some "D1") ]};
     store := ∅;
     trace := [] |}.

(** A playback update as a client puts it on its socket, claiming D2. *)
Definition update_from_D2 : Json :=
  JDict [("type", JStr "playback_state_update");
         ("device_id", JStr "D2");
         ("state", JDict track_t1)].

(** ** Reading what an endpoint did *)

(** The messages [send_json] was called with on connection [c], oldest
    first. *)
Definition sends_to (c : Conn) (evs : list Event) : list Json :=
  omap (λ e, match e with
             | EvSendJson c' m _ => if Nat.eqb c' c then Some m else None
             | _ => None
             end) evs.

(** The frames that reach the body of the receive loop: those that
    arrive before the first receive that raises. *)
Fixpoint relayed (incoming : list Main.Received) : list Json :=
  match incoming with
  | Main.Relay data _ :: later => data :: relayed later
  | Main.Meanwhile _ :: later => relayed later
  | _ => []
  end.

(** Whether some receive raises, which ends the loop. *)
Fixpoint closes (incoming : list Main.Received) : bool :=
  match incoming with
  | [] => false
  | Main.Relay _ _ :: later | Main.Meanwhile _ :: later => closes later
  | _ => true
  end.

(** A network on which no socket is ever accepted. *)
Definition refusing : World :=
  {| send_raises := λ _ _ _, false; accept_raises := λ _ _, true |}.

(** ** The states the service goes through *)

(** No room is empty and no room holds a connection twice. *)
Definition rooms_well_formed (st : State) : Prop :=
  ∀ user_id room, rooms st !! user_id = Some room → room ≠ [] ∧ NoDup room.

(** Every connection in a room has been accepted, going by the trace. *)
Definition tracked (st : State) : Prop :=
  ∀ user_id room c,
    rooms st !! user_id = Some room → c ∈ room →
    SyncService.accepted_in (trace st) c = true.

(** The moves of which every run of the code is made: an event that is
    not a completed [accept()], a change of the store or of the
    registry, the [append] of [connect] after a completed [accept()] on
    a socket that had not been accepted, and [disconnect]. *)
Inductive step : State → State → Prop :=
| step_log st e :
    (∀ c, e ≠ EvAccept c true) → step st (log e st)
| step_store st s : step st (set_store s st)
| step_registry st g : step st (set_registry g st)
| step_join st c user_id :
    SyncService.accepted_in (trace st) c = false →
    SyncService.in_a_room st c = false →
    step st
      (set_rooms (<[user_id := default [] (rooms st !! user_id) ++ [c]]> (rooms st))
         (log (EvAccept c true) st))
| step_leave st c user_id :
    step st (SyncService.disconnect c user_id st).2.

(** The calls that reach the service.  The device endpoints other than
    set-active, and the endpoints that write the store, are not part of
    the sources at hand or do not concern the rooms: they may leave any
    registry and any store behind. *)
Inductive Call : Type :=
| Serves (websocket : Conn) (user_id : string) (incoming : list Main.Received)
| Switches (user_id device_id : string)
    (schedule : list (list SyncService.Interference))
| Updates (user_id device_id : string) (state : Dict) (sender : option Conn)
    (schedule : list (list SyncService.Interference))
| Broadcasts (user_id : string) (message : Json) (sender : option Conn)
    (schedule : list (list SyncService.Interference))
| Connects (websocket : Conn) (user_id : string)
| Disconnects (websocket : Conn) (user_id : string)
| Registers (g : gmap string UserDeviceState)
| Stores (s : gmap string Json).

Definition perform (W : World) (call : Call) (st : State) : State :=
  match call with
  | Serves websocket user_id incoming =>
      (Main.websocket_endpoint W websocket user_id incoming st).2
  | Switches user_id device_id schedule =>
      (Main.set_active_device W user_id device_id schedule st).2
  | Updates user_id device_id state sender schedule =>
      (SyncService.handle_playback_update W user_id device_id state sender
         schedule st).2
  | Broadcasts user_id message sender schedule =>
      (SyncService.broadcast_to_user_interleaved W user_id message sender
         schedule st).2
  | Connects websocket user_id => (SyncService.connect W websocket user_id st).2
  | Disconnects websocket user_id => (SyncService.disconnect websocket user_id st).2
  | Registers g => set_registry g st
  | Stores s => set_store s st
  end.

(** The states the service can be in on the network [W]: those it gets
    into from the start of the process by calls. *)
Inductive reachable (W : World) : State → Prop :=
| reachable_initial : reachable W initial
| reachable_perform st call : reachable W st → reachable W (perform W call st).

(** The socket joins the user's room in the course of the schedule. *)
Definition joining (c : Conn) (user_id : string)
    (schedule : list (list SyncService.Interference)) : Prop :=
  ∃ during, during ∈ schedule ∧ SyncService.Joins c user_id ∈ during.

(** The events of tasks that join and leave: results of [accept()]. *)
Definition is_accept (e : Event) : Prop :=
  match e with
  | EvAccept _ _ => True
  | _ => False
  end.

(** The state has gone from [st] to [st'] by moves that appended [evs]
    to the trace and left registry and store alone. *)
Definition moved (st st' : State) (evs : list Event) : Prop :=
  rtc step st st'
  ∧ trace st' = trace st ++ evs
  ∧ registry st' = registry st
  ∧ store st' = store st.

(** Socket 1 has joined the room of "u", nothing failing. *)
Definition joined_once : State := perform reliable (Connects 1 "u") initial.

(** Then socket 2 has joined the same room. *)
Definition two_joined : State := perform reliable (Connects 2 "u") joined_once.

(** Then socket 3 has joined it, and devices D1 and D2 have been
    registered for "u" with D1 the active one: the rooms and the
    registry of [three_listeners], after the calls that lead there. *)
Definition three_connected : State :=
  perform reliable (Registers {[ "u" := two_devices (Some "D1") ]})
    (perform reliable (Connects 3 "u") two_joined).

(** ** Kinds of interference *)

Definition is_join (a : SyncService.Interference) : Prop :=
  match a with
  | SyncService.Joins _ _ => True
  | SyncService.Leaves _ _ => False
  end.

Definition is_leave (a : SyncService.Interference) : Prop :=
  match a with
  | SyncService.Joins _ _ => False
  | SyncService.Leaves _ _ => True
  end.

(** No other task ever calls [disconnect] while the endpoint lives. *)
Definition joins_only (incoming : list Main.Received) : Prop :=
  Forall (λ r, match r with
               | Main.Relay _ schedule => Forall (Forall is_join) schedule
               | Main.Meanwhile during => Forall is_join during
               | _ => True
               end) incoming.

(** The socket is in no room but that of its user, and there once at
    most. *)
Definition only_here (websocket : Conn) (user_id : string) (st : State) : Prop :=
  ∀ u room,
    rooms st !! u = Some room → websocket ∈ room →
    u = user_id ∧ (occurrences websocket room ≤ 1)%nat.

(** A history entry as the play log stores it. *)
Definition played (artist : string) : Json :=
  JDict [("video_id", JStr "v"); ("title", JStr "t"); ("artist", JStr artist)].

Definition some_history : list Json :=
  [played "A - Topic"; played "B"; played "A"; played "C"; played "B";
   played "D"; played "E"; played "F"; played ""; JDict []; played "F"; played "B"].

(** A store with a playlist of three songs: one with metadata of its
    own, one whose metadata carries an [id], one without metadata. *)
Definition library : State :=
  {| rooms := ∅;
     registry := ∅;
     store :=
       {[ FirebaseDB.collection_songs_path "u" "p" := JList [JStr "s1"; JNull; JStr "s2"; JStr "s3"];
          FirebaseDB.song_path "s1" := JDict [("album", JStr "First")];
          FirebaseDB.song_path "s2" := JDict [("album", JStr "Second"); ("id", JStr "other")] ]};
     trace := [] |}.

(** [str()] on strings, which is all the witness needs. *)
Definition str_of_string (x : Json) : string :=
  match x with
  | JStr s => s
  | _ => ""
  end.

(** The song that goes with a song id: the metadata's fields, under the
    metadata's [id] if it has one and under the song id otherwise. *)
Definition song_of (sid : string) (fields : Dict) (song : Json) : Prop :=
  ∃ d, song = JDict d
       ∧ dict_get "id" d = Some (default (JStr sid) (dict_get "id" fields))
       ∧ ∀ k, k ≠ "id" → dict_get k d = dict_get k fields.

(** A search that answers every query with the query itself. *)
Definition echo_search (query : Json) (limit : nat) : Checked Json :=
  Val (JList [JDict [("id", query)]]).

(** The [id] a song is known by. *)
Definition id_of (song : Json) : option Json :=
  match song with
  | JDict fields => dict_get "id" fields
  | _ => None
  end.

(** No two of the values are equal for Python. *)
Definition all_different (ids : list Json) : Prop :=
  ∀ i j a b, ids !! i = Some a → ids !! j = Some b → i ≠ j → py_eq a b = false.

(** What the two loops keep true of [recommendations] and [seen_ids]:
    the set holds the id of the last song and those of the
    recommendations, and no two of them are equal. *)
Definition kept (video_id : Json) (acc : list Json * list Json) : Prop :=
  ∃ ids, Forall2 (λ song id, id_of song = Some id) acc.1 ids
         ∧ acc.2 = video_id :: ids
         ∧ all_different (video_id :: ids).

(** A search that finds, for any query, the same three songs, the first
    of them twice. *)
Definition same_songs (query : Json) (limit : nat) : Checked Json :=
  Val (JList [JDict [("id", JStr "a")]; JDict [("id", JStr "b")];
              JDict [("id", JStr "a")]; JDict [("id", JStr "c")]]).

(** * Properties *)

(** ** Traces *)

Lemma append_events_nil st : append_events [] st = st.
Proof. destruct st; unfold append_events; simpl. by rewrite app_nil_r. Qed.

Lemma append_events_app evs1 evs2 st :
  append_events evs2 (append_events evs1 st) = append_events (evs1 ++ evs2) st.
Proof. unfold append_events; simpl. by rewrite app_assoc. Qed.

Lemma emitted_append st evs : emitted st (append_events evs st) = evs.
Proof. unfold emitted; simpl. apply drop_app_length. Qed.

Lemma emitted_same st : emitted st st = [].
Proof. unfold emitted. apply drop_all. Qed.

Lemma emitted_trace st st' evs : trace st' = trace st ++ evs → emitted st st' = evs.
Proof. intros Htr. unfold emitted. rewrite Htr. apply drop_app_length. Qed.

Lemma attempts_app evs1 evs2 : attempts (evs1 ++ evs2) = attempts evs1 ++ attempts evs2.
Proof. apply omap_app. Qed.

Lemma store_writes_app evs1 evs2 :
  store_writes (evs1 ++ evs2) = store_writes evs1 ++ store_writes evs2.
Proof. apply filter_app. Qed.

Lemma validations_app evs1 evs2 :
  validations (evs1 ++ evs2) = validations evs1 ++ validations evs2.
Proof. apply filter_app. Qed.

(** ** One pass of the broadcast loop *)

Section FanOut.
Context (W : World) (message : Json) (sender : option Conn).

Lemma deliver_all_run connections st :
  SyncService.deliver_all W message sender connections st
  = (Returned tt, append_events (fan_out W message sender connections (trace st)) st).
Proof.
  revert st. induction connections as [|c rest IH]; intros st; simpl.
  - by rewrite append_events_nil.
  - unfold bind, SyncService.deliver.
    destruct (SyncService.is_sender sender c); simpl.
    + apply IH.
    + unfold try_except, SyncService.send_json.
      destruct (send_raises W (trace st) c message); simpl;
        rewrite IH; simpl; f_equal;
        unfold append_events, log; simpl; by rewrite <- app_assoc.
Qed.

Lemma is_sender_true c : SyncService.is_sender sender c = true ↔ sender = Some c.
Proof.
  unfold SyncService.is_sender. destruct sender as [s|]; [|done].
  rewrite Nat.eqb_eq. split; [by intros -> | by intros [= ->]].
Qed.

Lemma is_sender_false c : SyncService.is_sender sender c = false ↔ sender ≠ Some c.
Proof. rewrite <- is_sender_true. by destruct (SyncService.is_sender sender c). Qed.

(** The loop calls [send_json] on the connections of the room in room
    order, leaving out the sender and nobody else. *)
Lemma attempts_fan_out connections tr :
  attempts (fan_out W message sender connections tr) = others sender connections.
Proof.
  unfold others.
  revert tr. induction connections as [|c rest IH]; intros tr; simpl; [done|].
  destruct (SyncService.is_sender sender c) eqn:E.
  - rewrite filter_cons_False by (rewrite E; simpl; tauto). apply IH.
  - rewrite filter_cons_True by (by rewrite E).
    unfold attempts; simpl. f_equal. apply IH.
Qed.

Lemma elem_of_others connections c :
  c ∈ others sender connections ↔ c ∈ connections ∧ sender ≠ Some c.
Proof.
  unfold others. rewrite list_elem_of_filter, <- is_sender_false.
  destruct (SyncService.is_sender sender c); simpl; intuition congruence.
Qed.

(** Every event of the loop is a [send_json] of the one message. *)
Lemma fan_out_sends connections tr :
  Forall (λ e, ∃ c ok, e = EvSendJson c message ok)
         (fan_out W message sender connections tr).
Proof.
  revert tr. induction connections as [|c rest IH]; intros tr; simpl; [done|].
  destruct (SyncService.is_sender sender c); [apply IH|].
  constructor; [eauto | apply IH].
Qed.

Lemma store_writes_fan_out connections tr :
  store_writes (fan_out W message sender connections tr) = [].
Proof.
  unfold store_writes.
  induction (fan_out_sends connections tr) as [|e evs (c & ok & ->) _ IH]; [done|].
  rewrite filter_cons_False; [exact IH | simpl; tauto].
Qed.

Lemma validations_fan_out connections tr :
  validations (fan_out W message sender connections tr) = [].
Proof.
  unfold validations.
  induction (fan_out_sends connections tr) as [|e evs (c & ok & ->) _ IH]; [done|].
  rewrite filter_cons_False; [exact IH | simpl; tauto].
Qed.

(** A connection whose own [send_json] never raises gets the message,
    whatever happens to the other sends. *)
Lemma delivered_fan_out connections tr c :
  c ∈ connections → sender ≠ Some c →
  (∀ tr', send_raises W tr' c message = false) →
  c ∈ delivered_to (fan_out W message sender connections tr).
Proof.
  intros Hin Hne Hok. revert tr.
  induction connections as [|c' rest IH]; intros tr; [by apply elem_of_nil in Hin|].
  simpl. destruct (SyncService.is_sender sender c') eqn:E.
  - apply is_sender_true in E. apply elem_of_cons in Hin as [->|Hin]; [done|]. by apply IH.
  - unfold delivered_to; simpl.
    apply elem_of_cons in Hin as [->|Hin].
    + rewrite Hok; simpl. apply elem_of_cons; by left.
    + destruct (send_raises W tr c' message); simpl.
      * by apply IH.
      * apply elem_of_cons; right. by apply IH.
Qed.

Lemma broadcast_to_user_run user_id st :
  SyncService.broadcast_to_user W user_id message sender st
  = (Returned tt,
     append_events
       (fan_out W message sender (default [] (rooms st !! user_id)) (trace st)) st).
Proof.
  unfold SyncService.broadcast_to_user, SyncService.broadcast_to_user_interleaved.
  destruct (rooms st !! user_id) as [room|] eqn:E; simpl.
  - unfold SyncService.iterated. rewrite E; simpl. apply deliver_all_run.
  - by rewrite append_events_nil.
Qed.

End FanOut.

(** Every event of the loop is a [send_json] of the one message, marked
    as failed exactly when the network made it raise. *)
Lemma fan_out_outcomes W message sender connections tr :
  Forall (λ e, ∃ c tr', e = EvSendJson c message (negb (send_raises W tr' c message)))
         (fan_out W message sender connections tr).
Proof.
  revert tr. induction connections as [|c rest IH]; intros tr; simpl; [done|].
  destruct (SyncService.is_sender sender c); [apply IH|].
  constructor; [by eexists _, _ | apply IH].
Qed.

(** Events of a broadcast: sends of its message and, from the tasks
    that ran meanwhile, results of [accept()]. *)
Lemma outcomes_are_sends W message evs :
  Forall (λ e, (∃ c tr, e = EvSendJson c message (negb (send_raises W tr c message)))
               ∨ is_accept e) evs →
  Forall (λ e, (∃ c ok, e = EvSendJson c message ok) ∨ is_accept e) evs.
Proof.
  intros Hevs. eapply Forall_impl; [exact Hevs|].
  intros e [(c & tr & ->)|He]; [left; by eexists _, _ | by right].
Qed.

Lemma sends_no_validation message evs :
  Forall (λ e, (∃ c ok, e = EvSendJson c message ok) ∨ is_accept e) evs →
  validations evs = [] ∧ store_writes evs = [].
Proof.
  unfold validations, store_writes.
  induction 1 as [|e evs He _ [IH1 IH2]]; [done|].
  destruct He as [(c & ok & ->)|He]; [|destruct e; try done];
    (split; (rewrite filter_cons_False; [done | simpl; tauto])).
Qed.
(** ** Rooms as lists *)

Lemma occurrences_cons c c' room :
  occurrences c (c' :: room)
  = if Nat.eqb c' c then S (occurrences c room) else occurrences c room.
Proof.
  unfold occurrences. destruct (Nat.eqb c' c) eqn:E.
  - by rewrite filter_cons_True by (by rewrite E).
  - by rewrite filter_cons_False by (rewrite E; simpl; tauto).
Qed.

Lemma occurrences_app c room1 room2 :
  occurrences c (room1 ++ room2) = occurrences c room1 + occurrences c room2.
Proof. unfold occurrences. by rewrite filter_app, length_app. Qed.

Lemma occurrences_zero c room : occurrences c room = 0 ↔ c ∉ room.
Proof.
  induction room as [|c' room IH].
  - split; [intros _; apply not_elem_of_nil | done].
  - rewrite occurrences_cons, not_elem_of_cons.
    destruct (Nat.eqb c' c) eqn:E.
    + apply Nat.eqb_eq in E. split; [done | intros [? _]; congruence].
    + apply Nat.eqb_neq in E. rewrite IH. split; [by split | by intros [_ ?]].
Qed.

Lemma list_remove_absent c room : c ∉ room → SyncService.list_remove c room = room.
Proof.
  induction room as [|c' room IH]; [done|].
  intros [Hne Hnot]%not_elem_of_cons. simpl.
  destruct (Nat.eqb c' c) eqn:E.
  - apply Nat.eqb_eq in E. congruence.
  - by rewrite IH.
Qed.

(** [list.remove] takes away exactly one occurrence, if there is one. *)
Lemma occurrences_list_remove c room :
  occurrences c (SyncService.list_remove c room) = pred (occurrences c room).
Proof.
  induction room as [|c' room IH]; [done|].
  simpl. rewrite (occurrences_cons c c' room).
  destruct (Nat.eqb c' c) eqn:E; [done|].
  by rewrite occurrences_cons, E.
Qed.

Lemma occurrences_list_remove_ne c c' room :
  c ≠ c' → occurrences c' (SyncService.list_remove c room) = occurrences c' room.
Proof.
  intros Hne. induction room as [|x room IH]; [done|].
  simpl. destruct (Nat.eqb x c) eqn:E.
  - apply Nat.eqb_eq in E. subst x. rewrite occurrences_cons.
    by destruct (Nat.eqb_spec c c').
  - by rewrite !occurrences_cons, IH.
Qed.

(** What [disconnect] does to the state. *)
Lemma disconnect_run websocket user_id st :
  ∃ st',
    SyncService.disconnect websocket user_id st = (Returned tt, st')
    ∧ trace st' = trace st
    ∧ registry st' = registry st
    ∧ store st' = store st
    ∧ default [] (rooms st' !! user_id)
      = SyncService.list_remove websocket (default [] (rooms st !! user_id))
    ∧ rooms st' !! user_id ≠ Some []
    ∧ (∀ u, u ≠ user_id → rooms st' !! u = rooms st !! u).
Proof.
  unfold SyncService.disconnect.
  destruct (rooms st !! user_id) as [room|] eqn:Hroom; simpl.
  - assert (Hroom' : (if bool_decide (websocket ∈ room)
                      then SyncService.list_remove websocket room else room)
                     = SyncService.list_remove websocket room).
    { case_bool_decide; [done|]. by rewrite list_remove_absent. }
    rewrite Hroom'.
    destruct (SyncService.list_remove websocket room) as [|c rest]; eexists;
      (split; [done|]); simpl.
    + rewrite lookup_delete_eq. repeat split; try done.
      intros u Hu. by rewrite lookup_delete_ne.
    + rewrite lookup_insert_eq. repeat split; try done.
      intros u Hu. by rewrite lookup_insert_ne.
  - exists st. rewrite Hroom. repeat split; try done.
Qed.

(** *** Sockets are accepted once *)

Lemma accepted_in_app tr evs c :
  SyncService.accepted_in (tr ++ evs) c
  = SyncService.accepted_in tr c || SyncService.accepted_in evs c.
Proof. apply existsb_app. Qed.

Lemma accepted_in_mono tr evs c :
  SyncService.accepted_in tr c = true → SyncService.accepted_in (tr ++ evs) c = true.
Proof. intros H. by rewrite accepted_in_app, H. Qed.

Lemma accepted_in_log tr e c :
  (∀ c', e ≠ EvAccept c' true) →
  SyncService.accepted_in (tr ++ [e]) c = SyncService.accepted_in tr c.
Proof.
  intros He. rewrite accepted_in_app. simpl.
  destruct e as [c' [|]| | |]; simpl; try by rewrite !orb_false_r.
  by destruct (He c').
Qed.

Lemma in_a_room_true st c :
  SyncService.in_a_room st c = true
  ↔ ∃ user_id room, rooms st !! user_id = Some room ∧ c ∈ room.
Proof. unfold SyncService.in_a_room. by rewrite bool_decide_eq_true. Qed.

Lemma in_a_room_false st c :
  SyncService.in_a_room st c = false
  ↔ ∀ user_id room, rooms st !! user_id = Some room → c ∉ room.
Proof.
  rewrite <- not_true_iff_false, in_a_room_true. split.
  - intros Hno u room Hu Hc. apply Hno. by exists u, room.
  - intros Hno (u & room & Hu & Hc). by apply (Hno u room).
Qed.

(** What [connect] does to the state when the socket is accepted. *)
Lemma connect_run W websocket user_id st :
  SyncService.accepted_in (trace st) websocket = false →
  SyncService.in_a_room st websocket = false →
  accept_raises W (trace st) websocket = false →
  SyncService.connect W websocket user_id st
  = (Returned tt,
     set_rooms (<[user_id := default [] (rooms st !! user_id) ++ [websocket]]> (rooms st))
       (log (EvAccept websocket true) st)).
Proof.
  intros Hnew Hout Hok. unfold SyncService.connect, bind, SyncService.accept.
  by rewrite Hnew, Hout, Hok.
Qed.

Lemma connect_refused W websocket user_id st :
  SyncService.accepted_in (trace st) websocket || SyncService.in_a_room st websocket
  || accept_raises W (trace st) websocket = true →
  SyncService.connect W websocket user_id st
  = (Raised (AcceptError websocket), log (EvAccept websocket false) st).
Proof.
  intros Hko. unfold SyncService.connect, bind, SyncService.accept. by rewrite Hko.
Qed.

(** [connect] either raises and leaves the rooms alone, or appends a
    socket that had not been accepted and was in no room. *)
Lemma connect_cases W websocket user_id st :
  SyncService.connect W websocket user_id st
  = (Raised (AcceptError websocket), log (EvAccept websocket false) st)
  ∨ (SyncService.accepted_in (trace st) websocket = false
     ∧ SyncService.in_a_room st websocket = false
     ∧ accept_raises W (trace st) websocket = false
     ∧ SyncService.connect W websocket user_id st
       = (Returned tt,
          set_rooms
            (<[user_id := default [] (rooms st !! user_id) ++ [websocket]]> (rooms st))
            (log (EvAccept websocket true) st))).
Proof.
  destruct (SyncService.accepted_in (trace st) websocket) eqn:Hnew;
    [left; by apply connect_refused; rewrite Hnew|].
  destruct (SyncService.in_a_room st websocket) eqn:Hout;
    [left; by apply connect_refused; rewrite Hnew, Hout|].
  destruct (accept_raises W (trace st) websocket) eqn:Hok;
    [left; by apply connect_refused; rewrite Hnew, Hout, Hok|].
  right. repeat split; try done. by apply connect_run.
Qed.

(** A socket that sits in a room is not accepted again. *)
Lemma connect_member W websocket user_id u room st :
  rooms st !! u = Some room → websocket ∈ room →
  SyncService.connect W websocket user_id st
  = (Raised (AcceptError websocket), log (EvAccept websocket false) st).
Proof.
  intros Hu Hin. apply connect_refused.
  assert (Hroom : SyncService.in_a_room st websocket = true).
  { apply in_a_room_true. by exists u, room. }
  rewrite Hroom. by rewrite orb_true_r.
Qed.

(** *** Lists of connections *)

Lemma others_app sender room1 room2 :
  others sender (room1 ++ room2) = others sender room1 ++ others sender room2.
Proof. apply filter_app. Qed.

Lemma others_cons sender c room :
  others sender (c :: room)
  = if SyncService.is_sender sender c then others sender room
    else c :: others sender room.
Proof.
  unfold others. destruct (SyncService.is_sender sender c) eqn:E.
  - by rewrite filter_cons_False by (rewrite E; simpl; tauto).
  - by rewrite filter_cons_True by (by rewrite E).
Qed.

Lemma others_sublist sender room1 room2 :
  room1 `sublist_of` room2 → others sender room1 `sublist_of` others sender room2.
Proof.
  induction 1 as [|c l1 l2 Hsub IH|c l1 l2 Hsub IH]; [done| |].
  - rewrite !others_cons. destruct (SyncService.is_sender sender c); [done|].
    by apply sublist_skip.
  - rewrite others_cons. destruct (SyncService.is_sender sender c); [done|].
    by apply sublist_cons.
Qed.

Lemma sublist_drop_mono (l1 l2 : list Conn) n :
  l1 `sublist_of` l2 → drop n l1 `sublist_of` drop n l2.
Proof.
  intros Hsub. revert n.
  induction Hsub as [|c l1 l2 Hsub IH|c l1 l2 Hsub IH]; intros n.
  - by rewrite drop_nil.
  - destruct n as [|n]; simpl; [by apply sublist_skip | apply IH].
  - destruct n as [|n]; simpl; [by apply sublist_cons|].
    transitivity (drop n l1); [|apply IH].
    clear. revert n. induction l1 as [|x l1 IH]; intros n; [by rewrite !drop_nil|].
    destruct n as [|n]; simpl; [rewrite drop_0; by apply sublist_cons | apply IH].
Qed.

Lemma list_remove_sublist c room : SyncService.list_remove c room `sublist_of` room.
Proof.
  induction room as [|c' room IH]; simpl; [done|].
  destruct (Nat.eqb c' c); [by apply sublist_cons | by apply sublist_skip].
Qed.

(** ** The states the service goes through *)

Lemma accepted_in_before tr evs c :
  SyncService.accepted_in (tr ++ evs) c = false → SyncService.accepted_in tr c = false.
Proof. rewrite accepted_in_app. by intros [? _]%orb_false_iff. Qed.

Lemma step_trace st st' : step st st' → ∃ evs, trace st' = trace st ++ evs.
Proof.
  destruct 1 as [st e _|st s|st g|st c u _ _|st c u]; simpl.
  - by exists [e].
  - exists []. by rewrite app_nil_r.
  - exists []. by rewrite app_nil_r.
  - by exists [EvAccept c true].
  - destruct (disconnect_run c u st) as (st' & -> & Htr & _). exists [].
    by rewrite app_nil_r.
Qed.

Lemma steps_trace st st' : rtc step st st' → ∃ evs, trace st' = trace st ++ evs.
Proof.
  induction 1 as [st|st st1 st' Hstep _ (evs2 & IH)].
  - exists []. by rewrite app_nil_r.
  - destruct (step_trace _ _ Hstep) as [evs1 Htr1].
    exists (evs1 ++ evs2). by rewrite IH, Htr1, app_assoc.
Qed.

(** A socket once accepted stays accepted. *)
Lemma steps_accepted st st' c :
  rtc step st st' →
  SyncService.accepted_in (trace st) c = true →
  SyncService.accepted_in (trace st') c = true.
Proof.
  intros [evs ->]%steps_trace. apply accepted_in_mono.
Qed.

Lemma step_well_formed st st' : step st st' → rooms_well_formed st → rooms_well_formed st'.
Proof.
  destruct 1 as [st e _|st s|st g|st c u _ Hout|st c u]; intros Hwf; try exact Hwf.
  - intros v room; simpl.
    destruct (decide (u = v)) as [->|Hne].
    + rewrite lookup_insert_eq. intros [= <-]. split.
      * by destruct (default [] (rooms st !! v)).
      * apply NoDup_app. split; [|split].
        -- destruct (rooms st !! v) as [old|] eqn:Hold; simpl; [|constructor].
           by destruct (Hwf _ _ Hold).
        -- intros x Hx ->%list_elem_of_singleton.
           destruct (rooms st !! v) as [old|] eqn:Hold; simpl in Hx.
           ++ by apply (proj1 (in_a_room_false st c) Hout v old).
           ++ by apply elem_of_nil in Hx.
        -- apply NoDup_singleton.
    + rewrite lookup_insert_ne by done. apply Hwf.
  - destruct (disconnect_run c u st)
      as (st' & -> & _ & _ & _ & Hroom & Hhere & Hother); simpl.
    intros v room Hv. destruct (decide (v = u)) as [->|Hne].
    + split; [congruence|].
      rewrite Hv in Hroom; simpl in Hroom. subst room.
      eapply sublist_NoDup; [|apply list_remove_sublist].
      destruct (rooms st !! u) as [old|] eqn:Hold; simpl; [|constructor].
      by destruct (Hwf _ _ Hold).
    + rewrite Hother in Hv by done. by apply (Hwf v).
Qed.

Lemma step_tracked st st' : step st st' → tracked st → tracked st'.
Proof.
  destruct 1 as [st e He|st s|st g|st c u _ _|st c u]; intros Htr; try exact Htr.
  - intros v room x Hv Hx; simpl. apply accepted_in_mono. by apply (Htr v room).
  - intros v room x; simpl.
    destruct (decide (u = v)) as [->|Hne].
    + rewrite lookup_insert_eq. intros [= <-] [Hx|Hx]%elem_of_app.
      * apply accepted_in_mono.
        destruct (rooms st !! v) as [old|] eqn:Hold; simpl in Hx.
        -- by apply (Htr v old).
        -- by apply elem_of_nil in Hx.
      * apply list_elem_of_singleton in Hx. subst x.
        rewrite accepted_in_app. simpl. by rewrite Nat.eqb_refl, orb_true_r.
    + rewrite lookup_insert_ne by done. intros Hv Hx.
      apply accepted_in_mono. by apply (Htr v room).
  - destruct (disconnect_run c u st)
      as (st' & -> & Htrace & _ & _ & Hroom & Hhere & Hother); simpl.
    intros v room x Hv Hx. rewrite Htrace.
    destruct (decide (v = u)) as [->|Hne].
    + rewrite Hv in Hroom; simpl in Hroom. subst room.
      assert (Hold : x ∈ default [] (rooms st !! u))
        by (eapply elem_of_sublist; [exact Hx | apply list_remove_sublist]).
      destruct (rooms st !! u) as [old|] eqn:Eold; simpl in Hold.
      * by apply (Htr u old).
      * by apply elem_of_nil in Hold.
    + rewrite Hother in Hv by done. by apply (Htr v room).
Qed.

Lemma steps_well_formed st st' :
  rtc step st st' → rooms_well_formed st → rooms_well_formed st'.
Proof. induction 1; eauto using step_well_formed. Qed.

Lemma steps_tracked st st' : rtc step st st' → tracked st → tracked st'.
Proof. induction 1; eauto using step_tracked. Qed.

Lemma moved_refl st : moved st st [].
Proof. split; [done|]. by rewrite app_nil_r. Qed.

Lemma moved_trans st1 st2 st3 evs1 evs2 :
  moved st1 st2 evs1 → moved st2 st3 evs2 → moved st1 st3 (evs1 ++ evs2).
Proof.
  intros (Hs1 & Ht1 & Hr1 & Hd1) (Hs2 & Ht2 & Hr2 & Hd2).
  split; [by etransitivity|].
  split; [by rewrite Ht2, Ht1, app_assoc|]. split; congruence.
Qed.

Lemma moved_log st e : (∀ c, e ≠ EvAccept c true) → moved st (log e st) [e].
Proof. intros He. split; [by apply rtc_once, step_log|done]. Qed.

(** Events that are not completed accepts only lengthen the trace. *)
Lemma moved_append st evs :
  Forall (λ e, ∀ c, e ≠ EvAccept c true) evs → moved st (append_events evs st) evs.
Proof.
  intros Hevs. revert st. induction Hevs as [|e evs He _ IH]; intros st.
  - rewrite append_events_nil. apply moved_refl.
  - replace (append_events (e :: evs) st) with (append_events evs (log e st))
      by (unfold append_events, log; simpl; by rewrite <- app_assoc).
    apply (moved_trans st (log e st) _ [e] evs); [by apply moved_log | apply IH].
Qed.

Lemma moved_fan_out W message sender connections st :
  moved st (append_events (fan_out W message sender connections (trace st)) st)
    (fan_out W message sender connections (trace st)).
Proof.
  apply moved_append.
  eapply Forall_impl; [apply fan_out_sends|].
  intros e (c & ok & ->) c'. discriminate.
Qed.

(** [connect] and [disconnect] as moves. *)
Lemma connect_moved W websocket user_id st :
  ∃ r st' ok,
    SyncService.connect W websocket user_id st = (r, st')
    ∧ moved st st' [EvAccept websocket ok].
Proof.
  destruct (connect_cases W websocket user_id st) as [->|(Hnew & Hout & _ & ->)].
  - eexists _, _, false. split; [done|]. by apply moved_log.
  - eexists _, _, true. split; [done|]. split; [|done].
    by apply rtc_once, step_join.
Qed.

Lemma disconnect_moved websocket user_id st :
  ∃ st', SyncService.disconnect websocket user_id st = (Returned tt, st')
         ∧ moved st st' [].
Proof.
  destruct (disconnect_run websocket user_id st) as (st' & Hrun & Htr & Hreg & Hstore & _).
  exists st'. split; [done|]. split.
  - apply rtc_once. replace st' with (SyncService.disconnect websocket user_id st).2
      by (by rewrite Hrun).
    apply step_leave.
  - by rewrite app_nil_r.
Qed.

(** ** Other tasks during an await *)

(** Another task never makes this one raise, and all it leaves in the
    trace is the result of an [accept()]. *)
Lemma interfere_run W a st :
  ∃ st' evs,
    SyncService.interfere W a st = (Returned tt, st')
    ∧ moved st st' evs
    ∧ Forall is_accept evs.
Proof.
  destruct a as [c u|c u]; simpl.
  - unfold try_except.
    destruct (connect_moved W c u st) as (r & st' & ok & -> & Hmoved).
    exists st', [EvAccept c ok]. split; [by destruct r as [[]|]|].
    split; [done|]. by constructor.
  - destruct (disconnect_moved c u st) as (st' & -> & Hmoved).
    by exists st', [].
Qed.

Lemma meanwhile_run W during st :
  ∃ st' evs,
    SyncService.meanwhile W during st = (Returned tt, st')
    ∧ moved st st' evs
    ∧ Forall is_accept evs.
Proof.
  revert st. induction during as [|a rest IH]; intros st; simpl.
  - exists st, []. split; [done|]. split; [apply moved_refl | constructor].
  - unfold bind. destruct (interfere_run W a st) as (st1 & evs1 & -> & Hm1 & Ha1).
    destruct (IH st1) as (st' & evs2 & -> & Hm2 & Ha2).
    exists st', (evs1 ++ evs2). split; [done|].
    split; [by eapply moved_trans | by apply Forall_app].
Qed.

Lemma iterated_attached user_id st :
  SyncService.iterated user_id (bool_decide (is_Some (rooms st !! user_id))) st
  = default [] (rooms st !! user_id).
Proof.
  unfold SyncService.iterated. case_bool_decide as Hsome; [done|].
  destruct (rooms st !! user_id) eqn:E; [|done]. destruct Hsome. by eexists.
Qed.

Lemma elem_of_drop_sublist (l1 l2 : list Conn) n x :
  l1 `sublist_of` l2 → x ∈ drop n l1 → x ∈ drop n l2.
Proof.
  intros Hsub Hx. eapply elem_of_sublist; [exact Hx|]. by apply sublist_drop_mono.
Qed.

(** What one other task can do to the list under iteration: nothing, or
    remove a connection, or append a socket that had not been accepted. *)
Lemma interfere_iterated W a user_id attached st st' :
  SyncService.interfere W a st = (Returned tt, st') →
  ∀ n x,
    x ∈ drop n (SyncService.iterated user_id
                  (attached && bool_decide (is_Some (rooms st' !! user_id))) st') →
    x ∈ drop n (SyncService.iterated user_id attached st)
    ∨ (a = SyncService.Joins x user_id
       ∧ SyncService.accepted_in (trace st) x = false).
Proof.
  intros Hrun n x.
  destruct attached; simpl; [|rewrite drop_nil; by intros ?%elem_of_nil].
  rewrite iterated_attached.
  destruct a as [c u|c u]; simpl in Hrun.
  - unfold try_except in Hrun.
    destruct (connect_cases W c u st) as [Hc|(Hnew & _ & _ & Hc)];
      rewrite Hc in Hrun; injection Hrun as <-; simpl; [by left|].
    destruct (decide (u = user_id)) as [->|Hne].
    + rewrite lookup_insert_eq; simpl. rewrite drop_app.
      intros [Hx|Hx]%elem_of_app; [by left|]. right.
      apply subseteq_drop, list_elem_of_singleton in Hx. by subst x.
    + rewrite lookup_insert_ne by done. by left.
  - destruct (disconnect_run c u st)
      as (st1 & Hd & _ & _ & _ & Hroom & _ & Hother).
    rewrite Hd in Hrun. injection Hrun as <-.
    destruct (decide (user_id = u)) as [->|Hne].
    + rewrite Hroom. intros Hx. left.
      eapply elem_of_drop_sublist; [apply list_remove_sublist | exact Hx].
    + rewrite Hother by done. by left.
Qed.

(** The tasks of one await, taken together. *)
Lemma interfere_all_run W user_id during attached st :
  ∃ attached' st' evs,
    SyncService.interfere_all W user_id during attached st = (Returned attached', st')
    ∧ moved st st' evs
    ∧ Forall is_accept evs
    ∧ (∀ n x,
         x ∈ drop n (SyncService.iterated user_id attached' st') →
         x ∈ drop n (SyncService.iterated user_id attached st)
         ∨ (SyncService.Joins x user_id ∈ during
            ∧ SyncService.accepted_in (trace st) x = false)).
Proof.
  revert attached st. induction during as [|a rest IH]; intros attached st; simpl.
  - exists attached, st, []. split; [done|]. split; [apply moved_refl|].
    split; [constructor | by left].
  - unfold bind. destruct (interfere_run W a st) as (st1 & evs1 & Hrun & Hm1 & Ha1).
    rewrite Hrun.
    destruct (IH (attached && bool_decide (is_Some (rooms st1 !! user_id))) st1)
      as (attached' & st' & evs2 & -> & Hm2 & Ha2 & Hlist).
    exists attached', st', (evs1 ++ evs2). split; [done|].
    split; [by eapply moved_trans|]. split; [by apply Forall_app|].
    intros n x Hx. destruct (Hlist n x Hx) as [Hold|[Hjoin Hnew]].
    + destruct (interfere_iterated W a user_id attached st st1 Hrun n x Hold)
        as [?|[-> ?]]; [by left|].
      right. split; [apply elem_of_cons; by left | done].
    + right. split; [apply elem_of_cons; by right|].
      destruct Hm1 as (_ & Htr1 & _). rewrite Htr1 in Hnew.
      by apply accepted_in_before in Hnew.
Qed.

Lemma attempts_accepts evs : Forall is_accept evs → attempts evs = [].
Proof.
  induction 1 as [|e evs He _ IH]; [done|].
  by destruct e.
Qed.

Lemma store_writes_accepts evs : Forall is_accept evs → store_writes evs = [].
Proof.
  unfold store_writes. induction 1 as [|e evs He _ IH]; [done|].
  by destruct e.
Qed.

Lemma validations_accepts evs : Forall is_accept evs → validations evs = [].
Proof.
  unfold validations. induction 1 as [|e evs He _ IH]; [done|].
  by destruct e.
Qed.

Lemma sends_to_accepts c evs : Forall is_accept evs → sends_to c evs = [].
Proof.
  induction 1 as [|e evs He _ IH]; [done|].
  by destruct e.
Qed.

(** ** The broadcast loop *)

(** A turn of the loop that sends: the send, whether it raises or not,
    then the other tasks, then the next turn. *)
Lemma broadcast_from_turn W user_id message sender during later index attached st c :
  SyncService.iterated user_id attached st !! index = Some c →
  SyncService.is_sender sender c = false →
  SyncService.broadcast_from W user_id message sender (during :: later) index attached st
  = (let* attached' := SyncService.interfere_all W user_id during attached in
     SyncService.broadcast_from W user_id message sender later (S index) attached')
      (log (EvSendJson c message (negb (send_raises W (trace st) c message))) st).
Proof.
  intros Hc Hs. simpl. rewrite Hc, Hs.
  unfold bind at 1. unfold try_except, SyncService.send_json.
  by destruct (send_raises W (trace st) c message).
Qed.

Lemma joining_later c user_id during later :
  joining c user_id later → joining c user_id (during :: later).
Proof.
  intros (d & Hd & Hj). exists d. split; [apply elem_of_cons; by right | done].
Qed.

Lemma joining_now c user_id during later :
  SyncService.Joins c user_id ∈ during → joining c user_id (during :: later).
Proof. intros Hj. exists during. split; [apply elem_of_cons; by left | done]. Qed.

(** What a broadcast does, whatever the other tasks do: it returns, it
    leaves registry and store alone, every event of its own is a
    [send_json] of the message, and whoever it addresses is not the
    sender and was in the list when the loop got there or has joined
    since on a socket that had not been accepted. *)
Lemma broadcast_from_run W user_id message sender schedule index attached st :
  ∃ st' evs,
    SyncService.broadcast_from W user_id message sender schedule index attached st
      = (Returned tt, st')
    ∧ moved st st' evs
    ∧ Forall (λ e, (∃ c tr, e = EvSendJson c message (negb (send_raises W tr c message)))
                   ∨ is_accept e) evs
    ∧ (∀ c, c ∈ attempts evs →
         sender ≠ Some c
         ∧ (c ∈ SyncService.iterated user_id attached st
            ∨ (joining c user_id schedule
               ∧ SyncService.accepted_in (trace st) c = false))).
Proof.
  revert index attached st.
  induction schedule as [|during later IH]; intros index attached st.
  - simpl. rewrite deliver_all_run. eexists _, _. split; [done|].
    split; [apply moved_fan_out|]. split.
    + eapply Forall_impl; [apply fan_out_outcomes|]. intros e He; by left.
    + intros c Hc. rewrite attempts_fan_out in Hc.
      apply elem_of_others in Hc as [Hin Hne].
      split; [done|]. left. by apply subseteq_drop in Hin.
  - destruct (SyncService.iterated user_id attached st !! index) as [c0|] eqn:Hc0.
    + destruct (SyncService.is_sender sender c0) eqn:Hs.
      * destruct (IH (S index) attached st) as (st' & evs & Hrun & Hm & Hev & Hatt).
        exists st', evs. split; [simpl; by rewrite Hc0, Hs|].
        split; [done|]. split; [done|].
        intros c Hc. destruct (Hatt c Hc) as [Hne [Hin|[Hj Hnew]]];
          (split; [done|]); [by left|].
        right. split; [by apply joining_later | done].
      * rewrite (broadcast_from_turn W user_id message sender during later index
                   attached st c0 Hc0 Hs).
        set (e := EvSendJson c0 message (negb (send_raises W (trace st) c0 message))).
        unfold bind.
        destruct (interfere_all_run W user_id during attached (log e st))
          as (attached1 & st1 & evs1 & -> & Hm1 & Ha1 & Hlist).
        destruct (IH (S index) attached1 st1) as (st' & evs2 & Hrun & Hm2 & Hev2 & Hatt2).
        exists st', ([e] ++ evs1 ++ evs2). split; [done|]. split.
        { eapply moved_trans; [by apply moved_log|]. by eapply moved_trans. }
        split.
        { apply Forall_app. split; [constructor; [left; by eexists _, _|done]|].
          apply Forall_app. split; [|done].
          eapply Forall_impl; [exact Ha1|]. intros ? ?; by right. }
        intros c Hc. rewrite !attempts_app, (attempts_accepts evs1 Ha1) in Hc.
        simpl in Hc. apply elem_of_cons in Hc as [->|Hc].
        -- split; [by apply is_sender_false|]. left.
           by eapply list_elem_of_lookup_2.
        -- destruct Hm1 as (_ & Htr1 & _).
           destruct (Hatt2 c Hc) as [Hne [Hin|[Hj Hnew]]]; (split; [done|]).
           ++ rewrite <- (drop_0 (SyncService.iterated user_id attached1 st1)) in Hin.
              destruct (Hlist 0 c Hin) as [Hold|[Hj Hnew]].
              ** left. by rewrite drop_0 in Hold.
              ** right. split; [by apply joining_now|].
                 by apply accepted_in_before in Hnew.
           ++ right. split; [by apply joining_later|].
              rewrite Htr1 in Hnew.
              by do 2 apply accepted_in_before in Hnew.
    + exists st, []. split; [simpl; by rewrite Hc0|]. split; [apply moved_refl|].
      split; [constructor|]. intros c Hc. by apply elem_of_nil in Hc.
Qed.

Lemma broadcast_interleaved_run W user_id message sender schedule st :
  ∃ st' evs,
    SyncService.broadcast_to_user_interleaved W user_id message sender schedule st
      = (Returned tt, st')
    ∧ moved st st' evs
    ∧ Forall (λ e, (∃ c tr, e = EvSendJson c message (negb (send_raises W tr c message)))
                   ∨ is_accept e) evs
    ∧ (∀ c, c ∈ attempts evs →
         sender ≠ Some c
         ∧ (c ∈ default [] (rooms st !! user_id)
            ∨ (joining c user_id schedule
               ∧ SyncService.accepted_in (trace st) c = false))).
Proof.
  unfold SyncService.broadcast_to_user_interleaved.
  destruct (rooms st !! user_id) as [room|] eqn:Hroom.
  - destruct (broadcast_from_run W user_id message sender schedule 0 true st)
      as (st' & evs & Hrun & Hm & Hev & Hatt).
    exists st', evs. split; [done|]. split; [done|]. split; [done|].
    intros c Hc. destruct (Hatt c Hc) as [Hne Hin]. split; [done|].
    unfold SyncService.iterated in Hin. by rewrite Hroom in Hin.
  - exists st, []. split; [done|]. split; [apply moved_refl|].
    split; [constructor|]. intros c Hc. by apply elem_of_nil in Hc.
Qed.

Lemma iterated_NoDup user_id attached st :
  rooms_well_formed st → NoDup (SyncService.iterated user_id attached st).
Proof.
  intros Hwf. unfold SyncService.iterated.
  destruct attached; [|constructor].
  destruct (rooms st !! user_id) as [room|] eqn:Hroom; simpl; [|constructor].
  by destruct (Hwf _ _ Hroom).
Qed.

Lemma iterated_tracked user_id attached st c :
  tracked st → c ∈ SyncService.iterated user_id attached st →
  SyncService.accepted_in (trace st) c = true.
Proof.
  intros Htr. unfold SyncService.iterated.
  destruct attached; [|by intros ?%elem_of_nil].
  destruct (rooms st !! user_id) as [room|] eqn:Hroom; simpl;
    [|by intros ?%elem_of_nil].
  by apply (Htr user_id room).
Qed.

(** In a state whose rooms hold every connection once, and only
    accepted ones, a broadcast never addresses a connection twice,
    whatever the other tasks do: a connection it has passed stays
    behind the iterator or leaves, and having been accepted it cannot
    join again. *)
Lemma broadcast_from_once W user_id message sender schedule index attached st visited :
  rooms_well_formed st → tracked st →
  NoDup visited →
  (∀ v, v ∈ visited →
        SyncService.accepted_in (trace st) v = true
        ∧ v ∉ drop index (SyncService.iterated user_id attached st)) →
  ∃ st' evs,
    SyncService.broadcast_from W user_id message sender schedule index attached st
      = (Returned tt, st')
    ∧ trace st' = trace st ++ evs
    ∧ NoDup (visited ++ attempts evs).
Proof.
  revert index attached st visited.
  induction schedule as [|during later IH];
    intros index attached st visited Hwf Htr Hnd Hvis.
  - simpl. rewrite deliver_all_run. eexists _, _. split; [done|]. split; [done|].
    rewrite attempts_fan_out. apply NoDup_app. split; [done|]. split.
    + intros v Hv [Hin _]%elem_of_others. by apply (Hvis v Hv).
    + unfold others. apply NoDup_filter.
      eapply sublist_NoDup; [by apply iterated_NoDup | apply sublist_drop].
  - set (l := SyncService.iterated user_id attached st) in *.
    destruct (l !! index) as [c0|] eqn:Hc0.
    + assert (Hdrop : drop index l = c0 :: drop (S index) l) by (by apply drop_S).
      destruct (SyncService.is_sender sender c0) eqn:Hs.
      * destruct (IH (S index) attached st visited Hwf Htr Hnd)
          as (st' & evs & Hrun & Htrace & Hnd').
        { intros v Hv. destruct (Hvis v Hv) as [Ha Hnot]. split; [done|].
          fold l. intros Hin. apply Hnot. rewrite Hdrop. apply elem_of_cons; by right. }
        exists st', evs. split; [simpl; fold l; by rewrite Hc0, Hs | done].
      * rewrite (broadcast_from_turn W user_id message sender during later index
                   attached st c0 Hc0 Hs).
        set (e := EvSendJson c0 message (negb (send_raises W (trace st) c0 message))).
        unfold bind.
        destruct (interfere_all_run W user_id during attached (log e st))
          as (attached1 & st1 & evs1 & -> & (Hsteps1 & Htr1 & _) & Ha1 & Hlist).
        assert (Hl : NoDup (drop index l)).
        { eapply sublist_NoDup; [by apply iterated_NoDup | apply sublist_drop]. }
        rewrite Hdrop in Hl. apply NoDup_cons in Hl as [Hc0tail _].
        assert (Hsteps : rtc step st st1).
        { eapply rtc_l; [|exact Hsteps1]. by apply step_log. }
        assert (Hacc : ∀ v, v ∈ visited ++ [c0] →
                       SyncService.accepted_in (trace st) v = true).
        { intros v [Hv|Hv]%elem_of_app; [by apply (Hvis v)|].
          apply list_elem_of_singleton in Hv. subst v.
          apply (iterated_tracked user_id attached st c0 Htr).
          by eapply list_elem_of_lookup_2. }
        destruct (IH (S index) attached1 st1 (visited ++ [c0]))
          as (st' & evs2 & Hrun & Htr2 & Hnd2).
        { by eapply steps_well_formed. }
        { by eapply steps_tracked. }
        { apply NoDup_app. split; [done|]. split; [|apply NoDup_singleton].
          intros v Hv ->%list_elem_of_singleton.
          destruct (Hvis c0 Hv) as [_ Hnot]. apply Hnot. fold l. rewrite Hdrop.
          apply elem_of_cons; by left. }
        { intros v Hv. split; [eapply steps_accepted; [exact Hsteps | by apply Hacc]|].
          intros Hin. destruct (Hlist (S index) v Hin) as [Hold|[_ Hnew]].
          - change (SyncService.iterated user_id attached (log e st)) with l in Hold.
            apply elem_of_app in Hv as [Hv|Hv].
            + destruct (Hvis v Hv) as [_ Hnot]. apply Hnot. fold l. rewrite Hdrop.
              apply elem_of_cons; by right.
            + apply list_elem_of_singleton in Hv. by subst v.
          - apply accepted_in_before in Hnew. rewrite (Hacc v Hv) in Hnew. done. }
        exists st', ([e] ++ evs1 ++ evs2). split; [done|].
        split; [rewrite Htr2, Htr1; simpl; by rewrite <- !app_assoc|].
        rewrite !attempts_app, (attempts_accepts evs1 Ha1). simpl.
        by rewrite <- app_assoc in Hnd2.
    + exists st, []. split; [simpl; fold l; by rewrite Hc0|].
      split; [by rewrite app_nil_r|]. by rewrite app_nil_r.
Qed.

Lemma broadcast_interleaved_once W user_id message sender schedule st :
  rooms_well_formed st → tracked st →
  NoDup (attempts
           (emitted st
              (SyncService.broadcast_to_user_interleaved W user_id message sender
                 schedule st).2)).
Proof.
  intros Hwf Htr. unfold SyncService.broadcast_to_user_interleaved.
  destruct (rooms st !! user_id) as [room|] eqn:Hroom.
  - destruct (broadcast_from_once W user_id message sender schedule 0 true st []
                Hwf Htr) as (st' & evs & -> & Htrace & Hnd).
    + constructor.
    + intros v Hv. by apply elem_of_nil in Hv.
    + cbn [snd]. by rewrite (emitted_trace _ _ _ Htrace).
  - cbn [snd]. rewrite emitted_same. constructor.
Qed.

(** ** What joining and leaving can do to a running broadcast *)

(** As long as no other task touches the rooms during the awaits, the
    loop over the live list is the loop over the list read at its start. *)
Lemma broadcast_from_idle W user_id message sender schedule index st :
  Forall (λ during, during = []) schedule →
  SyncService.broadcast_from W user_id message sender schedule index true st
  = SyncService.deliver_all W message sender
      (drop index (default [] (rooms st !! user_id))) st.
Proof.
  intros Hidle. revert index st.
  induction Hidle as [|during later -> _ IH]; intros index st; [done|].
  simpl. unfold SyncService.iterated.
  destruct (default [] (rooms st !! user_id) !! index) as [c|] eqn:E.
  - rewrite (drop_S _ _ _ E). simpl.
    unfold bind, SyncService.deliver.
    destruct (SyncService.is_sender sender c); [apply IH|].
    unfold try_except, SyncService.send_json.
    destruct (send_raises W (trace st) c message); simpl; by rewrite IH.
  - apply lookup_ge_None in E. by rewrite drop_ge.
Qed.

Lemma broadcast_interleaved_idle W user_id message sender schedule st :
  Forall (λ during, during = []) schedule →
  SyncService.broadcast_to_user_interleaved W user_id message sender schedule st
  = SyncService.broadcast_to_user W user_id message sender st.
Proof.
  intros Hidle.
  unfold SyncService.broadcast_to_user, SyncService.broadcast_to_user_interleaved.
  destruct (rooms st !! user_id) as [room|] eqn:E; [|done].
  rewrite broadcast_from_idle by done.
  by rewrite (broadcast_from_idle W user_id message sender [] 0 st) by constructor.
Qed.

(** Tasks that only join leave the list under iteration in place and
    append to it at most. *)
Lemma interfere_all_joins W user_id during st room :
  Forall is_join during →
  rooms st !! user_id = Some room →
  ∃ st' evs extra,
    SyncService.interfere_all W user_id during true st = (Returned true, st')
    ∧ trace st' = trace st ++ evs
    ∧ attempts evs = []
    ∧ rooms st' !! user_id = Some (room ++ extra)
    ∧ Forall (λ c, SyncService.Joins c user_id ∈ during) extra.
Proof.
  intros Hjoins. revert st room.
  induction Hjoins as [|a during Ha _ IH]; intros st room Hroom; simpl.
  - exists st, [], []. by rewrite !app_nil_r.
  - assert (Hlater : ∀ extra,
              Forall (λ c, SyncService.Joins c user_id ∈ during) extra →
              Forall (λ c, SyncService.Joins c user_id ∈ a :: during) extra).
    { intros extra Hextra. eapply Forall_impl; [exact Hextra|].
      intros c Hc. apply elem_of_cons; by right. }
    destruct a as [c u|]; [|done]. unfold bind; simpl. unfold try_except.
    destruct (connect_cases W c u st) as [->|(_ & _ & _ & ->)].
    + unfold ret; simpl. rewrite Hroom; simpl.
      destruct (IH (log (EvAccept c false) st) room Hroom)
        as (st' & evs & extra & Hrun & Htr & Hatt & Hrooms & Hextra).
      exists st', (EvAccept c false :: evs), extra.
      split; [done|]. split; [rewrite Htr; simpl; by rewrite <- app_assoc|].
      split; [done|]. split; [done|]. by apply Hlater.
    + simpl. destruct (decide (u = user_id)) as [->|Hne].
      * rewrite lookup_insert_eq; simpl.
        edestruct (IH (set_rooms
                         (<[user_id := default [] (rooms st !! user_id) ++ [c]]> (rooms st))
                         (log (EvAccept c true) st)) (room ++ [c]))
          as (st' & evs & extra & Hrun & Htr & Hatt & Hrooms & Hextra).
        { simpl. by rewrite lookup_insert_eq, Hroom. }
        exists st', (EvAccept c true :: evs), (c :: extra).
        split; [done|]. split; [rewrite Htr; simpl; by rewrite <- app_assoc|].
        split; [done|]. split; [by rewrite Hrooms, <- app_assoc|].
        constructor; [apply elem_of_cons; by left | by apply Hlater].
      * rewrite lookup_insert_ne by done. rewrite Hroom; simpl.
        edestruct (IH (set_rooms
                         (<[u := default [] (rooms st !! u) ++ [c]]> (rooms st))
                         (log (EvAccept c true) st)) room)
          as (st' & evs & extra & Hrun & Htr & Hatt & Hrooms & Hextra).
        { simpl. by rewrite lookup_insert_ne. }
        exists st', (EvAccept c true :: evs), extra.
        split; [done|]. split; [rewrite Htr; simpl; by rewrite <- app_assoc|].
        split; [done|]. split; [done|]. by apply Hlater.
Qed.

(** With joining tasks only, the loop started at [index] addresses what
    lies from [index] on in the room as it is when the loop ends. *)
Lemma broadcast_from_joins W user_id message sender schedule index st room :
  Forall (Forall is_join) schedule →
  rooms st !! user_id = Some room →
  ∃ st' evs extra,
    SyncService.broadcast_from W user_id message sender schedule index true st
      = (Returned tt, st')
    ∧ trace st' = trace st ++ evs
    ∧ rooms st' !! user_id = Some (room ++ extra)
    ∧ attempts evs = others sender (drop index (room ++ extra))
    ∧ Forall (λ c, joining c user_id schedule) extra.
Proof.
  intros Hjoins. revert index st room.
  induction Hjoins as [|during later Hduring _ IH]; intros index st room Hroom; simpl.
  - unfold SyncService.iterated. rewrite Hroom; simpl. rewrite deliver_all_run.
    eexists _, _, []. split; [done|]. split; [done|].
    rewrite app_nil_r. split; [done|]. by rewrite attempts_fan_out.
  - unfold SyncService.iterated. rewrite Hroom; simpl.
    destruct (room !! index) as [c|] eqn:Ec.
    + destruct (SyncService.is_sender sender c) eqn:Es.
      * destruct (IH (S index) st room Hroom)
          as (st' & evs & extra & Hrun & Htr & Hrooms & Hatt & Hextra).
        exists st', evs, extra. split; [done|]. split; [done|]. split; [done|].
        split; [|eapply Forall_impl; [exact Hextra|]; intros ?; apply joining_later].
        rewrite Hatt.
        rewrite (drop_S (room ++ extra) c index) by (by apply lookup_app_l_Some).
        by rewrite others_cons, Es.
      * unfold bind, try_except, SyncService.send_json.
        set (e := EvSendJson c message (negb (send_raises W (trace st) c message))).
        assert (Hsend : ∃ r,
                  (if send_raises W (trace st) c message
                   then (Raised (SendError c), log (EvSendJson c message false) st)
                   else (Returned tt, log (EvSendJson c message true) st))
                  = (r, log e st)).
        { unfold e. destruct (send_raises W (trace st) c message); by eexists. }
        destruct Hsend as [r ->].
        assert (Hstep : (match r with
                         | Returned a => (Returned a, log e st)
                         | Raised _ => ret tt (log e st)
                         end) = (Returned tt, log e st)).
        { destruct r as [[]|]; done. }
        rewrite Hstep.
        destruct (interfere_all_joins W user_id during (log e st) room Hduring Hroom)
          as (st1 & evs1 & extra1 & -> & Htr1 & Hatt1 & Hrooms1 & Hextra1).
        destruct (IH (S index) st1 (room ++ extra1) Hrooms1)
          as (st' & evs2 & extra2 & Hrun & Htr2 & Hrooms2 & Hatt2 & Hextra2).
        exists st', (e :: evs1 ++ evs2), (extra1 ++ extra2).
        split; [done|].
        split; [rewrite Htr2, Htr1; simpl; by rewrite <- !app_assoc|].
        split; [by rewrite Hrooms2, <- app_assoc|].
        split.
        { rewrite (drop_S (room ++ extra1 ++ extra2) c index)
            by (by apply lookup_app_l_Some).
          rewrite others_cons, Es.
          unfold attempts; simpl. fold (attempts (evs1 ++ evs2)).
          rewrite attempts_app, Hatt1, Hatt2. simpl. by rewrite <- app_assoc. }
        apply Forall_app. split.
        { eapply Forall_impl; [exact Hextra1|]. intros ?; apply joining_now. }
        { eapply Forall_impl; [exact Hextra2|]. intros ?; apply joining_later. }
    + exists st, [], []. split; [done|]. split; [by rewrite app_nil_r|].
      rewrite app_nil_r. split; [done|].
      apply lookup_ge_None in Ec. by rewrite drop_ge.
Qed.

(** With joining tasks only, a broadcast addresses, in room order,
    everybody but the sender in the room as it is when the broadcast
    ends: the connections that were there at its start, then those that
    joined during it. *)
Lemma broadcast_interleaved_joins W user_id message sender schedule st :
  Forall (Forall is_join) schedule →
  ∃ st' evs late,
    SyncService.broadcast_to_user_interleaved W user_id message sender schedule st
      = (Returned tt, st')
    ∧ trace st' = trace st ++ evs
    ∧ default [] (rooms st' !! user_id) = default [] (rooms st !! user_id) ++ late
    ∧ attempts evs = others sender (default [] (rooms st !! user_id) ++ late)
    ∧ Forall (λ c, joining c user_id schedule) late.
Proof.
  intros Hjoins. unfold SyncService.broadcast_to_user_interleaved.
  destruct (rooms st !! user_id) as [room|] eqn:Hroom; simpl.
  - destruct (broadcast_from_joins W user_id message sender schedule 0 st room
                Hjoins Hroom) as (st' & evs & late & Hrun & Htr & Hrooms & Hatt & Hlate).
    exists st', evs, late. split; [done|]. split; [done|].
    rewrite Hrooms. split; [done|]. by rewrite Hatt, drop_0.
  - exists st, [], []. rewrite Hroom, !app_nil_r. by repeat split.
Qed.

(** Tasks that only leave log nothing and can only shorten the list
    under iteration. *)
Lemma interfere_all_leaves W user_id during attached st :
  Forall is_leave during →
  ∃ st' attached',
    SyncService.interfere_all W user_id during attached st = (Returned attached', st')
    ∧ trace st' = trace st
    ∧ SyncService.iterated user_id attached' st'
      `sublist_of` SyncService.iterated user_id attached st.
Proof.
  intros Hleaves. revert attached st.
  induction Hleaves as [|a during Ha _ IH]; intros attached st; simpl.
  - by exists st, attached.
  - destruct a as [|c u]; [done|]. unfold bind; simpl.
    destruct (disconnect_run c u st)
      as (st1 & -> & Htr1 & _ & _ & Hroom1 & _ & Hother1).
    destruct (IH (attached && bool_decide (is_Some (rooms st1 !! user_id))) st1)
      as (st' & attached' & Hrun & Htr & Hsub).
    exists st', attached'. split; [done|]. split; [congruence|].
    etransitivity; [exact Hsub|].
    unfold SyncService.iterated.
    destruct attached; simpl; [|done].
    case_bool_decide as Hsome; [|apply sublist_nil_l].
    destruct (decide (user_id = u)) as [->|Hne].
    + rewrite Hroom1. apply list_remove_sublist.
    + by rewrite Hother1.
Qed.

Lemma broadcast_from_leaves W user_id message sender schedule index attached st :
  Forall (Forall is_leave) schedule →
  ∃ st' evs,
    SyncService.broadcast_from W user_id message sender schedule index attached st
      = (Returned tt, st')
    ∧ trace st' = trace st ++ evs
    ∧ attempts evs
      `sublist_of` others sender (drop index (SyncService.iterated user_id attached st)).
Proof.
  intros Hleaves. revert index attached st.
  induction Hleaves as [|during later Hduring _ IH]; intros index attached st; simpl.
  - rewrite deliver_all_run. eexists _, _. split; [done|]. split; [done|].
    by rewrite attempts_fan_out.
  - set (room := SyncService.iterated user_id attached st).
    destruct (room !! index) as [c|] eqn:Ec.
    + rewrite (drop_S room c index Ec), others_cons.
      destruct (SyncService.is_sender sender c) eqn:Es.
      * apply IH.
      * unfold bind, try_except, SyncService.send_json.
        set (e := EvSendJson c message (negb (send_raises W (trace st) c message))).
        assert (Hstep : (match
                           (if send_raises W (trace st) c message
                            then (Raised (SendError c),
                                  log (EvSendJson c message false) st)
                            else (Returned tt, log (EvSendJson c message true) st))
                         with
                         | (Returned a, st') => (Returned a, st')
                         | (Raised _, st') => ret tt st'
                         end) = (Returned tt, log e st)).
        { unfold e. by destruct (send_raises W (trace st) c message). }
        rewrite Hstep.
        destruct (interfere_all_leaves W user_id during attached (log e st) Hduring)
          as (st1 & attached1 & -> & Htr1 & Hsub1).
        destruct (IH (S index) attached1 st1) as (st' & evs & Hrun & Htr & Hatt).
        exists st', (e :: evs). split; [done|].
        split; [rewrite Htr, Htr1; simpl; by rewrite <- app_assoc|].
        unfold attempts; simpl. fold (attempts evs).
        apply sublist_skip. etransitivity; [exact Hatt|].
        apply others_sublist, sublist_drop_mono. exact Hsub1.
    + exists st, []. split; [done|]. split; [by rewrite app_nil_r|]. apply sublist_nil_l.
Qed.

(** ** Arbitration: [handle_playback_update] *)

(** C2.  An update from a device that is not the user's active device,
    sent with a sender connection: the call returns [False]; rooms,
    registry and store are as before; besides the arbitration check the
    only event is one [send_json], on the sender, of the message whose
    [type] is [playback_controlled_elsewhere] and whose
    [active_device_id] is the user's current active device ([None] if
    there is none); there is no store write and no other connection is
    addressed. *)
Theorem rejected_update_answers_sender_only
    (W : World) (st : State) (user_id device_id : string) (state : Dict) (s : Conn)
    (schedule : list (list SyncService.Interference)) :
  registry st !! user_id ≫= active_device_id ≠ Some device_id →
  ∃ st' ok,
    SyncService.handle_playback_update W user_id device_id state (Some s) schedule st
      = (Returned false, st')
    ∧ emitted st st'
      = [EvValidate user_id device_id false;
         EvSendJson s
           (JDict [("type", JStr "playback_controlled_elsewhere");
                   ("active_device_id",
                    match registry st !! user_id ≫= active_device_id with
                    | Some active => JStr active
                    | None => JNull
                    end);
                   ("message", JStr "Playback is controlled on another device")])
           ok]
    ∧ store st' = store st
    ∧ rooms st' = rooms st
    ∧ registry st' = registry st
    ∧ store_writes (emitted st st') = []
    ∧ attempts (emitted st st') = [s].
Proof.
  intros Hne.
  set (active := registry st !! user_id ≫= active_device_id) in *.
  set (reply := SyncService.rejection active).
  set (tr1 := trace st ++ [EvValidate user_id device_id false]).
  exists (append_events
            [EvValidate user_id device_id false;
             EvSendJson s reply (negb (send_raises W tr1 s reply))] st),
         (negb (send_raises W tr1 s reply)).
  rewrite emitted_append.
  split; [|by repeat split].
  unfold SyncService.handle_playback_update, bind,
    DeviceManager.validate_device_control.
  fold active. rewrite bool_decide_eq_false_2 by done. simpl.
  fold active reply tr1.
  unfold try_except, SyncService.send_json; simpl. fold tr1.
  destruct (send_raises W tr1 s reply); simpl;
    unfold append_events, log, ret; simpl; by rewrite <- app_assoc.
Qed.

Lemma rejected_update_answers_sender_only_witness :
  ∃ st' ok,
    SyncService.handle_playback_update reliable "u" "D2" track_t1 (Some 2)
      [[SyncService.Leaves 1 "u"]] scenario
      = (Returned false, st')
    ∧ emitted scenario st'
      = [EvValidate "u" "D2" false;
         EvSendJson 2
           (JDict [("type", JStr "playback_controlled_elsewhere");
                   ("active_device_id",
                    match registry scenario !! "u" ≫= active_device_id with
                    | Some active => JStr active
                    | None => JNull
                    end);
                   ("message", JStr "Playback is controlled on another device")])
           ok]
    ∧ store st' = store scenario
    ∧ rooms st' = rooms scenario
    ∧ registry st' = registry scenario
    ∧ store_writes (emitted scenario st') = []
    ∧ attempts (emitted scenario st') = [2].
Proof.
  apply (rejected_update_answers_sender_only reliable scenario "u" "D2" track_t1 2).
  vm_compute. discriminate.
Defined.

(** C10.  An update that loses arbitration and comes without a sender
    connection: the call returns [False] and calls [send_json] on no
    connection at all; the arbitration check is its only event. *)
Theorem rejected_update_without_sender_is_silent
    (W : World) (st : State) (user_id device_id : string) (state : Dict)
    (schedule : list (list SyncService.Interference)) :
  registry st !! user_id ≫= active_device_id ≠ Some device_id →
  ∃ st',
    SyncService.handle_playback_update W user_id device_id state None schedule st
      = (Returned false, st')
    ∧ emitted st st' = [EvValidate user_id device_id false]
    ∧ attempts (emitted st st') = []
    ∧ store st' = store st
    ∧ rooms st' = rooms st.
Proof.
  intros Hne.
  exists (append_events [EvValidate user_id device_id false] st).
  rewrite emitted_append.
  split; [|by repeat split].
  unfold SyncService.handle_playback_update, bind,
    DeviceManager.validate_device_control.
  by rewrite bool_decide_eq_false_2 by done.
Qed.

Lemma rejected_update_without_sender_is_silent_witness :
  ∃ st',
    SyncService.handle_playback_update reliable "u" "D2" track_t1 None
      [[SyncService.Leaves 1 "u"]] scenario
      = (Returned false, st')
    ∧ emitted scenario st' = [EvValidate "u" "D2" false]
    ∧ attempts (emitted scenario st') = []
    ∧ store st' = store scenario
    ∧ rooms st' = rooms scenario.
Proof.
  apply (rejected_update_without_sender_is_silent reliable scenario "u" "D2" track_t1).
  vm_compute. discriminate.
Defined.

(** For an empty user id the guard of [set_playback_state] returns
    before anything is written. *)
Lemma empty_user_id_writes_nothing (state : Dict) (st : State) :
  FirebaseDB.set_playback_state "" state st = (Returned state, st).
Proof. reflexivity. Qed.

(** C3.  D1 is the active device of "u"; connections 1, 2 and 3 are
    open and the update comes in on connection 3.  The state is written
    once, stamped, at the playback path of "u", and the broadcast
    starts with connection 1.  Connection 1 leaves during that send;
    on the live list the iterator then finds connection 3, the sender,
    and the list ends: connection 2, in the room all along and not the
    sender, is never addressed.  With nobody leaving, the same update
    goes to connections 1 and 2.  It is the same in the state the
    service is in after the three sockets have connected. *)
Theorem accepted_update_skips_a_connection :
  rooms three_listeners !! "u" = Some [1; 2; 3]
  ∧ registry three_listeners !! "u" ≫= active_device_id = Some "D1"
  ∧ ∃ st',
      SyncService.handle_playback_update reliable "u" "D1" track_t1 (Some 3)
        [[SyncService.Leaves 1 "u"]] three_listeners = (Returned true, st')
      ∧ emitted three_listeners st'
        = [EvValidate "u" "D1" true;
           EvStoreSet "users/u/playback/current"
             (JDict [("track", JStr "t1"); ("position", JNum 10);
                     ("playing", JBool true);
                     ("updatedAt", JDict [(".sv", JStr "timestamp")])]);
           EvSendJson 1
             (JDict [("type", JStr "playback_state_update");
                     ("state",
                      JDict [("track", JStr "t1"); ("position", JNum 10);
                             ("playing", JBool true);
                             ("updatedAt", JDict [(".sv", JStr "timestamp")])])])
             true]
      ∧ rooms st' !! "u" = Some [2; 3]
      ∧ attempts (emitted three_listeners st') = [1]
      ∧ attempts
          (emitted three_listeners
             (SyncService.handle_playback_update reliable "u" "D1" track_t1 (Some 3)
                [] three_listeners).2)
        = [1; 2]
      ∧ reachable reliable three_connected
      ∧ rooms three_connected !! "u" = Some [1; 2; 3]
      ∧ attempts
          (emitted three_connected
             (SyncService.handle_playback_update reliable "u" "D1" track_t1 (Some 3)
                [[SyncService.Leaves 1 "u"]] three_connected).2)
        = [1].
Proof.
  split; [by vm_compute|]. split; [by vm_compute|]. eexists.
  do 5 (split; [by vm_compute|]).
  split; [|by vm_compute].
  do 4 apply reachable_perform. apply reachable_initial.
Qed.

(** ** Switching the active device: [POST /devices/set-active] *)

Lemma others_no_sender (connections : list Conn) : others None connections = connections.
Proof.
  unfold others. induction connections as [|c rest IH]; [done|].
  rewrite filter_cons_True by done. by rewrite IH.
Qed.

(** C4.  D2 is registered for "u"; connections 1, 2 and 3 are open.
    The request succeeds and D2 becomes the active device.  The
    broadcast of the [device_switched] message starts with connection
    1, which leaves during that send; on the live list the iterator
    then finds connection 3: connection 2, in the room all along, never
    gets the event.  With nobody leaving, the event goes to 1, 2 and 3.
    It is the same in the state the service is in after the three
    sockets have connected. *)
Theorem device_switch_skips_a_connection :
  rooms three_listeners !! "u" = Some [1; 2; 3]
  ∧ registry three_listeners !! "u" ≫= (λ uds, devices uds !! "D2") = Some phone
  ∧ ∃ st',
      Main.set_active_device reliable "u" "D2" [[SyncService.Leaves 1 "u"]]
        three_listeners
        = (Returned (JDict [("status", JStr "active_device_set");
                            ("device_id", JStr "D2")]), st')
      ∧ registry st' !! "u" ≫= active_device_id = Some "D2"
      ∧ emitted three_listeners st'
        = [EvSendJson 1
             (JDict [("type", JStr "device_switched");
                     ("active_device_id", JStr "D2");
                     ("message", JStr "Playback control switched to device D2")])
             true;
           EvSendJson 3
             (JDict [("type", JStr "device_switched");
                     ("active_device_id", JStr "D2");
                     ("message", JStr "Playback control switched to device D2")])
             true]
      ∧ rooms st' !! "u" = Some [2; 3]
      ∧ attempts (emitted three_listeners st') = [1; 3]
      ∧ attempts
          (emitted three_listeners
             (Main.set_active_device reliable "u" "D2" [] three_listeners).2)
        = [1; 2; 3]
      ∧ reachable reliable three_connected
      ∧ rooms three_connected !! "u" = Some [1; 2; 3]
      ∧ attempts
          (emitted three_connected
             (Main.set_active_device reliable "u" "D2" [[SyncService.Leaves 1 "u"]]
                three_connected).2)
        = [1; 3].
Proof.
  split; [by vm_compute|]. split; [by vm_compute|]. eexists.
  do 6 (split; [by vm_compute|]).
  split; [|by vm_compute].
  do 4 apply reachable_perform. apply reachable_initial.
Qed.

(** C6.  A set-active request for a device id that is not registered for
    the user: the registry call returns [False] and leaves the whole
    state, so also the user's active device, as it was; the endpoint
    raises [HTTPException(404, "Device not found")] and no event, so no
    [device_switched] message, is produced. *)
Theorem set_active_unregistered_device_is_refused
    (W : World) (st : State) (user_id device_id : string)
    (schedule : list (list SyncService.Interference)) :
  registry st !! user_id ≫= (λ uds, devices uds !! device_id) = None →
  DeviceManager.set_active_device user_id device_id st = (Returned false, st)
  ∧ (DeviceManager.get_active_device user_id
       (DeviceManager.set_active_device user_id device_id st).2).1
    = (DeviceManager.get_active_device user_id st).1
  ∧ Main.set_active_device W user_id device_id schedule st
    = (Raised (HTTPException 404 "Device not found"), st)
  ∧ attempts (emitted st (Main.set_active_device W user_id device_id schedule st).2)
    = [].
Proof.
  intros Hnone.
  assert (Hrun : DeviceManager.set_active_device user_id device_id st
                 = (Returned false, st)).
  { unfold DeviceManager.set_active_device.
    destruct (registry st !! user_id) as [uds|]; simpl in *; [|done].
    by rewrite Hnone. }
  assert (Hmain : Main.set_active_device W user_id device_id schedule st
                  = (Raised (HTTPException 404 "Device not found"), st)).
  { unfold Main.set_active_device, bind. by rewrite Hrun. }
  split; [done|]. split; [|split; [done|]].
  - by rewrite Hrun.
  - rewrite Hmain; simpl. by rewrite emitted_same.
Qed.

Lemma set_active_unregistered_device_is_refused_witness :
  DeviceManager.set_active_device "u" "D3" scenario = (Returned false, scenario)
  ∧ (DeviceManager.get_active_device "u"
       (DeviceManager.set_active_device "u" "D3" scenario).2).1
    = (DeviceManager.get_active_device "u" scenario).1
  ∧ Main.set_active_device reliable "u" "D3" [[SyncService.Leaves 1 "u"]] scenario
    = (Raised (HTTPException 404 "Device not found"), scenario)
  ∧ attempts
      (emitted scenario
         (Main.set_active_device reliable "u" "D3" [[SyncService.Leaves 1 "u"]]
            scenario).2)
    = [].
Proof.
  apply (set_active_unregistered_device_is_refused reliable scenario "u" "D3").
  reflexivity.
Defined.

(** ** Every call is made of moves *)

(** An accepted update is the arbitration check, the store write unless
    the user id is empty, and the broadcast of the state as written. *)
Lemma accepted_update_run W user_id device_id state sender schedule st :
  registry st !! user_id ≫= active_device_id = Some device_id →
  let checked := log (EvValidate user_id device_id true) st in
  let stamped :=
    if String.eqb user_id "" then state
    else dict_set "updatedAt" FirebaseDB.server_timestamp state in
  let written :=
    if String.eqb user_id "" then checked
    else log (EvStoreSet (FirebaseDB.playback_path user_id) (JDict stamped))
           (set_store (<[FirebaseDB.playback_path user_id := JDict stamped]>
                         (store checked)) checked) in
  ∀ st',
    SyncService.broadcast_to_user_interleaved W user_id
      (SyncService.playback_state_update stamped) sender schedule written
      = (Returned tt, st') →
    SyncService.handle_playback_update W user_id device_id state sender schedule st
    = (Returned true, st').
Proof.
  intros Hactive checked stamped written st' Hrun.
  unfold SyncService.handle_playback_update, bind,
    DeviceManager.validate_device_control.
  rewrite Hactive, bool_decide_eq_true_2 by done. simpl.
  unfold FirebaseDB.set_playback_state.
  unfold written, stamped, checked in Hrun.
  destruct (String.eqb user_id ""); unfold ret; by rewrite Hrun.
Qed.

Lemma rejected_update_run W user_id device_id state sender schedule st :
  registry st !! user_id ≫= active_device_id ≠ Some device_id →
  let checked := log (EvValidate user_id device_id false) st in
  let reply := SyncService.rejection (registry st !! user_id ≫= active_device_id) in
  SyncService.handle_playback_update W user_id device_id state sender schedule st
  = (Returned false,
     match sender with
     | Some s =>
         log (EvSendJson s reply (negb (send_raises W (trace checked) s reply))) checked
     | None => checked
     end).
Proof.
  intros Hne checked reply.
  unfold SyncService.handle_playback_update, bind,
    DeviceManager.validate_device_control.
  rewrite bool_decide_eq_false_2 by done. simpl.
  destruct sender as [s|]; [|done].
  unfold try_except, SyncService.send_json, DeviceManager.get_active_device; simpl.
  subst checked reply; simpl.
  by destruct (send_raises W _ s _).
Qed.

Lemma handle_playback_update_steps W user_id device_id state sender schedule st :
  rtc step st
    (SyncService.handle_playback_update W user_id device_id state sender schedule st).2.
Proof.
  destruct (decide (registry st !! user_id ≫= active_device_id = Some device_id))
    as [Hactive|Hne].
  - pose proof (accepted_update_run W user_id device_id state sender schedule st
                  Hactive) as Hrun. cbv zeta in Hrun.
    set (checked := log (EvValidate user_id device_id true) st) in *.
    assert (Hchecked : rtc step st checked) by (by apply rtc_once, step_log).
    destruct (String.eqb user_id "");
      match type of Hrun with
      | ∀ st', SyncService.broadcast_to_user_interleaved _ _ ?m _ _ ?w = _ → _ =>
          destruct (broadcast_interleaved_run W user_id m sender schedule w)
            as (st' & evs & Hb & (Hsteps & _) & _);
          rewrite (Hrun st' Hb); cbn [snd];
          transitivity w; [|exact Hsteps]
      end; [done|].
    etransitivity; [exact Hchecked|].
    eapply rtc_l; [apply step_store|]. by apply rtc_once, step_log.
  - rewrite rejected_update_run by done. cbn [snd].
    set (checked := log (EvValidate user_id device_id false) st).
    assert (Hchecked : rtc step st checked) by (by apply rtc_once, step_log).
    destruct sender as [s|]; [|done].
    etransitivity; [exact Hchecked|]. by apply rtc_once, step_log.
Qed.

Lemma set_active_device_steps W user_id device_id schedule st :
  rtc step st (Main.set_active_device W user_id device_id schedule st).2.
Proof.
  unfold Main.set_active_device, bind, DeviceManager.set_active_device.
  destruct (registry st !! user_id) as [uds|]; [|done].
  destruct (devices uds !! device_id) as [dev|]; [|done].
  unfold SyncService.broadcast_device_switch.
  match goal with
  | |- context [SyncService.broadcast_to_user_interleaved W user_id ?m None schedule ?w] =>
      destruct (broadcast_interleaved_run W user_id m None schedule w)
        as (st' & evs & -> & (Hsteps & _) & _)
  end.
  cbn [snd]. eapply rtc_l; [apply step_registry | exact Hsteps].
Qed.

(** The receive loop: it relays and waits, and besides the results of
    other tasks' [accept()] all it leaves in the trace is sends. *)
Lemma receive_loop_moved W websocket user_id incoming st :
  ∃ r st' evs,
    Main.receive_loop W websocket user_id incoming st = (r, st')
    ∧ moved st st' evs
    ∧ (closes incoming = false → r = Returned tt)
    ∧ (closes incoming = true → ∃ e, r = Raised e)
    ∧ validations evs = []
    ∧ store_writes evs = [].
Proof.
  revert st. induction incoming as [|frame later IH]; intros st.
  - exists (Returned tt), st, []. split; [done|]. split; [apply moved_refl|]. done.
  - destruct frame as [data schedule|during| |]; simpl.
    + unfold bind.
      destruct (broadcast_interleaved_run W user_id data (Some websocket) schedule st)
        as (st1 & evs1 & -> & Hm1 & Hev1 & _).
      destruct (IH st1) as (r & st' & evs2 & -> & Hm2 & Hopen & Hclosed & Hval & Hwr).
      exists r, st', (evs1 ++ evs2). split; [done|].
      split; [by eapply moved_trans|]. split; [done|]. split; [done|].
      rewrite validations_app, store_writes_app, Hval, Hwr, !app_nil_r.
      by apply (sends_no_validation data), (outcomes_are_sends W).
    + unfold bind.
      destruct (meanwhile_run W during st) as (st1 & evs1 & -> & Hm1 & Ha1).
      destruct (IH st1) as (r & st' & evs2 & -> & Hm2 & Hopen & Hclosed & Hval & Hwr).
      exists r, st', (evs1 ++ evs2). split; [done|].
      split; [by eapply moved_trans|]. split; [done|]. split; [done|].
      by rewrite validations_app, store_writes_app, Hval, Hwr,
        validations_accepts, store_writes_accepts.
    + exists (Raised WebSocketDisconnect), st, []. split; [done|].
      split; [apply moved_refl|]. split; [done|]. split; [by eexists | done].
    + exists (Raised ReceiveError), st, []. split; [done|].
      split; [apply moved_refl|]. split; [done|]. split; [by eexists | done].
Qed.

Lemma websocket_endpoint_steps W websocket user_id incoming st :
  rtc step st (Main.websocket_endpoint W websocket user_id incoming st).2.
Proof.
  unfold Main.websocket_endpoint, bind.
  destruct (connect_moved W websocket user_id st) as (r & st1 & ok & -> & (Hs1 & _)).
  destruct r as [[]|e]; [|done].
  unfold try_except.
  destruct (receive_loop_moved W websocket user_id incoming st1)
    as (r & st2 & evs & -> & (Hs2 & _) & _).
  assert (Hdis : rtc step st
                   (SyncService.disconnect websocket user_id st2).2).
  { destruct (disconnect_moved websocket user_id st2) as (st' & -> & (Hs3 & _)).
    cbn [snd]. transitivity st1; [done|]. by transitivity st2. }
  destruct r as [[]|e]; [cbn [snd]; by transitivity st1|]. by destruct e.
Qed.

Lemma perform_steps W call st : rtc step st (perform W call st).
Proof.
  destruct call as [websocket user_id incoming|user_id device_id schedule
                   |user_id device_id state sender schedule
                   |user_id message sender schedule
                   |websocket user_id|websocket user_id|g|s]; simpl.
  - apply websocket_endpoint_steps.
  - apply set_active_device_steps.
  - apply handle_playback_update_steps.
  - destruct (broadcast_interleaved_run W user_id message sender schedule st)
      as (st' & evs & -> & (Hsteps & _) & _). exact Hsteps.
  - destruct (connect_moved W websocket user_id st) as (r & st' & ok & -> & (Hs & _)).
    exact Hs.
  - destruct (disconnect_moved websocket user_id st) as (st' & -> & (Hs & _)).
    exact Hs.
  - apply rtc_once, step_registry.
  - apply rtc_once, step_store.
Qed.

Lemma reachable_steps W st : reachable W st → rtc step initial st.
Proof.
  induction 1 as [|st call _ IH]; [done|].
  etransitivity; [exact IH | apply perform_steps].
Qed.

(** In every state the service can be in, no room is empty, no room
    holds a connection twice, and every connection in a room has been
    accepted. *)
Lemma reachable_well_formed W st : reachable W st → rooms_well_formed st ∧ tracked st.
Proof.
  intros Hsteps%reachable_steps. split.
  - eapply steps_well_formed; [exact Hsteps|]. intros u room Hu.
    cbn in Hu. by rewrite lookup_empty in Hu.
  - eapply steps_tracked; [exact Hsteps|]. intros u room c Hu.
    cbn in Hu. by rewrite lookup_empty in Hu.
Qed.

(** ** Rooms: [connect] and [disconnect] *)

Lemma step_nonempty st st' : step st st' → rooms_nonempty st → rooms_nonempty st'.
Proof.
  destruct 1 as [st e _|st s|st g|st c u _ _|st c u]; intros Hinv; try exact Hinv.
  - intros v room; simpl. destruct (decide (u = v)) as [->|Hne].
    + rewrite lookup_insert_eq. intros [= <-].
      by destruct (default [] (rooms st !! v)).
    + rewrite lookup_insert_ne by done. apply Hinv.
  - destruct (disconnect_run c u st)
      as (st' & -> & _ & _ & _ & _ & Hhere & Hother); simpl.
    intros v room Hv. destruct (decide (v = u)) as [->|Hne].
    + congruence.
    + rewrite Hother in Hv by done. by eapply Hinv.
Qed.

Lemma steps_nonempty st st' : rtc step st st' → rooms_nonempty st → rooms_nonempty st'.
Proof. induction 1; eauto using step_nonempty. Qed.

(** The three operations on rooms keep every room that exists
    non-empty, whatever runs during the awaits of the broadcast. *)
Lemma connect_keeps_rooms_nonempty W websocket user_id st :
  rooms_nonempty st → rooms_nonempty (SyncService.connect W websocket user_id st).2.
Proof.
  destruct (connect_moved W websocket user_id st) as (r & st' & ok & -> & (Hs & _)).
  by apply steps_nonempty.
Qed.

Lemma disconnect_keeps_rooms_nonempty websocket user_id st :
  rooms_nonempty st → rooms_nonempty (SyncService.disconnect websocket user_id st).2.
Proof. apply steps_nonempty, rtc_once, step_leave. Qed.

Lemma broadcast_keeps_rooms_nonempty W user_id message sender schedule st :
  rooms_nonempty st →
  rooms_nonempty
    (SyncService.broadcast_to_user_interleaved W user_id message sender schedule st).2.
Proof.
  destruct (broadcast_interleaved_run W user_id message sender schedule st)
    as (st' & evs & -> & (Hs & _) & _).
  by apply steps_nonempty.
Qed.

Lemma occurrences_NoDup c room : NoDup room → (occurrences c room ≤ 1)%nat.
Proof.
  induction 1 as [|c' room Hnot _ IH]; [unfold occurrences; simpl; lia|].
  rewrite occurrences_cons. destruct (Nat.eqb_spec c' c) as [->|_]; [|done].
  apply occurrences_zero in Hnot. lia.
Qed.

(** C7.  In every state the service can be in: after [disconnect] the
    connection is not in the user's room, and the room's other
    connections all are; a later broadcast for that user, whatever
    other tasks do during its awaits, does not call [send_json] on a
    connection that was removed, nor on one that was not there unless
    it joins during that broadcast, and a later broadcast that nobody
    disturbs addresses exactly the connections that remain (but the
    sender); if the connection was the only one of the user, [rooms]
    has no entry for the user.  Every key of [rooms] holds a non-empty
    list, and [connect], [disconnect] and [broadcast_to_user] keep it
    so. *)
Theorem disconnect_removes_connection
    (W : World) (st : State) (websocket : Conn) (user_id : string) :
  reachable W st →
  ∃ st',
    SyncService.disconnect websocket user_id st = (Returned tt, st')
    ∧ (websocket ∉ default [] (rooms st' !! user_id))
    ∧ (∀ c, c ∈ default [] (rooms st' !! user_id)
            ↔ c ∈ default [] (rooms st !! user_id) ∧ c ≠ websocket)
    ∧ (∀ message sender schedule,
         websocket ∈ default [] (rooms st !! user_id)
         ∨ ¬ joining websocket user_id schedule →
         websocket ∉ attempts
           (emitted st'
              (SyncService.broadcast_to_user_interleaved W user_id message sender
                 schedule st').2))
    ∧ (∀ message sender,
         attempts
           (emitted st' (SyncService.broadcast_to_user W user_id message sender st').2)
         = others sender (default [] (rooms st' !! user_id)))
    ∧ (rooms st !! user_id = Some [websocket] → rooms st' !! user_id = None)
    ∧ rooms_nonempty st'
    ∧ (∀ st0 c u message sender schedule,
         rooms_nonempty st0 →
         rooms_nonempty (SyncService.connect W c u st0).2
         ∧ rooms_nonempty (SyncService.disconnect c u st0).2
         ∧ rooms_nonempty
             (SyncService.broadcast_to_user_interleaved W u message sender
                schedule st0).2).
Proof.
  intros Hreach.
  destruct (reachable_well_formed W st Hreach) as [Hwf Htracked].
  destruct (disconnect_run websocket user_id st)
    as (st' & Hrun & Htrace & _ & _ & Hroom & Hhere & Hother).
  assert (Hnodup : NoDup (default [] (rooms st !! user_id))).
  { destruct (rooms st !! user_id) as [room|] eqn:E; simpl; [|constructor].
    by destruct (Hwf _ _ E). }
  assert (Hgone : websocket ∉ default [] (rooms st' !! user_id)).
  { apply occurrences_zero. rewrite Hroom, occurrences_list_remove.
    pose proof (occurrences_NoDup websocket _ Hnodup). lia. }
  assert (Hnonempty : rooms_nonempty st').
  { replace st' with (SyncService.disconnect websocket user_id st).2
      by (by rewrite Hrun).
    apply disconnect_keeps_rooms_nonempty. intros u room Hu. by destruct (Hwf _ _ Hu). }
  exists st'. split; [done|]. split; [done|].
  split; [|split; [|split; [|split; [|split; [done|]]]]].
  - intros c. rewrite Hroom. split.
    + intros Hin. split; [eapply elem_of_sublist; [exact Hin|apply list_remove_sublist]|].
      intros ->. by rewrite Hroom in Hgone.
    + intros [Hin Hne].
      destruct (decide (c ∈ SyncService.list_remove websocket
                              (default [] (rooms st !! user_id)))) as [|Hnot]; [done|].
      exfalso. apply occurrences_zero in Hnot.
      rewrite occurrences_list_remove_ne in Hnot by congruence.
      by apply occurrences_zero in Hnot.
  - intros message sender schedule Hwas Hsent.
    destruct (broadcast_interleaved_run W user_id message sender schedule st')
      as (st2 & evs & Hb & (_ & Htr2 & _) & _ & Hatt).
    rewrite Hb in Hsent. cbn [snd] in Hsent.
    rewrite (emitted_trace _ _ _ Htr2) in Hsent.
    destruct (Hatt websocket Hsent) as [_ [Hin|[Hjoin Hnew]]]; [done|].
    destruct Hwas as [Hwas|Hnot]; [|done].
    rewrite Htrace in Hnew.
    destruct (rooms st !! user_id) as [room|] eqn:E; simpl in Hwas;
      [|by apply elem_of_nil in Hwas].
    by rewrite (Htracked user_id room websocket E Hwas) in Hnew.
  - intros message sender. rewrite broadcast_to_user_run. cbn [snd].
    by rewrite emitted_append, attempts_fan_out.
  - intros Hlast. rewrite Hlast in Hroom. simpl in Hroom.
    rewrite Nat.eqb_refl in Hroom.
    destruct (rooms st' !! user_id) as [room'|]; [|done].
    simpl in Hroom. by subst room'.
  - intros st0 c u message sender schedule Hinv. split; [|split].
    + by apply connect_keeps_rooms_nonempty.
    + by apply disconnect_keeps_rooms_nonempty.
    + by apply broadcast_keeps_rooms_nonempty.
Qed.

Lemma disconnect_removes_connection_witness :
  ∃ st',
    SyncService.disconnect 1 "u" two_joined = (Returned tt, st')
    ∧ (1 ∉ default [] (rooms st' !! "u"))
    ∧ (∀ c, c ∈ default [] (rooms st' !! "u")
            ↔ c ∈ default [] (rooms two_joined !! "u") ∧ c ≠ 1)
    ∧ (∀ message sender schedule,
         1 ∈ default [] (rooms two_joined !! "u") ∨ ¬ joining 1 "u" schedule →
         1 ∉ attempts
           (emitted st'
              (SyncService.broadcast_to_user_interleaved reliable "u" message sender
                 schedule st').2))
    ∧ (∀ message sender,
         attempts
           (emitted st' (SyncService.broadcast_to_user reliable "u" message sender st').2)
         = others sender (default [] (rooms st' !! "u")))
    ∧ (rooms two_joined !! "u" = Some [1] → rooms st' !! "u" = None)
    ∧ rooms_nonempty st'
    ∧ (∀ st0 c u message sender schedule,
         rooms_nonempty st0 →
         rooms_nonempty (SyncService.connect reliable c u st0).2
         ∧ rooms_nonempty (SyncService.disconnect c u st0).2
         ∧ rooms_nonempty
             (SyncService.broadcast_to_user_interleaved reliable u message sender
                schedule st0).2).
Proof.
  apply (disconnect_removes_connection reliable two_joined 1 "u").
  do 2 apply reachable_perform. apply reachable_initial.
Defined.

(** C9.  In every state the service can be in, the user's room holds
    every connection once.  Joining a connection that is already in the
    room leaves [rooms] as it is: its [accept()] was completed when it
    joined, so this one raises before the [append]; a join that goes
    through adds, at the end of the room, a connection that was not in
    it.  And a broadcast, whatever other tasks do during its awaits,
    calls [send_json] at most once on any connection. *)
Theorem room_has_set_semantics
    (W : World) (st : State) (websocket : Conn) (user_id : string) :
  reachable W st →
  NoDup (default [] (rooms st !! user_id))
  ∧ (websocket ∈ default [] (rooms st !! user_id) →
     ∃ st',
       SyncService.connect W websocket user_id st = (Raised (AcceptError websocket), st')
       ∧ rooms st' = rooms st)
  ∧ (∀ st',
       SyncService.connect W websocket user_id st = (Returned tt, st') →
       (websocket ∉ default [] (rooms st !! user_id))
       ∧ default [] (rooms st' !! user_id)
         = default [] (rooms st !! user_id) ++ [websocket])
  ∧ (∀ message sender schedule,
       NoDup (attempts
                (emitted st
                   (SyncService.broadcast_to_user_interleaved W user_id message sender
                      schedule st).2))).
Proof.
  intros Hreach.
  destruct (reachable_well_formed W st Hreach) as [Hwf Htracked].
  split; [|split; [|split]].
  - destruct (rooms st !! user_id) as [room|] eqn:E; simpl; [|constructor].
    by destruct (Hwf _ _ E).
  - intros Hin.
    destruct (rooms st !! user_id) as [room|] eqn:E; simpl in Hin;
      [|by apply elem_of_nil in Hin].
    eexists. split; [by eapply connect_member|done].
  - intros st' Hrun.
    destruct (connect_cases W websocket user_id st) as [Hc|(_ & Hout & _ & Hc)];
      rewrite Hc in Hrun; [done|]. injection Hrun as <-. split.
    + destruct (rooms st !! user_id) as [room|] eqn:E; simpl; [|apply not_elem_of_nil].
      by apply (proj1 (in_a_room_false st websocket) Hout user_id room).
    + simpl. by rewrite lookup_insert_eq.
  - intros message sender schedule. by apply broadcast_interleaved_once.
Qed.

Lemma room_has_set_semantics_witness :
  NoDup (default [] (rooms two_joined !! "u"))
  ∧ (1 ∈ default [] (rooms two_joined !! "u") →
     ∃ st',
       SyncService.connect reliable 1 "u" two_joined = (Raised (AcceptError 1), st')
       ∧ rooms st' = rooms two_joined)
  ∧ (∀ st',
       SyncService.connect reliable 1 "u" two_joined = (Returned tt, st') →
       (1 ∉ default [] (rooms two_joined !! "u"))
       ∧ default [] (rooms st' !! "u") = default [] (rooms two_joined !! "u") ++ [1])
  ∧ (∀ message sender schedule,
       NoDup (attempts
                (emitted two_joined
                   (SyncService.broadcast_to_user_interleaved reliable "u" message
                      sender schedule two_joined).2))).
Proof.
  apply (room_has_set_semantics reliable two_joined 1 "u").
  do 2 apply reachable_perform. apply reachable_initial.
Defined.

(** ** Send failures *)

(** C8.  Connections 1, 2 and 3 of "u" are open and every [send_json]
    on connection 1 raises.  The exception is caught: the broadcast
    returns normally, and with nobody leaving it goes on to connections
    2 and 3; the rejection of an update, sent to connection 1, fails
    without an exception reaching the caller, which gets [False].  But
    when the endpoint of connection 1 removes it from the room while
    the broadcast is suspended in the failing send, the loop goes on
    over the shortened list and connection 2, which is not the failing
    one, does not get the message.  It is the same in the state the
    service is in after the three sockets have connected. *)
Theorem failed_send_and_leave_skip_a_connection :
  rooms three_listeners !! "u" = Some [1; 2; 3]
  ∧ (∃ st',
       SyncService.broadcast_to_user_interleaved (flaky 1) "u" JNull None
         [[SyncService.Leaves 1 "u"]] three_listeners = (Returned tt, st')
       ∧ emitted three_listeners st' = [EvSendJson 1 JNull false; EvSendJson 3 JNull true]
       ∧ rooms st' !! "u" = Some [2; 3]
       ∧ delivered_to (emitted three_listeners st') = [3])
  ∧ (∃ st',
       SyncService.broadcast_to_user_interleaved (flaky 1) "u" JNull None []
         three_listeners = (Returned tt, st')
       ∧ emitted three_listeners st'
         = [EvSendJson 1 JNull false; EvSendJson 2 JNull true; EvSendJson 3 JNull true]
       ∧ delivered_to (emitted three_listeners st') = [2; 3])
  ∧ (∃ st',
       SyncService.handle_playback_update (flaky 1) "u" "D2" track_t1 (Some 1) []
         three_listeners = (Returned false, st')
       ∧ emitted three_listeners st'
         = [EvValidate "u" "D2" false;
            EvSendJson 1
              (JDict [("type", JStr "playback_controlled_elsewhere");
                      ("active_device_id", JStr "D1");
                      ("message", JStr "Playback is controlled on another device")])
              false])
  ∧ reachable (flaky 1) three_connected
  ∧ rooms three_connected !! "u" = Some [1; 2; 3]
  ∧ delivered_to
      (emitted three_connected
         (SyncService.broadcast_to_user_interleaved (flaky 1) "u" JNull None
            [[SyncService.Leaves 1 "u"]] three_connected).2)
    = [3].
Proof.
  split; [by vm_compute|].
  do 3 (split; [eexists; by vm_compute|]).
  split; [|by vm_compute].
  replace three_connected
    with (perform (flaky 1) (Registers {[ "u" := two_devices (Some "D1") ]})
            (perform (flaky 1) (Connects 3 "u")
               (perform (flaky 1) (Connects 2 "u")
                  (perform (flaky 1) (Connects 1 "u") initial))))
    by (by vm_compute).
  do 4 apply reachable_perform. apply reachable_initial.
Qed.

(** ** Rooms changing during a broadcast *)

(** C5.  The loop runs on the room's live list, not on a copy.  With
    connections 1, 2, 3 in the room, connection 1 leaving while the
    message is being sent to it shifts 2 into the slot the iterator has
    already passed: the broadcast addresses 1 and 3 and never 2, which
    was in the room before, during and after the broadcast; a loop over
    a snapshot addresses 1, 2 and 3 under the same interference.  A
    connection joining during the broadcast is addressed although it was
    not in the room when the broadcast started. *)
Theorem interleaved_broadcast_skips_a_connection :
  rooms three_listeners !! "u" = Some [1; 2; 3]
  ∧ (∃ st',
       SyncService.broadcast_to_user_interleaved reliable "u" JNull None
         [[SyncService.Leaves 1 "u"]] three_listeners = (Returned tt, st')
       ∧ rooms st' !! "u" = Some [2; 3]
       ∧ attempts (emitted three_listeners st') = [1; 3])
  ∧ (∃ st',
       broadcast_over_snapshot reliable "u" JNull None
         [[SyncService.Leaves 1 "u"]] three_listeners = (Returned tt, st')
       ∧ rooms st' !! "u" = Some [2; 3]
       ∧ attempts (emitted three_listeners st') = [1; 2; 3])
  ∧ (∃ st',
       SyncService.broadcast_to_user_interleaved reliable "u" JNull None
         [[SyncService.Joins 4 "u"]] three_listeners = (Returned tt, st')
       ∧ attempts (emitted three_listeners st') = [1; 2; 3; 4]).
Proof. split; [by vm_compute|]. repeat split; eexists; by vm_compute. Qed.

(** ** The relay of the WebSocket endpoint *)

(** The receive loop only ever sends: it consults no arbitration and
    writes nothing to the store, whatever arrives and whatever other
    tasks do meanwhile. *)
Lemma receive_loop_only_relays W websocket user_id incoming st :
  ∃ evs,
    trace (Main.receive_loop W websocket user_id incoming st).2 = trace st ++ evs
    ∧ validations evs = []
    ∧ store_writes evs = [].
Proof.
  destruct (receive_loop_moved W websocket user_id incoming st)
    as (r & st' & evs & -> & (_ & Htr & _) & _ & _ & Hval & Hwr).
  by exists evs.
Qed.

(** C1.  D1 is the active device of "u" and connection 1 is open.  A
    second socket connects and sends a [playback_state_update] claiming
    device D2, for which arbitration answers no.  The endpoint relays the
    message to connection 1 as it came, and no arbitration check appears
    in the trace. *)
Theorem websocket_relay_skips_arbitration :
  message_type update_from_D2 = Some (JStr "playback_state_update")
  ∧ (DeviceManager.validate_device_control "u" "D2" one_listener).1 = Returned false
  ∧ ∃ st',
      Main.websocket_endpoint reliable 2 "u" [Main.Frame update_from_D2] one_listener
        = (Returned tt, st')
      ∧ emitted one_listener st'
        = [EvAccept 2 true; EvSendJson 1 update_from_D2 true]
      ∧ validations (emitted one_listener st') = []
      ∧ delivered_to (emitted one_listener st') = [1].
Proof. split; [done|]. split; [by vm_compute|]. eexists. by vm_compute. Qed.

(** * Further properties of the code *)

(** ** The life of a connection *)

Lemma list_remove_appended c room :
  c ∉ room → SyncService.list_remove c (room ++ [c]) = room.
Proof.
  induction room as [|c' room IH]; simpl.
  - by rewrite Nat.eqb_refl.
  - intros [Hne Hnot]%not_elem_of_cons.
    destruct (Nat.eqb_spec c' c) as [->|_]; [done|]. by rewrite IH.
Qed.

(** [disconnect] of a socket that is not in the room changes nothing. *)
Lemma disconnect_absent websocket user_id st :
  websocket ∉ default [] (rooms st !! user_id) →
  rooms st !! user_id ≠ Some [] →
  rooms (SyncService.disconnect websocket user_id st).2 = rooms st.
Proof.
  intros Hnew Hnonempty. unfold SyncService.disconnect.
  destruct (rooms st !! user_id) as [[|c room]|] eqn:E; simpl in *; [done| |done].
  rewrite bool_decide_eq_false_2 by done. simpl. by apply insert_id.
Qed.

(** Leaving right after joining: the rooms are what they were. *)
Lemma leave_after_join websocket user_id st :
  websocket ∉ default [] (rooms st !! user_id) →
  rooms st !! user_id ≠ Some [] →
  rooms (SyncService.disconnect websocket user_id
           (set_rooms
              (<[user_id := default [] (rooms st !! user_id) ++ [websocket]]> (rooms st))
              (log (EvAccept websocket true) st))).2
  = rooms st.
Proof.
  intros Hnew Hnonempty.
  unfold SyncService.disconnect; simpl. rewrite lookup_insert_eq.
  assert (Hin : websocket ∈ default [] (rooms st !! user_id) ++ [websocket]).
  { apply elem_of_app; right. apply list_elem_of_singleton. done. }
  rewrite bool_decide_eq_true_2 by done.
  rewrite list_remove_appended by done.
  destruct (rooms st !! user_id) as [[|c room]|] eqn:E; simpl.
  - done.
  - rewrite insert_insert_eq. by apply insert_id.
  - rewrite delete_insert_eq. by apply delete_id.
Qed.

(** X1.  When the socket cannot be accepted, the exception leaves
    [connect] and, [connect] standing outside the [try], the endpoint as
    well: the socket is not put into any room, nothing is relayed and
    [disconnect] is not called. *)
Theorem refused_socket_never_joins
    (W : World) (st : State) (websocket : Conn) (user_id : string)
    (incoming : list Main.Received) :
  accept_raises W (trace st) websocket = true →
  Main.websocket_endpoint W websocket user_id incoming st
  = (Raised (AcceptError websocket), log (EvAccept websocket false) st)
  ∧ rooms (Main.websocket_endpoint W websocket user_id incoming st).2 = rooms st
  ∧ attempts (emitted st (Main.websocket_endpoint W websocket user_id incoming st).2)
    = [].
Proof.
  intros Hko.
  assert (Hrun : Main.websocket_endpoint W websocket user_id incoming st
                 = (Raised (AcceptError websocket), log (EvAccept websocket false) st)).
  { unfold Main.websocket_endpoint, bind. rewrite connect_refused; [done|].
    rewrite Hko. apply orb_true_r. }
  rewrite Hrun. split; [done|]. split; [done|].
  cbn [snd]. change (log (EvAccept websocket false) st)
    with (append_events [EvAccept websocket false] st).
  by rewrite emitted_append.
Qed.

Lemma refused_socket_never_joins_witness :
  Main.websocket_endpoint refusing 3 "u" [Main.Frame JNull] scenario
  = (Raised (AcceptError 3), log (EvAccept 3 false) scenario)
  ∧ rooms (Main.websocket_endpoint refusing 3 "u" [Main.Frame JNull] scenario).2
    = rooms scenario
  ∧ attempts
      (emitted scenario
         (Main.websocket_endpoint refusing 3 "u" [Main.Frame JNull] scenario).2)
    = [].
Proof.
  apply (refused_socket_never_joins refusing scenario 3 "u" [Main.Frame JNull]).
  reflexivity.
Defined.

(** X2.  [connect] followed by [disconnect] of the same socket puts
    [rooms] back exactly as it was, also when the room had to be created
    for the socket and is deleted again, provided the socket was not in
    the room before and the user had no empty room. *)
Theorem connect_then_disconnect_restores_rooms
    (W : World) (st : State) (websocket : Conn) (user_id : string) :
  accept_raises W (trace st) websocket = false →
  websocket ∉ default [] (rooms st !! user_id) →
  rooms st !! user_id ≠ Some [] →
  rooms (SyncService.disconnect websocket user_id
           (SyncService.connect W websocket user_id st).2).2
  = rooms st.
Proof.
  intros Hok Hnew Hnonempty.
  destruct (connect_cases W websocket user_id st) as [->|(_ & _ & _ & ->)]; cbn [snd].
  - by apply (disconnect_absent websocket user_id (log (EvAccept websocket false) st)).
  - by apply leave_after_join.
Qed.

Lemma connect_then_disconnect_restores_rooms_witness :
  rooms (SyncService.disconnect 3 "nobody"
           (SyncService.connect reliable 3 "nobody" scenario).2).2
  = rooms scenario.
Proof.
  apply (connect_then_disconnect_restores_rooms reliable scenario 3 "nobody").
  - reflexivity.
  - vm_compute. apply not_elem_of_nil.
  - vm_compute. discriminate.
Defined.

Lemma sends_to_app c evs1 evs2 : sends_to c (evs1 ++ evs2) = sends_to c evs1 ++ sends_to c evs2.
Proof. apply omap_app. Qed.

Lemma sends_to_send c c' m ok evs :
  sends_to c (EvSendJson c' m ok :: evs)
  = if Nat.eqb c' c then m :: sends_to c evs else sends_to c evs.
Proof. unfold sends_to; simpl. by destruct (Nat.eqb c' c). Qed.

(** What the events of one broadcast send to one connection: the
    message, as often as the connection was addressed. *)
Lemma sends_to_events c message evs :
  Forall (λ e, (∃ c' ok, e = EvSendJson c' message ok) ∨ is_accept e) evs →
  sends_to c evs = replicate (occurrences c (attempts evs)) message.
Proof.
  induction 1 as [|e evs He _ IH]; [done|].
  destruct He as [(c' & ok & ->)|He].
  - rewrite sends_to_send.
    change (attempts (EvSendJson c' message ok :: evs)) with (c' :: attempts evs).
    rewrite occurrences_cons, IH. by destruct (Nat.eqb c' c).
  - by destruct e.
Qed.

(** The socket stays where [connect] put it, or leaves: no task can
    put it anywhere again. *)
Lemma step_only_here websocket user_id st st' :
  step st st' →
  SyncService.accepted_in (trace st) websocket = true →
  only_here websocket user_id st → only_here websocket user_id st'.
Proof.
  destruct 1 as [st e _|st s|st g|st c u Hnew _|st c u]; intros Hacc Hinv;
    try exact Hinv.
  - assert (Hne : c ≠ websocket) by (intros ->; congruence).
    intros v room; simpl. destruct (decide (u = v)) as [->|Huv].
    + rewrite lookup_insert_eq. intros [= <-] [Hin|Hin]%elem_of_app.
      * destruct (rooms st !! v) as [old|] eqn:Hold; simpl in *;
          [|by apply elem_of_nil in Hin].
        destruct (Hinv v old Hold Hin) as [-> Honce]. split; [done|].
        rewrite occurrences_app, occurrences_cons.
        destruct (Nat.eqb_spec c websocket) as [?|_]; [done|].
        unfold occurrences at 2; simpl. lia.
      * apply list_elem_of_singleton in Hin. congruence.
    + rewrite lookup_insert_ne by done. apply Hinv.
  - destruct (disconnect_run c u st)
      as (st' & -> & _ & _ & _ & Hroom & _ & Hother); simpl.
    intros v room Hv Hin. destruct (decide (v = u)) as [->|Hne].
    + rewrite Hv in Hroom; simpl in Hroom. subst room.
      assert (Hold : websocket ∈ default [] (rooms st !! u))
        by (eapply elem_of_sublist; [exact Hin | apply list_remove_sublist]).
      destruct (rooms st !! u) as [old|] eqn:Eold; simpl in *;
        [|by apply elem_of_nil in Hold].
      destruct (Hinv u old Eold Hold) as [-> Honce]. split; [done|].
      destruct (decide (c = websocket)) as [->|Hcw].
      * rewrite occurrences_list_remove. lia.
      * by rewrite occurrences_list_remove_ne.
    + rewrite Hother in Hv by done. by apply (Hinv v room).
Qed.

Lemma steps_only_here websocket user_id st st' :
  rtc step st st' →
  SyncService.accepted_in (trace st) websocket = true →
  only_here websocket user_id st → only_here websocket user_id st'.
Proof.
  induction 1 as [|st st1 st' Hstep Hsteps IH]; [done|]. intros Hacc Hinv.
  apply IH.
  - eapply steps_accepted; [by apply rtc_once | done].
  - by eapply step_only_here.
Qed.

(** X3.  A socket that has not been accepted before, and is accepted,
    goes through the endpoint leaving nothing behind, whatever other
    tasks do at the awaits of the endpoint: the endpoint returns
    normally and touches neither registry nor store; as long as it
    lives the socket is in no room but its user's, and there once at
    most; and once a receive has raised, be it [WebSocketDisconnect] or
    anything else, the socket is in no room at all. *)
Theorem closed_socket_is_in_no_room
    (W : World) (st : State) (websocket : Conn) (user_id : string)
    (incoming : list Main.Received) :
  SyncService.accepted_in (trace st) websocket = false →
  SyncService.in_a_room st websocket = false →
  accept_raises W (trace st) websocket = false →
  ∃ st',
    Main.websocket_endpoint W websocket user_id incoming st = (Returned tt, st')
    ∧ registry st' = registry st
    ∧ store st' = store st
    ∧ SyncService.accepted_in (trace st') websocket = true
    ∧ only_here websocket user_id st'
    ∧ (closes incoming = true → SyncService.in_a_room st' websocket = false).
Proof.
  intros Hnew Hout Hok.
  set (st1 := set_rooms
                (<[user_id := default [] (rooms st !! user_id) ++ [websocket]]> (rooms st))
                (log (EvAccept websocket true) st)).
  assert (Hacc1 : SyncService.accepted_in (trace st1) websocket = true).
  { simpl. rewrite accepted_in_app. simpl. by rewrite Nat.eqb_refl, orb_true_r. }
  assert (Hinv1 : only_here websocket user_id st1).
  { intros v room; simpl. destruct (decide (user_id = v)) as [<-|Hne].
    - rewrite lookup_insert_eq. intros [= <-] _. split; [done|].
      rewrite occurrences_app, occurrences_cons, Nat.eqb_refl.
      unfold occurrences at 2; simpl.
      assert (Hzero : occurrences websocket (default [] (rooms st !! user_id)) = 0).
      { apply occurrences_zero.
        destruct (rooms st !! user_id) as [old|] eqn:Hold; simpl;
          [|apply not_elem_of_nil].
        by apply (proj1 (in_a_room_false st websocket) Hout user_id old). }
      lia.
    - rewrite lookup_insert_ne by done. intros Hv Hin.
      by destruct (proj1 (in_a_room_false st websocket) Hout v room Hv). }
  destruct (receive_loop_moved W websocket user_id incoming st1)
    as (r & st2 & evs & Hloop & (Hsteps & Htr2 & Hreg2 & Hstore2) & Hopen & Hclosed & _).
  assert (Hacc2 : SyncService.accepted_in (trace st2) websocket = true)
    by (by eapply steps_accepted).
  assert (Hinv2 : only_here websocket user_id st2) by (by eapply steps_only_here).
  unfold Main.websocket_endpoint, bind, try_except.
  rewrite (connect_run W websocket user_id st Hnew Hout Hok). fold st1. rewrite Hloop.
  destruct (closes incoming) eqn:Hc.
  - destruct (Hclosed eq_refl) as [e ->].
    destruct (disconnect_run websocket user_id st2)
      as (st' & Hdis & Htr & Hreg & Hstore & Hroom & _ & Hother).
    exists st'. split; [by destruct e|].
    split; [by rewrite Hreg, Hreg2|]. split; [by rewrite Hstore, Hstore2|].
    split; [by rewrite Htr|].
    assert (Hinv' : only_here websocket user_id st').
    { replace st' with (SyncService.disconnect websocket user_id st2).2
        by (by rewrite Hdis).
      eapply step_only_here; [apply step_leave | done | done]. }
    split; [done|]. intros _. apply in_a_room_false. intros v room Hv Hin.
    destruct (Hinv' v room Hv Hin) as [-> _].
    rewrite Hv in Hroom; simpl in Hroom. subst room.
    apply occurrences_zero in Hin; [done|].
    rewrite occurrences_list_remove.
    destruct (rooms st2 !! user_id) as [old|] eqn:Hold; simpl; [|done].
    destruct (decide (websocket ∈ old)) as [Hwas|Hnot].
    + destruct (Hinv2 user_id old Hold Hwas) as [_ Honce]. lia.
    + apply occurrences_zero in Hnot. lia.
  - rewrite (Hopen eq_refl). exists st2. split; [done|].
    split; [done|]. split; [done|]. split; [done|]. by split.
Qed.

Lemma closed_socket_is_in_no_room_witness :
  ∃ st',
    Main.websocket_endpoint reliable 3 "u"
      [Main.Frame JNull;
       Main.Meanwhile [SyncService.Joins 4 "u"; SyncService.Leaves 1 "u"];
       Main.Relay (JNum 1) [[SyncService.Leaves 2 "u"; SyncService.Joins 3 "v"]];
       Main.Closed] scenario = (Returned tt, st')
    ∧ registry st' = registry scenario
    ∧ store st' = store scenario
    ∧ SyncService.accepted_in (trace st') 3 = true
    ∧ only_here 3 "u" st'
    ∧ (closes [Main.Frame JNull;
               Main.Meanwhile [SyncService.Joins 4 "u"; SyncService.Leaves 1 "u"];
               Main.Relay (JNum 1) [[SyncService.Leaves 2 "u"; SyncService.Joins 3 "v"]];
               Main.Closed] = true →
       SyncService.in_a_room st' 3 = false).
Proof.
  apply (closed_socket_is_in_no_room reliable scenario 3 "u"); reflexivity.
Defined.

Lemma sends_to_once c message evs :
  Forall (λ e, (∃ c' ok, e = EvSendJson c' message ok) ∨ is_accept e) evs →
  NoDup (attempts evs) →
  sends_to c evs = (if bool_decide (c ∈ attempts evs) then [message] else []).
Proof.
  intros Hevs Hnodup. rewrite (sends_to_events c message evs Hevs).
  pose proof (occurrences_NoDup c _ Hnodup) as Honce.
  case_bool_decide as Hin.
  - destruct (occurrences c (attempts evs)) as [|[|n]] eqn:E; [|done|lia].
    by apply occurrences_zero in E.
  - apply occurrences_zero in Hin. by rewrite Hin.
Qed.

(** One relayed frame: the socket it came from gets nothing, everybody
    else gets it once at most, and those in the room get it if nobody
    leaves meanwhile. *)
Lemma relay_run W user_id data websocket schedule st :
  rooms_well_formed st → tracked st →
  ∃ st' evs,
    SyncService.broadcast_to_user_interleaved W user_id data (Some websocket)
      schedule st = (Returned tt, st')
    ∧ moved st st' evs
    ∧ sends_to websocket evs = []
    ∧ (∀ c, sends_to c evs `sublist_of` [data])
    ∧ (Forall (Forall is_join) schedule →
       ∀ c, c ∈ default [] (rooms st !! user_id) →
            c ∈ default [] (rooms st' !! user_id)
            ∧ (c ≠ websocket → sends_to c evs = [data])).
Proof.
  intros Hwf Htracked.
  destruct (broadcast_interleaved_run W user_id data (Some websocket) schedule st)
    as (st' & evs & Hrun & Hmoved & Hevs%outcomes_are_sends & Hatt).
  pose proof (broadcast_interleaved_once W user_id data (Some websocket) schedule st
                Hwf Htracked) as Hnodup.
  rewrite Hrun in Hnodup. cbn [snd] in Hnodup.
  destruct Hmoved as (Hsteps & Htr & Hreg & Hstore).
  rewrite (emitted_trace _ _ _ Htr) in Hnodup.
  exists st', evs. split; [done|]. split; [done|].
  assert (Hsends : ∀ c, sends_to c evs
                        = (if bool_decide (c ∈ attempts evs) then [data] else []))
    by (intros c; by apply sends_to_once).
  split; [|split].
  - rewrite Hsends. case_bool_decide as Hin; [|done].
    by destruct (Hatt websocket Hin) as [Hne _].
  - intros c. rewrite Hsends. case_bool_decide; [done | apply sublist_nil_l].
  - intros Hjoins c Hin.
    destruct (broadcast_interleaved_joins W user_id data (Some websocket) schedule st
                Hjoins) as (st2 & evs2 & late & Hrun2 & Htr2 & Hrooms & Hatt2 & _).
    rewrite Hrun in Hrun2. injection Hrun2 as <-.
    rewrite Htr in Htr2. apply app_inv_head in Htr2. subst evs2.
    split; [rewrite Hrooms; apply elem_of_app; by left|].
    intros Hne. rewrite Hsends, bool_decide_eq_true_2; [done|].
    rewrite Hatt2. apply elem_of_others. split; [apply elem_of_app; by left|].
    congruence.
Qed.

(** While the endpoint waits: tasks that only join take nobody out of
    the room. *)
Lemma meanwhile_joins W user_id during st :
  Forall is_join during →
  ∀ c, c ∈ default [] (rooms st !! user_id) →
       c ∈ default [] (rooms (SyncService.meanwhile W during st).2 !! user_id).
Proof.
  intros Hjoins. revert st.
  induction Hjoins as [|a during Ha _ IH]; intros st c Hin; [done|].
  simpl. unfold bind.
  destruct (interfere_run W a st) as (st1 & evs1 & Hrun & _). rewrite Hrun.
  apply IH. destruct a as [c' u|]; [|done]. simpl in Hrun. unfold try_except in Hrun.
  destruct (connect_cases W c' u st) as [Hc|(_ & _ & _ & Hc)];
    rewrite Hc in Hrun; injection Hrun as <-; simpl; [done|].
  destruct (decide (u = user_id)) as [->|Hne].
  - rewrite lookup_insert_eq; simpl. apply elem_of_app; by left.
  - by rewrite lookup_insert_ne.
Qed.

(** The receive loop, frame by frame. *)
Lemma receive_loop_sends W websocket user_id incoming st :
  rooms_well_formed st → tracked st →
  ∃ r st' evs,
    Main.receive_loop W websocket user_id incoming st = (r, st')
    ∧ trace st' = trace st ++ evs
    ∧ sends_to websocket evs = []
    ∧ (∀ c, sends_to c evs `sublist_of` relayed incoming)
    ∧ (joins_only incoming →
       ∀ c, c ∈ default [] (rooms st !! user_id) → c ≠ websocket →
            sends_to c evs = relayed incoming).
Proof.
  revert st. induction incoming as [|frame later IH]; intros st Hwf Htracked.
  - exists (Returned tt), st, []. rewrite app_nil_r. by repeat split.
  - destruct frame as [data schedule|during| |]; simpl.
    + unfold bind.
      destruct (relay_run W user_id data websocket schedule st Hwf Htracked)
        as (st1 & evs1 & -> & (Hsteps & Htr1 & _) & Hself1 & Hsub1 & Hall1).
      destruct (IH st1) as (r & st' & evs2 & -> & Htr2 & Hself2 & Hsub2 & Hall2).
      { by eapply steps_well_formed. }
      { by eapply steps_tracked. }
      exists r, st', (evs1 ++ evs2). split; [done|].
      split; [by rewrite Htr2, Htr1, app_assoc|].
      split; [by rewrite sends_to_app, Hself1, Hself2|]. split.
      * intros c. rewrite sends_to_app.
        change (data :: relayed later) with ([data] ++ relayed later).
        by apply sublist_app.
      * intros Hjoins c Hin Hne.
        apply Forall_cons in Hjoins as [Hnow Hlater].
        destruct (Hall1 Hnow c Hin) as [Hstays Hgets].
        rewrite sends_to_app, (Hgets Hne), (Hall2 Hlater c Hstays Hne). done.
    + unfold bind.
      destruct (meanwhile_run W during st)
        as (st1 & evs1 & Hrun & (Hsteps & Htr1 & _) & Ha1).
      pose proof (meanwhile_joins W user_id during st) as Hstay.
      rewrite Hrun in Hstay |- *. cbn [snd] in Hstay.
      destruct (IH st1) as (r & st' & evs2 & -> & Htr2 & Hself2 & Hsub2 & Hall2).
      { by eapply steps_well_formed. }
      { by eapply steps_tracked. }
      exists r, st', (evs1 ++ evs2). split; [done|].
      split; [by rewrite Htr2, Htr1, app_assoc|].
      split; [by rewrite sends_to_app, sends_to_accepts, Hself2|]. split.
      * intros c. rewrite sends_to_app, sends_to_accepts by done. apply Hsub2.
      * intros Hjoins c Hin Hne.
        apply Forall_cons in Hjoins as [Hnow Hlater].
        rewrite sends_to_app, sends_to_accepts by done.
        apply Hall2; [done | by apply Hstay | done].
    + exists (Raised WebSocketDisconnect), st, []. rewrite app_nil_r. by repeat split.
    + exists (Raised ReceiveError), st, []. rewrite app_nil_r. by repeat split.
Qed.

(** X4.  The endpoint relays in order and without echo, whatever other
    tasks do at its awaits: in every state the service can be in, what
    a connection is sent during the life of the endpoint is a selection,
    in the order of arrival, of the frames that arrived before the
    first failing receive, no frame twice, and the socket the frames
    came from is sent nothing.  If the socket was accepted and no other
    task calls [disconnect] meanwhile, every connection that was in the
    room when the socket connected is sent every one of these frames. *)
Theorem endpoint_relays_frames_in_order
    (W : World) (st : State) (websocket : Conn) (user_id : string)
    (incoming : list Main.Received) :
  reachable W st →
  ∃ r st',
    Main.websocket_endpoint W websocket user_id incoming st = (r, st')
    ∧ sends_to websocket (emitted st st') = []
    ∧ (∀ c, sends_to c (emitted st st') `sublist_of` relayed incoming)
    ∧ (r = Returned tt → joins_only incoming →
       ∀ c, c ∈ default [] (rooms st !! user_id) →
            sends_to c (emitted st st') = relayed incoming).
Proof.
  intros Hreach.
  destruct (reachable_well_formed W st Hreach) as [Hwf Htracked].
  unfold Main.websocket_endpoint, bind.
  destruct (connect_cases W websocket user_id st) as [->|(Hnew & Hout & _ & ->)].
  - eexists _, _. split; [done|].
    rewrite (emitted_trace st _ [EvAccept websocket false]) by done.
    split; [done|]. split; [intros c; apply sublist_nil_l | done].
  - set (st1 := set_rooms
                  (<[user_id := default [] (rooms st !! user_id) ++ [websocket]]>
                     (rooms st))
                  (log (EvAccept websocket true) st)).
    assert (Hstep : rtc step st st1) by (by apply rtc_once, step_join).
    destruct (receive_loop_sends W websocket user_id incoming st1)
      as (r & st2 & evs & Hloop & Htr2 & Hself & Hsub & Hall).
    { by eapply steps_well_formed. }
    { by eapply steps_tracked. }
    assert (Hend : ∃ st',
              try_except (Main.receive_loop W websocket user_id incoming)
                (λ e, match e with
                      | WebSocketDisconnect => SyncService.disconnect websocket user_id
                      | _ => SyncService.disconnect websocket user_id
                      end) st1 = (Returned tt, st')
              ∧ trace st' = trace st ++ EvAccept websocket true :: evs).
    { unfold try_except. rewrite Hloop.
      assert (Htr : trace st2 = trace st ++ EvAccept websocket true :: evs)
        by (rewrite Htr2; simpl; by rewrite <- app_assoc).
      destruct r as [[]|e]; [by exists st2|].
      destruct (disconnect_run websocket user_id st2) as (st' & Hdis & Htr' & _).
      exists st'. split; [by destruct e | congruence]. }
    destruct Hend as (st' & -> & Htr).
    exists (Returned tt), st'. split; [done|].
    rewrite (emitted_trace _ _ _ Htr).
    change (sends_to websocket (EvAccept websocket true :: evs))
      with (sends_to websocket evs).
    split; [done|]. split; [exact Hsub|].
    intros _ Hjoins c Hin.
    change (sends_to c (EvAccept websocket true :: evs)) with (sends_to c evs).
    apply Hall; [done| |].
    + unfold st1; simpl. rewrite lookup_insert_eq; simpl. apply elem_of_app; by left.
    + intros ->.
      destruct (rooms st !! user_id) as [room|] eqn:Hroom; simpl in Hin;
        [|by apply elem_of_nil in Hin].
      by apply (proj1 (in_a_room_false st websocket) Hout user_id room).
Qed.

Lemma endpoint_relays_frames_in_order_witness :
  ∃ r st',
    Main.websocket_endpoint reliable 3 "u"
      [Main.Frame (JNum 1);
       Main.Meanwhile [SyncService.Joins 4 "u"];
       Main.Relay (JNum 2) [[SyncService.Joins 5 "u"]];
       Main.Closed; Main.Frame (JNum 3)] two_joined = (r, st')
    ∧ sends_to 3 (emitted two_joined st') = []
    ∧ (∀ c, sends_to c (emitted two_joined st')
            `sublist_of` relayed [Main.Frame (JNum 1);
                                  Main.Meanwhile [SyncService.Joins 4 "u"];
                                  Main.Relay (JNum 2) [[SyncService.Joins 5 "u"]];
                                  Main.Closed; Main.Frame (JNum 3)])
    ∧ (r = Returned tt →
       joins_only [Main.Frame (JNum 1);
                   Main.Meanwhile [SyncService.Joins 4 "u"];
                   Main.Relay (JNum 2) [[SyncService.Joins 5 "u"]];
                   Main.Closed; Main.Frame (JNum 3)] →
       ∀ c, c ∈ default [] (rooms two_joined !! "u") →
            sends_to c (emitted two_joined st')
            = relayed [Main.Frame (JNum 1);
                       Main.Meanwhile [SyncService.Joins 4 "u"];
                       Main.Relay (JNum 2) [[SyncService.Joins 5 "u"]];
                       Main.Closed; Main.Frame (JNum 3)]).
Proof.
  apply (endpoint_relays_frames_in_order reliable two_joined 3 "u").
  do 2 apply reachable_perform. apply reachable_initial.
Defined.

(** ** The broadcast, in full *)

(** What a broadcast does, with what it does when no other task calls
    [disconnect] during its awaits. *)
Lemma broadcast_interleaved_full W user_id message sender schedule st :
  ∃ st' evs,
    SyncService.broadcast_to_user_interleaved W user_id message sender schedule st
      = (Returned tt, st')
    ∧ moved st st' evs
    ∧ Forall (λ e, (∃ c tr, e = EvSendJson c message (negb (send_raises W tr c message)))
                   ∨ is_accept e) evs
    ∧ (∀ c, c ∈ attempts evs →
         sender ≠ Some c
         ∧ (c ∈ default [] (rooms st !! user_id) ∨ joining c user_id schedule))
    ∧ (Forall (Forall is_join) schedule →
       ∃ late,
         default [] (rooms st' !! user_id) = default [] (rooms st !! user_id) ++ late
         ∧ attempts evs = others sender (default [] (rooms st !! user_id) ++ late)
         ∧ Forall (λ c, joining c user_id schedule) late).
Proof.
  destruct (broadcast_interleaved_run W user_id message sender schedule st)
    as (st' & evs & Hrun & Hmoved & Hevs & Hatt).
  exists st', evs. split; [done|]. split; [done|]. split; [done|]. split.
  - intros c Hc. destruct (Hatt c Hc) as [Hne [Hin|[Hj _]]]; (split; [done|]);
      [by left | by right].
  - intros Hjoins.
    destruct (broadcast_interleaved_joins W user_id message sender schedule st Hjoins)
      as (st2 & evs2 & late & Hrun2 & Htr2 & Hrooms & Hatt2 & Hlate).
    rewrite Hrun in Hrun2. injection Hrun2 as <-.
    destruct Hmoved as (_ & Htr & _). rewrite Htr in Htr2.
    apply app_inv_head in Htr2. subst evs2. by exists late.
Qed.

(** A connection whose own [send_json] never raises has the message
    once it has been addressed. *)
Lemma delivered_of_outcomes W message c evs :
  Forall (λ e, (∃ c' tr, e = EvSendJson c' message (negb (send_raises W tr c' message)))
               ∨ is_accept e) evs →
  (∀ tr, send_raises W tr c message = false) →
  c ∈ attempts evs → c ∈ delivered_to evs.
Proof.
  intros Hevs Hok. induction Hevs as [|e evs He _ IH]; [done|].
  destruct He as [(c' & tr & ->)|He].
  - change (attempts (EvSendJson c' message (negb (send_raises W tr c' message)) :: evs))
      with (c' :: attempts evs).
    intros [->|Hin]%elem_of_cons.
    + unfold delivered_to; simpl. rewrite Hok; simpl. apply elem_of_cons; by left.
    + unfold delivered_to; simpl.
      destruct (negb (send_raises W tr c' message)); [apply elem_of_cons; right|];
        by apply IH.
  - by destruct e.
Qed.

(** ** What an update touches *)




(** X20.  A set-active request for a registered device, whatever other
    tasks do during the broadcast: the request succeeds and makes that
    device the active one; every [send_json] carries the
    [device_switched] message whose [active_device_id] is the new
    device, and goes to a connection that was in the user's room at the
    call or joined it during the broadcast.  If no other task calls
    [disconnect] meanwhile, every connection of the room as it is when
    the broadcast ends is addressed, in room order and none left out,
    so everybody who was in the room at the call. *)
Theorem device_switch_reaches_every_connection
    (W : World) (st : State) (user_id device_id : string)
    (uds : UserDeviceState) (schedule : list (list SyncService.Interference)) :
  registry st !! user_id = Some uds →
  is_Some (devices uds !! device_id) →
  let message :=
    JDict [("type", JStr "device_switched");
           ("active_device_id", JStr device_id);
           ("message", JStr ("Playback control switched to device " +:+ device_id))] in
  let room := default [] (rooms st !! user_id) in
  ∃ st',
    Main.set_active_device W user_id device_id schedule st
      = (Returned (JDict [("status", JStr "active_device_set");
                          ("device_id", JStr device_id)]), st')
    ∧ registry st' !! user_id ≫= active_device_id = Some device_id
    ∧ Forall (λ e, (∃ c ok, e = EvSendJson c message ok) ∨ is_accept e)
             (emitted st st')
    ∧ (∀ c, c ∈ attempts (emitted st st') → c ∈ room ∨ joining c user_id schedule)
    ∧ (Forall (Forall is_join) schedule →
       ∃ late,
         default [] (rooms st' !! user_id) = room ++ late
         ∧ attempts (emitted st st') = room ++ late
         ∧ ∀ c, c ∈ room → c ∈ attempts (emitted st st')).
Proof.
  intros Hreg [dev Hdev] message room.
  set (uds' := {| devices := devices uds; active_device_id := Some device_id |}).
  set (st1 := set_registry (<[user_id := uds']> (registry st)) st).
  destruct (broadcast_interleaved_full W user_id message None schedule st1)
    as (st' & evs & Hb & (_ & Htr & Hreg' & _) & Hevs%outcomes_are_sends
        & Hatt & Hjoins).
  exists st'. split.
  { unfold Main.set_active_device, bind, DeviceManager.set_active_device.
    rewrite Hreg, Hdev. fold uds' st1.
    unfold SyncService.broadcast_device_switch.
    change (SyncService.device_switched device_id) with message. by rewrite Hb. }
  rewrite (emitted_trace st st' evs) by exact Htr.
  split; [rewrite Hreg'; simpl; by rewrite lookup_insert_eq|].
  split; [exact Hevs|]. split.
  - intros c Hc. by destruct (Hatt c Hc).
  - intros Hj. destruct (Hjoins Hj) as (late & Hrooms & Hatt' & _).
    rewrite others_no_sender in Hatt'.
    exists late. split; [exact Hrooms|]. split; [exact Hatt'|].
    intros c Hin. rewrite Hatt'. apply elem_of_app; by left.
Qed.

Lemma device_switch_reaches_every_connection_witness :
  let message :=
    JDict [("type", JStr "device_switched");
           ("active_device_id", JStr "D2");
           ("message", JStr ("Playback control switched to device " +:+ "D2"))] in
  let room := default [] (rooms scenario !! "u") in
  ∃ st',
    Main.set_active_device reliable "u" "D2" [[SyncService.Joins 3 "u"]] scenario
      = (Returned (JDict [("status", JStr "active_device_set");
                          ("device_id", JStr "D2")]), st')
    ∧ registry st' !! "u" ≫= active_device_id = Some "D2"
    ∧ Forall (λ e, (∃ c ok, e = EvSendJson c message ok) ∨ is_accept e)
             (emitted scenario st')
    ∧ (∀ c, c ∈ attempts (emitted scenario st') →
            c ∈ room ∨ joining c "u" [[SyncService.Joins 3 "u"]])
    ∧ (Forall (Forall is_join) [[SyncService.Joins 3 "u"]] →
       ∃ late,
         default [] (rooms st' !! "u") = room ++ late
         ∧ attempts (emitted scenario st') = room ++ late
         ∧ ∀ c, c ∈ room → c ∈ attempts (emitted scenario st')).
Proof.
  apply (device_switch_reaches_every_connection reliable scenario "u" "D2"
           (two_devices (Some "D1")) [[SyncService.Joins 3 "u"]]).
  - reflexivity.
  - exists phone. reflexivity.
Defined.

(** X21.  Whatever the network does and whatever other tasks do, a
    broadcast returns normally, and a send that raises leaves no more
    than its mark in the trace.  If no other task calls [disconnect]
    meanwhile, [send_json] is called on every connection of the room
    but the sender whichever sends raised, and a connection whose own
    send does not raise has the message. *)
Theorem send_failures_are_contained
    (W : World) (st : State) (user_id : string) (message : Json)
    (sender : option Conn) (schedule : list (list SyncService.Interference)) :
  ∃ st',
    SyncService.broadcast_to_user_interleaved W user_id message sender schedule st
      = (Returned tt, st')
    ∧ Forall (λ e, (∃ c tr, e = EvSendJson c message (negb (send_raises W tr c message)))
                   ∨ is_accept e) (emitted st st')
    ∧ (Forall (Forall is_join) schedule →
       ∀ c, c ∈ default [] (rooms st !! user_id) → sender ≠ Some c →
            c ∈ attempts (emitted st st')
            ∧ ((∀ tr, send_raises W tr c message = false) →
               c ∈ delivered_to (emitted st st'))).
Proof.
  destruct (broadcast_interleaved_full W user_id message sender schedule st)
    as (st' & evs & Hb & (_ & Htr & _) & Hevs & _ & Hjoins).
  exists st'. split; [done|]. rewrite (emitted_trace st st' evs) by exact Htr.
  split; [done|]. intros Hj c Hin Hne.
  destruct (Hjoins Hj) as (late & _ & Hatt & _).
  assert (Hc : c ∈ attempts evs).
  { rewrite Hatt. apply elem_of_others. split; [apply elem_of_app; by left | done]. }
  split; [done|]. intros Hok. by eapply delivered_of_outcomes.
Qed.

Lemma send_failures_are_contained_example :
  ∃ st',
    SyncService.broadcast_to_user_interleaved (flaky 1) "u" JNull (Some 2)
      [[SyncService.Joins 4 "u"]] three_listeners = (Returned tt, st')
    ∧ emitted three_listeners st'
      = [EvSendJson 1 JNull false; EvAccept 4 true; EvSendJson 3 JNull true;
         EvSendJson 4 JNull true]
    ∧ delivered_to (emitted three_listeners st') = [3; 4].
Proof. eexists. by vm_compute. Qed.

(** ** What joining and leaving can do to a running broadcast *)

(** X7.  Connections that join while a broadcast is under way never make
    it miss anybody: if the other tasks running during its awaits only
    call [connect], the room is, when the broadcast ends, what it was
    at its start followed by the connections that joined the user's
    room meanwhile, and the broadcast has addressed first every
    connection that was in the room at its start (but the sender), in
    room order, and after them exactly those that joined (but the
    sender), in the order they joined. *)
Theorem joins_never_cause_a_skip
    (W : World) (st : State) (user_id : string) (message : Json)
    (sender : option Conn) (schedule : list (list SyncService.Interference)) :
  Forall (Forall is_join) schedule →
  ∃ st' late,
    SyncService.broadcast_to_user_interleaved W user_id message sender schedule st
      = (Returned tt, st')
    ∧ default [] (rooms st' !! user_id) = default [] (rooms st !! user_id) ++ late
    ∧ Forall (λ c, joining c user_id schedule) late
    ∧ attempts (emitted st st')
      = others sender (default [] (rooms st !! user_id)) ++ others sender late.
Proof.
  intros Hjoins.
  destruct (broadcast_interleaved_joins W user_id message sender schedule st Hjoins)
    as (st' & evs & late & Hrun & Htr & Hrooms & Hatt & Hlate).
  exists st', late. split; [done|]. split; [done|]. split; [done|].
  rewrite (emitted_trace _ _ _ Htr), Hatt. apply others_app.
Qed.

Lemma joins_never_cause_a_skip_witness :
  ∃ st' late,
    SyncService.broadcast_to_user_interleaved reliable "u" JNull (Some 2)
      [[SyncService.Joins 4 "u"; SyncService.Joins 5 "v"]; [SyncService.Joins 6 "u"]]
      three_listeners
      = (Returned tt, st')
    ∧ default [] (rooms st' !! "u") = default [] (rooms three_listeners !! "u") ++ late
    ∧ Forall (λ c, joining c "u"
                     [[SyncService.Joins 4 "u"; SyncService.Joins 5 "v"];
                      [SyncService.Joins 6 "u"]]) late
    ∧ attempts (emitted three_listeners st')
      = others (Some 2) (default [] (rooms three_listeners !! "u"))
        ++ others (Some 2) late.
Proof.
  apply (joins_never_cause_a_skip reliable three_listeners "u" JNull (Some 2)).
  repeat constructor.
Defined.
(** X8.  Connections that leave while a broadcast is under way can make
    it miss somebody, but nothing else: if the other tasks running
    during its awaits only call [disconnect], the connections the
    broadcast addresses are, in room order, a selection of those it
    addresses undisturbed, so nobody gets the message more often than it
    occurs in the room, and nobody outside the room gets it. *)
Theorem leaves_never_cause_a_duplicate
    (W : World) (st : State) (user_id : string) (message : Json)
    (sender : option Conn) (schedule : list (list SyncService.Interference)) :
  Forall (Forall is_leave) schedule →
  ∃ st',
    SyncService.broadcast_to_user_interleaved W user_id message sender schedule st
      = (Returned tt, st')
    ∧ attempts (emitted st st')
      `sublist_of` others sender (default [] (rooms st !! user_id))
    ∧ attempts (emitted st st')
      `sublist_of` attempts
        (emitted st (SyncService.broadcast_to_user W user_id message sender st).2).
Proof.
  intros Hleaves.
  assert (Hplain : attempts
            (emitted st (SyncService.broadcast_to_user W user_id message sender st).2)
          = others sender (default [] (rooms st !! user_id))).
  { rewrite broadcast_to_user_run. cbn [snd].
    by rewrite emitted_append, attempts_fan_out. }
  rewrite Hplain.
  unfold SyncService.broadcast_to_user_interleaved.
  destruct (rooms st !! user_id) as [room|] eqn:Hroom; simpl.
  - destruct (broadcast_from_leaves W user_id message sender schedule 0 true st Hleaves)
      as (st' & evs & Hrun & Htr & Hatt).
    exists st'. split; [done|].
    rewrite (emitted_trace _ _ _ Htr).
    unfold SyncService.iterated in Hatt. rewrite Hroom, drop_0 in Hatt. by split.
  - exists st. rewrite emitted_same. by split.
Qed.

Lemma leaves_never_cause_a_duplicate_witness :
  ∃ st',
    SyncService.broadcast_to_user_interleaved reliable "u" JNull None
      [[SyncService.Leaves 1 "u"]; [SyncService.Leaves 3 "u"]] three_listeners
      = (Returned tt, st')
    ∧ attempts (emitted three_listeners st')
      `sublist_of` others None (default [] (rooms three_listeners !! "u"))
    ∧ attempts (emitted three_listeners st')
      `sublist_of` attempts
        (emitted three_listeners
           (SyncService.broadcast_to_user reliable "u" JNull None three_listeners).2).
Proof.
  apply (leaves_never_cause_a_duplicate reliable three_listeners "u" JNull None).
  repeat constructor.
Defined.
(** ** What [disconnect] does not do *)

Lemma others_list_remove c room :
  others (Some c) (SyncService.list_remove c room) = others (Some c) room.
Proof.
  induction room as [|c' room IH]; simpl; [done|].
  destruct (Nat.eqb c' c) eqn:E.
  - rewrite others_cons. simpl. by rewrite E.
  - rewrite !others_cons. simpl. by rewrite E, IH.
Qed.

(** X9.  [disconnect] concerns one socket of one user: the other
    connections of the room stay, each as often as before and in the
    same order, the rooms of other users are not touched, and neither
    are registry, store and trace; in particular the active device of
    the user is still the active device. *)
Theorem disconnect_spares_the_others
    (st : State) (websocket : Conn) (user_id : string) :
  ∃ st',
    SyncService.disconnect websocket user_id st = (Returned tt, st')
    ∧ others (Some websocket) (default [] (rooms st' !! user_id))
      = others (Some websocket) (default [] (rooms st !! user_id))
    ∧ (∀ c, c ≠ websocket →
         occurrences c (default [] (rooms st' !! user_id))
         = occurrences c (default [] (rooms st !! user_id)))
    ∧ (∀ u, u ≠ user_id → rooms st' !! u = rooms st !! u)
    ∧ registry st' = registry st
    ∧ store st' = store st
    ∧ trace st' = trace st.
Proof.
  destruct (disconnect_run websocket user_id st)
    as (st' & Hrun & Htr & Hreg & Hstore & Hroom & _ & Hother).
  exists st'. split; [done|]. rewrite Hroom.
  split; [apply others_list_remove|].
  split; [intros c Hne; by apply occurrences_list_remove_ne|].
  by repeat split.
Qed.

(** ** The stamp of the store *)

Lemma dict_get_set_eq k v d : dict_get k (dict_set k v d) = Some v.
Proof.
  induction d as [|[k' v'] d IH]; simpl.
  - by rewrite String.eqb_refl.
  - destruct (String.eqb k' k) eqn:E; simpl; by rewrite E.
Qed.

Lemma dict_get_set_ne k k' v d : k' ≠ k → dict_get k' (dict_set k v d) = dict_get k' d.
Proof.
  intros Hne. induction d as [|[k0 v0] d IH]; simpl.
  - by destruct (String.eqb_spec k k').
  - destruct (String.eqb_spec k0 k) as [->|_]; simpl.
    + by destruct (String.eqb_spec k k').
    + by rewrite IH.
Qed.




(** ** Listening statistics: [get_frequent_artists] *)

Section ArtistFacts.
Context (strip : string → string).

Lemma counts_get_set_eq k n counts :
  FirebaseDB.counts_get k (FirebaseDB.counts_set k n counts) = n.
Proof.
  induction counts as [|[k' n'] counts IH]; simpl.
  - by rewrite String.eqb_refl.
  - destruct (String.eqb k' k) eqn:E; simpl; by rewrite E.
Qed.

Lemma counts_get_set_ne k k' n counts :
  k' ≠ k →
  FirebaseDB.counts_get k' (FirebaseDB.counts_set k n counts)
  = FirebaseDB.counts_get k' counts.
Proof.
  intros Hne. induction counts as [|[k0 n0] counts IH]; simpl.
  - by destruct (String.eqb_spec k k').
  - destruct (String.eqb_spec k0 k) as [->|_]; simpl.
    + by destruct (String.eqb_spec k k').
    + by rewrite IH.
Qed.

Lemma counts_set_keys k n counts k' :
  k' ∈ (FirebaseDB.counts_set k n counts).*1 ↔ k' = k ∨ k' ∈ counts.*1.
Proof.
  induction counts as [|[k0 n0] counts IH]; simpl.
  - rewrite list_elem_of_singleton. split; [by left|].
    intros [?|H]; [done|]. by apply elem_of_nil in H.
  - destruct (String.eqb_spec k0 k) as [->|Hne]; simpl.
    + rewrite !elem_of_cons. tauto.
    + rewrite !elem_of_cons, IH. tauto.
Qed.

Lemma counts_set_NoDup k n counts :
  NoDup counts.*1 → NoDup (FirebaseDB.counts_set k n counts).*1.
Proof.
  induction counts as [|[k0 n0] counts IH]; simpl.
  - intros _. apply NoDup_singleton.
  - intros [Hnew Hrest]%NoDup_cons.
    destruct (String.eqb_spec k0 k) as [->|Hne]; simpl.
    + by apply NoDup_cons.
    + apply NoDup_cons. split; [|by apply IH].
      rewrite counts_set_keys. intros [?|?]; done.
Qed.

Lemma counts_get_absent k counts :
  k ∉ counts.*1 → FirebaseDB.counts_get k counts = 0.
Proof.
  induction counts as [|[k0 n0] counts IH]; simpl; [done|].
  intros [Hne Hrest]%not_elem_of_cons.
  destruct (String.eqb_spec k0 k) as [->|_]; [done|]. by apply IH.
Qed.

Lemma counts_get_elem k n counts :
  NoDup counts.*1 → (k, n) ∈ counts → FirebaseDB.counts_get k counts = n.
Proof.
  induction counts as [|[k0 n0] counts IH]; simpl.
  - intros _ H. by apply elem_of_nil in H.
  - intros [Hnew Hrest]%NoDup_cons [Heq|Hin]%elem_of_cons.
    + injection Heq as -> ->. by rewrite String.eqb_refl.
    + destruct (String.eqb_spec k0 k) as [->|_]; [|by apply IH].
      exfalso. apply Hnew. apply list_elem_of_fmap. by exists (k, n).
Qed.

Lemma plays_of_cons name item history :
  plays_of strip name (item :: history)
  = (if decide (credited strip item = Some name) then 1 else 0)
    + plays_of strip name history.
Proof.
  unfold plays_of. rewrite filter_cons. by case_decide.
Qed.

Lemma plays_of_skip name item history :
  credited strip item = None →
  plays_of strip name (item :: history) = plays_of strip name history.
Proof. intros H. rewrite plays_of_cons, H. by case_decide. Qed.

(** The loop counts, per name, the items credited to it. *)
Lemma count_artists_spec history counts counts' :
  FirebaseDB.count_artists strip history counts = Val counts' →
  NoDup counts.*1 →
  NoDup counts'.*1
  ∧ (∀ name, FirebaseDB.counts_get name counts'
             = FirebaseDB.counts_get name counts + plays_of strip name history)
  ∧ (∀ name, name ∈ counts'.*1 ↔ name ∈ counts.*1 ∨ 0 < plays_of strip name history).
Proof.
  revert counts. induction history as [|item history IH]; intros counts; simpl.
  - intros [= <-] Hnodup. split; [done|]. split.
    + intros name. unfold plays_of; simpl. lia.
    + intros name. unfold plays_of; simpl. split; [by left|]. intros [?|?]; [done|lia].
  - assert (Hskip : credited strip item = None →
                    FirebaseDB.count_artists strip history counts = Val counts' →
                    NoDup counts.*1 →
                    NoDup counts'.*1
                    ∧ (∀ name, FirebaseDB.counts_get name counts'
                         = FirebaseDB.counts_get name counts
                           + plays_of strip name (item :: history))
                    ∧ (∀ name, name ∈ counts'.*1
                         ↔ name ∈ counts.*1 ∨ 0 < plays_of strip name (item :: history))).
    { intros Hnone Hrun Hnodup.
      destruct (IH counts Hrun Hnodup) as (? & Hget & Hkeys).
      split; [done|]. split; intros name; rewrite plays_of_skip by done; auto. }
    destruct item as [| | | | |fields]; try done.
    destruct (dict_get "artist" fields) as [artist|] eqn:Hartist;
      [|apply Hskip; simpl; by rewrite Hartist].
    destruct artist as [|b|n|artist|items|d];
      try (destruct (truthy _) eqn:Ht; [done|];
           apply Hskip; simpl; by rewrite Hartist).
    simpl. destruct (String.eqb artist "") eqn:Hempty; simpl;
      [apply Hskip; simpl; by rewrite Hartist, Hempty|].
    set (who := strip (split_first " - " artist)).
    assert (Hcred : credited strip (JDict fields) = Some who).
    { simpl. by rewrite Hartist, Hempty. }
    intros Hrun Hnodup.
    destruct (IH _ Hrun (counts_set_NoDup who _ counts Hnodup)) as (? & Hget & Hkeys).
    split; [done|]. split; intros name; rewrite plays_of_cons, Hcred.
    + rewrite Hget. case_decide as Hname.
      * injection Hname as <-. rewrite counts_get_set_eq. lia.
      * rewrite counts_get_set_ne by congruence. lia.
    + rewrite Hkeys, counts_set_keys. case_decide as Hname.
      * injection Hname as <-. split; [intros _; right; lia | intros _; by left; left].
      * simpl. assert (name ≠ who) by congruence. tauto.
Qed.

(** The loop fails exactly on a history with an unusable item. *)
Lemma count_artists_runs history counts :
  (∃ counts', FirebaseDB.count_artists strip history counts = Val counts'
              ∧ Forall (λ item, unusable item = false) history)
  ∨ (FirebaseDB.count_artists strip history counts = Err AttributeError
     ∧ Exists (λ item, unusable item = true) history).
Proof.
  revert counts. induction history as [|item history IH]; intros counts; simpl.
  - left. by eexists.
  - assert (Hnext : ∀ counts0, unusable item = false →
              (∃ counts', FirebaseDB.count_artists strip history counts0 = Val counts'
                          ∧ Forall (λ item, unusable item = false) (item :: history))
              ∨ (FirebaseDB.count_artists strip history counts0 = Err AttributeError
                 ∧ Exists (λ item, unusable item = true) (item :: history))).
    { intros counts0 Hitem. destruct (IH counts0) as [(c & Hrun & Hall)|[Hrun Hex]].
      - left. exists c. split; [done|]. by constructor.
      - right. split; [done|]. by apply Exists_cons_tl. }
    assert (Hbad : unusable item = true →
              (∃ counts', @Err (list (string * nat)) AttributeError = Val counts'
                          ∧ Forall (λ item, unusable item = false) (item :: history))
              ∨ (@Err (list (string * nat)) AttributeError = Err AttributeError
                 ∧ Exists (λ item, unusable item = true) (item :: history))).
    { intros Hitem. right. split; [done|]. by apply Exists_cons_hd. }
    destruct item as [| | | | |fields]; try (by apply Hbad).
    destruct (dict_get "artist" fields) as [artist|] eqn:Hartist;
      [|apply Hnext; simpl; by rewrite Hartist].
    destruct artist as [|b|n|artist|items|d];
      try (destruct (truthy _) eqn:Ht;
           [apply Hbad; simpl; by rewrite Hartist, ?Ht
           |apply Hnext; simpl; by rewrite Hartist, ?Ht]).
    simpl. destruct (String.eqb artist ""); simpl; apply Hnext; simpl; by rewrite Hartist.
Qed.

Lemma insert_by_count_perm x l : FirebaseDB.insert_by_count x l ≡ₚ x :: l.
Proof.
  induction l as [|y l IH]; simpl; [done|].
  destruct (Nat.leb (snd y) (snd x)); [done|].
  rewrite IH. apply Permutation_swap.
Qed.

Lemma sorted_by_count_perm l : FirebaseDB.sorted_by_count l ≡ₚ l.
Proof.
  induction l as [|x l IH]; simpl; [done|].
  by rewrite insert_by_count_perm, IH.
Qed.

Lemma insert_by_count_sorted x l :
  StronglySorted at_least l → StronglySorted at_least (FirebaseDB.insert_by_count x l).
Proof.
  induction 1 as [|y l Hsorted IH Hy]; simpl.
  - by repeat constructor.
  - destruct (Nat.leb_spec (snd y) (snd x)) as [Hle|Hlt].
    + constructor; [by constructor|].
      constructor; [done|].
      eapply Forall_impl; [exact Hy|]. unfold at_least. intros z Hz. simpl in *. lia.
    + constructor; [done|].
      rewrite insert_by_count_perm. constructor; [|done].
      unfold at_least. lia.
Qed.

Lemma sorted_by_count_sorted l : StronglySorted at_least (FirebaseDB.sorted_by_count l).
Proof.
  induction l as [|x l IH]; simpl; [constructor|]. by apply insert_by_count_sorted.
Qed.

Lemma sorted_lookup (l : list (string * nat)) i j x y :
  StronglySorted at_least l → l !! i = Some x → l !! j = Some y → i < j →
  at_least x y.
Proof.
  intros Hsorted Hi Hj Hlt. rewrite <- (take_drop j l) in Hsorted.
  eapply StronglySorted_app_1_elem_of; [exact Hsorted| |].
  - apply elem_of_take. eauto.
  - apply list_elem_of_lookup. exists 0. by rewrite lookup_drop, Nat.add_0_r.
Qed.

Lemma get_frequent_artists_unfold history :
  FirebaseDB.get_frequent_artists strip history
  = match FirebaseDB.count_artists strip history [] with
    | Val counts => Val (take 5 (FirebaseDB.sorted_by_count counts)).*1
    | Err e => Err e
    end.
Proof. by destruct history. Qed.

End ArtistFacts.

(** Behind the list that [get_frequent_artists] returns: the counters
    of the artists with a play, each with its number of plays, sorted. *)
Lemma frequent_artists_sorted
    (strip : string → string) (history : list Json) (names : list string) :
  FirebaseDB.get_frequent_artists strip history = Val names →
  ∃ sorted,
    names = (take 5 sorted).*1
    ∧ StronglySorted at_least sorted
    ∧ NoDup sorted.*1
    ∧ (∀ a ca, (a, ca) ∈ sorted →
         ca = plays_of strip a history ∧ (0 < plays_of strip a history)%nat)
    ∧ (∀ a, (0 < plays_of strip a history)%nat →
         (a, plays_of strip a history) ∈ sorted).
Proof.
  rewrite get_frequent_artists_unfold.
  destruct (FirebaseDB.count_artists strip history []) as [counts|e] eqn:Hrun; [|done].
  intros [= <-].
  destruct (count_artists_spec strip history [] counts Hrun (NoDup_nil_2))
    as (Hnodup & Hget & Hkeys).
  exists (FirebaseDB.sorted_by_count counts).
  assert (Hperm : FirebaseDB.sorted_by_count counts ≡ₚ counts)
    by apply sorted_by_count_perm.
  assert (Hcount : ∀ a ca, (a, ca) ∈ counts → ca = plays_of strip a history).
  { intros a ca Hin.
    rewrite <- (counts_get_elem a ca counts Hnodup Hin). by rewrite Hget. }
  split; [done|]. split; [apply sorted_by_count_sorted|].
  split; [by rewrite Hperm|]. split.
  - intros a ca Hin. rewrite Hperm in Hin. split; [by apply Hcount|].
    assert (Hkey : a ∈ counts.*1) by (apply list_elem_of_fmap; by exists (a, ca)).
    apply Hkeys in Hkey as [Hnil|Hpos]; [by apply elem_of_nil in Hnil|done].
  - intros a Hpos. rewrite Hperm.
    assert (Hkey : a ∈ counts.*1) by (apply Hkeys; by right).
    apply list_elem_of_fmap in Hkey as ([a' ca] & -> & Hin). simpl.
    by rewrite <- (Hcount _ _ Hin).
Qed.

(** X10.  When [get_frequent_artists] returns, it returns at most five
    names, all different, each with at least one play in the history,
    listed from most to least played; no artist left out has more plays
    than one that is listed; and either every artist with a play is
    listed or exactly five are.  A play counts for the part of its
    [artist] before the first " - ", stripped. *)
Theorem frequent_artists_are_the_most_played
    (strip : string → string) (history : list Json) (names : list string) :
  FirebaseDB.get_frequent_artists strip history = Val names →
  (length names ≤ 5)%nat
  ∧ NoDup names
  ∧ (∀ a, a ∈ names → (0 < plays_of strip a history)%nat)
  ∧ (∀ a b, a ∈ names → b ∉ names →
       (plays_of strip b history ≤ plays_of strip a history)%nat)
  ∧ (∀ i j a b, names !! i = Some a → names !! j = Some b → (i ≤ j)%nat →
       (plays_of strip b history ≤ plays_of strip a history)%nat)
  ∧ ((∀ a, (0 < plays_of strip a history)%nat → a ∈ names) ∨ length names = 5).
Proof.
  intros Hrun.
  destruct (frequent_artists_sorted strip history names Hrun)
    as (sorted & -> & Hsorted & Hnodup & Hcount & Hpresent).
  assert (Hentry : ∀ i a, (take 5 sorted).*1 !! i = Some a →
                          sorted !! i = Some (a, plays_of strip a history)).
  { intros i a Hi. rewrite list_lookup_fmap in Hi.
    destruct (take 5 sorted !! i) as [[a' ca]|] eqn:Hti; [|done].
    injection Hi as ->. apply lookup_take_Some in Hti as [Hsi _].
    rewrite Hsi. f_equal. f_equal. apply Hcount.
    by apply list_elem_of_lookup_2 in Hsi. }
  assert (Hlisted : ∀ a, a ∈ (take 5 sorted).*1 →
                         ∃ i, (i < 5)%nat ∧ sorted !! i = Some (a, plays_of strip a history)).
  { intros a [i Hi]%list_elem_of_lookup_1. exists i. split; [|by apply Hentry].
    apply lookup_lt_Some in Hi. rewrite length_fmap, length_take in Hi. lia. }
  split; [rewrite length_fmap, length_take; lia|].
  split.
  { rewrite fmap_take. eapply sublist_NoDup; [done|apply sublist_take]. }
  split.
  { intros a Ha. apply Hlisted in Ha as (i & _ & Hi).
    apply list_elem_of_lookup_2 in Hi. by apply Hcount in Hi as [_ ?]. }
  split.
  { intros a b Ha Hb.
    destruct (Nat.eq_dec (plays_of strip b history) 0) as [->|Hpos]; [lia|].
    destruct (list_elem_of_lookup_1 _ _ (Hpresent b ltac:(lia))) as [j Hj].
    apply Hlisted in Ha as (i & Hi5 & Hi).
    assert (Hj5 : (5 ≤ j)%nat).
    { destruct (Nat.le_gt_cases 5 j) as [|Hlt]; [done|]. exfalso. apply Hb.
      apply list_elem_of_lookup. exists j.
      rewrite list_lookup_fmap, lookup_take_lt by done. by rewrite Hj. }
    assert (Hord : at_least (a, plays_of strip a history) (b, plays_of strip b history)).
    { eapply (sorted_lookup sorted i j); [done..|lia]. }
    exact Hord. }
  split.
  { intros i j a b Hi Hj Hij.
    apply Hentry in Hi. apply Hentry in Hj.
    destruct (Nat.eq_dec i j) as [->|Hne].
    - rewrite Hi in Hj. by injection Hj as ->.
    - assert (Hord : at_least (a, plays_of strip a history) (b, plays_of strip b history)).
      { eapply (sorted_lookup sorted i j); [done..|lia]. }
      exact Hord. }
  destruct (Nat.le_gt_cases (length sorted) 5) as [Hshort|Hlong].
  - left. intros a Hpos.
    destruct (list_elem_of_lookup_1 _ _ (Hpresent a Hpos)) as [i Hi].
    apply list_elem_of_lookup. exists i.
    rewrite list_lookup_fmap, take_ge by done. by rewrite Hi.
  - right. rewrite length_fmap, length_take. lia.
Qed.

Lemma frequent_artists_are_the_most_played_witness :
  (length ["B"; "A"; "F"; "C"; "D"] ≤ 5)%nat
  ∧ NoDup ["B"; "A"; "F"; "C"; "D"]
  ∧ (∀ a, a ∈ ["B"; "A"; "F"; "C"; "D"] → (0 < plays_of (λ s, s) a some_history)%nat)
  ∧ (∀ a b, a ∈ ["B"; "A"; "F"; "C"; "D"] → b ∉ ["B"; "A"; "F"; "C"; "D"] →
       (plays_of (λ s, s) b some_history ≤ plays_of (λ s, s) a some_history)%nat)
  ∧ (∀ i j a b, ["B"; "A"; "F"; "C"; "D"] !! i = Some a →
       ["B"; "A"; "F"; "C"; "D"] !! j = Some b → (i ≤ j)%nat →
       (plays_of (λ s, s) b some_history ≤ plays_of (λ s, s) a some_history)%nat)
  ∧ ((∀ a, (0 < plays_of (λ s, s) a some_history)%nat → a ∈ ["B"; "A"; "F"; "C"; "D"])
     ∨ length ["B"; "A"; "F"; "C"; "D"] = 5).
Proof.
  apply (frequent_artists_are_the_most_played (λ s, s) some_history).
  reflexivity.
Defined.

(** [get_frequent_artists] either fails on an unusable item or returns. *)
Lemma frequent_artists_fail_cases (strip : string → string) (history : list Json) :
  (FirebaseDB.get_frequent_artists strip history = Err AttributeError
   ∧ Exists (λ item, unusable item = true) history)
  ∨ (∃ names, FirebaseDB.get_frequent_artists strip history = Val names
              ∧ Forall (λ item, unusable item = false) history).
Proof.
  rewrite get_frequent_artists_unfold.
  destruct (count_artists_runs strip history []) as [(counts & -> & Hall)|[-> Hex]].
  - right. by eexists.
  - by left.
Qed.

(** X11.  [get_frequent_artists] raises [AttributeError] exactly when
    the history holds an item that is not a dictionary or whose [artist]
    is neither a string nor falsy; otherwise it returns a list.  An item
    with no [artist], or an empty or null one, is passed over. *)
Theorem frequent_artists_fail_on_unusable_items
    (strip : string → string) (history : list Json) :
  (FirebaseDB.get_frequent_artists strip history = Err AttributeError
   ↔ Exists (λ item, unusable item = true) history)
  ∧ ((∃ names, FirebaseDB.get_frequent_artists strip history = Val names)
     ↔ Forall (λ item, unusable item = false) history).
Proof.
  rewrite get_frequent_artists_unfold.
  destruct (count_artists_runs strip history []) as [(counts & -> & Hall)|[-> Hex]].
  - split; split; try done.
    + intros Hex. exfalso. apply Exists_exists in Hex as (item & Hin & Hbad).
      rewrite Forall_forall in Hall. specialize (Hall item Hin). congruence.
    + intros _. by eexists.
  - split; split; try done.
    + by intros [names ?].
    + intros Hall. exfalso. apply Exists_exists in Hex as (item & Hin & Hbad).
      rewrite Forall_forall in Hall. specialize (Hall item Hin). congruence.
Qed.

(** ** Playlists: [GET /collections/{user_id}/{playlist_id}/songs] *)

Lemma dict_get_absent k (d : Dict) : k ∉ d.*1 → dict_get k d = None.
Proof.
  induction d as [|[k' v] d IH]; simpl; [done|].
  intros [Hne Hrest]%not_elem_of_cons.
  destruct (String.eqb_spec k' k) as [->|_]; [done|]. by apply IH.
Qed.

(** Unpacking a dictionary with distinct keys into another one. *)
Lemma dict_get_unpacked k (fields base : Dict) :
  NoDup fields.*1 →
  dict_get k (fold_left (λ song kv, dict_set kv.1 kv.2 song) fields base)
  = match dict_get k fields with
    | Some v => Some v
    | None => dict_get k base
    end.
Proof.
  revert base. induction fields as [|[k0 v0] fields IH]; intros base; simpl; [done|].
  intros [Hnew Hrest]%NoDup_cons. rewrite IH by done.
  destruct (String.eqb_spec k0 k) as [->|Hne].
  - by rewrite dict_get_absent, dict_get_set_eq.
  - rewrite dict_get_set_ne by done. done.
Qed.

Lemma get_song_metadata_reads song_id st :
  ∃ meta, FirebaseDB.get_song_metadata song_id st = (Returned meta, st).
Proof.
  unfold FirebaseDB.get_song_metadata.
  destruct (String.eqb song_id ""); [by eexists|].
  destruct (store st !! FirebaseDB.song_path song_id) as [data|]; [|by eexists].
  destruct (truthy data); by eexists.
Qed.

Lemma get_collection_songs_reads str user_id playlist_id st :
  ∃ song_ids,
    FirebaseDB.get_collection_songs str user_id playlist_id st = (Returned song_ids, st).
Proof.
  unfold FirebaseDB.get_collection_songs.
  destruct (String.eqb user_id "" || String.eqb playlist_id ""); [by eexists|].
  destruct (store st !! _) as [data|]; [|by eexists].
  destruct (negb (truthy data)); [by eexists|].
  destruct data; by eexists.
Qed.

Lemma collect_songs_all st song_ids songs :
  Forall (λ sid, ∃ fields,
            FirebaseDB.get_song_metadata sid st = (Returned (JDict fields), st)
            ∧ NoDup fields.*1) song_ids →
  ∃ new,
    Main.collect_songs song_ids songs st = (Returned (Val (songs ++ new)), st)
    ∧ Forall2 (λ sid song, ∃ fields,
                 FirebaseDB.get_song_metadata sid st = (Returned (JDict fields), st)
                 ∧ song_of sid fields song) song_ids new.
Proof.
  intros Hall. revert songs.
  induction Hall as [|sid rest (fields & Hmeta & Hnodup) _ IH]; intros songs; simpl.
  - exists []. by rewrite app_nil_r.
  - unfold bind. rewrite Hmeta. simpl.
    destruct (IH (songs ++
                    [JDict (fold_left (λ song kv, dict_set kv.1 kv.2 song) fields
                              [("id", JStr sid)])])) as (new & Hrun & Hsongs).
    eexists (_ :: new). rewrite Hrun, <- app_assoc. split; [done|].
    constructor; [|done]. exists fields. split; [done|].
    eexists. split; [done|]. split.
    + rewrite dict_get_unpacked by done. by destruct (dict_get "id" fields).
    + intros k Hk. rewrite dict_get_unpacked by done.
      destruct (dict_get k fields); [done|]. cbn [dict_get].
      by destruct (String.eqb_spec "id" k).
Qed.

Lemma collect_songs_fails st song_ids songs :
  Exists (λ sid, ∀ fields,
            FirebaseDB.get_song_metadata sid st ≠ (Returned (JDict fields), st))
         song_ids →
  Main.collect_songs song_ids songs st = (Returned (Err TypeError), st).
Proof.
  intros Hex. revert songs.
  induction song_ids as [|sid rest IH]; intros songs; [by apply Exists_nil in Hex|].
  simpl. unfold bind.
  destruct (get_song_metadata_reads sid st) as [meta Hmeta]. rewrite Hmeta.
  destruct meta as [| | | | |fields]; try done.
  simpl. apply Exists_cons in Hex as [Hbad|Hex]; [|by apply IH].
  by destruct (Hbad fields).
Qed.

(** X12.  The playlist endpoint reads only.  If the metadata stored for
    each song of the playlist is a dictionary, or absent, it answers
    with one song per song id, in playlist order; a song shows the
    fields of its metadata, and its [id] is the song id unless the
    metadata has an [id] of its own, which then takes its place.  If the
    metadata of some song is any other non-empty value, unpacking it is a
    [TypeError] that leaves the endpoint. *)
Theorem playlist_songs_carry_their_metadata
    (str : Json → string) (st : State) (user_id playlist_id : string) :
  ∃ song_ids,
    FirebaseDB.get_collection_songs str user_id playlist_id st = (Returned song_ids, st)
    ∧ (Forall (λ sid, ∃ fields,
                 FirebaseDB.get_song_metadata sid st = (Returned (JDict fields), st)
                 ∧ NoDup fields.*1) song_ids →
       ∃ songs,
         Main.get_collection_songs str user_id playlist_id st
         = (Returned (Val (JDict [("playlist_id", JStr playlist_id);
                                  ("songs", JList songs)])), st)
         ∧ Forall2 (λ sid song, ∃ fields,
                      FirebaseDB.get_song_metadata sid st = (Returned (JDict fields), st)
                      ∧ song_of sid fields song) song_ids songs)
    ∧ (Exists (λ sid, ∀ fields,
                 FirebaseDB.get_song_metadata sid st ≠ (Returned (JDict fields), st))
              song_ids →
       Main.get_collection_songs str user_id playlist_id st
       = (Returned (Err TypeError), st)).
Proof.
  destruct (get_collection_songs_reads str user_id playlist_id st) as [song_ids Hids].
  exists song_ids. split; [done|].
  unfold Main.get_collection_songs, bind. rewrite Hids. split.
  - intros Hall. destruct (collect_songs_all st song_ids [] Hall) as (songs & -> & Hsongs).
    by exists songs.
  - intros Hex. by rewrite collect_songs_fails.
Qed.

(** In [library] the playlist of "u" lists s1, a hole, s2 and s3: the
    hole is dropped, s2 appears under the [id] of its metadata, s3
    without fields of its own. *)
Lemma playlist_songs_carry_their_metadata_example :
  Main.get_collection_songs str_of_string "u" "p" library
  = (Returned
       (Val (JDict
               [("playlist_id", JStr "p");
                ("songs",
                 JList [JDict [("id", JStr "s1"); ("album", JStr "First")];
                        JDict [("id", JStr "other"); ("album", JStr "Second")];
                        JDict [("id", JStr "s3")]])])),
     library).
Proof. by vm_compute. Qed.

(** ** The daily mix: [get_daily_mix] *)

(** X13.  [get_daily_mix] never raises.  With a history it can read and
    use, it is the outcome of one search for twelve songs: for "lofi
    chill beats for study" if no item of the history counts for an
    artist, and otherwise for "<artist> essential mix", where the artist
    is one that no other artist has more plays than.  If the history
    cannot be read or holds an unusable item, or if the search raises,
    the mix is the empty list. *)
Theorem daily_mix_follows_the_most_played
    (strip : string → string) (search_songs : Json → nat → Checked Json)
    (history : list Json) :
  let mix := RecommendationService.get_daily_mix strip search_songs (Val history) in
  (∀ e, RecommendationService.get_daily_mix strip search_songs (Err e) = JList [])
  ∧ (Exists (λ item, unusable item = true) history → mix = JList [])
  ∧ (Forall (λ item, unusable item = false) history →
     ∃ query,
       mix = RecommendationService.or_nothing (search_songs (JStr query) 12)
       ∧ (((∀ b, plays_of strip b history = 0)
           ∧ query = "lofi chill beats for study")
          ∨ (∃ a, query = a +:+ " essential mix"
                  ∧ (0 < plays_of strip a history)%nat
                  ∧ ∀ b, (plays_of strip b history ≤ plays_of strip a history)%nat))).
Proof.
  intros mix. split; [done|]. unfold mix, RecommendationService.get_daily_mix.
  destruct (frequent_artists_fail_cases strip history) as [[Hfail Hex]|[names [Hrun Hall]]].
  - rewrite Hfail. split; [done|]. intros Hall. exfalso.
    apply Exists_exists in Hex as (item & Hin & Hbad).
    rewrite Forall_forall in Hall. specialize (Hall item Hin). congruence.
  - rewrite Hrun. split.
    { intros Hex. exfalso. apply Exists_exists in Hex as (item & Hin & Hbad).
      rewrite Forall_forall in Hall. specialize (Hall item Hin). congruence. }
    intros _.
    destruct (frequent_artists_sorted strip history names Hrun)
      as (sorted & -> & Hsorted & _ & Hcount & Hpresent).
    destruct sorted as [|[a ca] rest]; simpl.
    + eexists. split; [done|]. left. split; [|done].
      intros b. destruct (Nat.eq_dec (plays_of strip b history) 0) as [|Hpos]; [done|].
      exfalso. eapply elem_of_nil, (Hpresent b). lia.
    + eexists. split; [done|]. right. exists a. split; [done|].
      destruct (Hcount a ca) as [-> Hpos]; [by left|]. split; [done|].
      intros b. destruct (Nat.eq_dec (plays_of strip b history) 0) as [->|Hb]; [lia|].
      assert (Hin : (b, plays_of strip b history) ∈ (a, plays_of strip a history) :: rest)
        by (apply Hpresent; lia).
      apply elem_of_cons in Hin as [Heq|Hin]; [injection Heq as ->; lia|].
      apply StronglySorted_inv in Hsorted as [_ Hrest].
      rewrite Forall_forall in Hrest. exact (Hrest _ Hin).
Qed.

(** A history in which B is played most: the mix is the search for
    "B essential mix". *)
Lemma daily_mix_follows_the_most_played_example :
  RecommendationService.get_daily_mix (λ s, s) echo_search (Val some_history)
  = JList [JDict [("id", JStr "B essential mix")]].
Proof. reflexivity. Qed.

(** ** Trust scores and the spam filter *)

Section ChannelFacts.
Context (lower strip : string → string).
Context (re_sub : string → string → string → string).

Lemma trusted_label_matches label c :
  In label TrustedChannels.ALL_TRUSTED → contains label c = true →
  existsb (λ label, contains label c) TrustedChannels.ALL_TRUSTED = true.
Proof. intros Hin Hc. apply existsb_exists. by exists label. Qed.

(** X14.  A trust score is a multiple of ten between 0 and 150.  "vevo"
    and "topic" are trusted labels themselves, so a channel whose
    normalised name contains either scores 90 at least; a channel whose
    name matches no trusted label gets its score from the title alone,
    60 at most. *)
Theorem trust_score_range (channel_name video_title : string) :
  let c := TrustedChannels.normalize lower strip re_sub channel_name in
  let score :=
    TrustedChannels.calculate_trust_score lower strip re_sub channel_name video_title in
  (0 ≤ score ≤ 150)%Z
  ∧ (score mod 10 = 0)%Z
  ∧ (contains "vevo" c = true ∨ contains "topic" c = true → (90 ≤ score)%Z)
  ∧ (existsb (λ label, contains label c) TrustedChannels.ALL_TRUSTED = false →
     (score ≤ 60)%Z).
Proof.
  intros c score. unfold score, TrustedChannels.calculate_trust_score. fold c.
  set (t := TrustedChannels.normalize lower strip re_sub video_title).
  assert (Hvevo : contains "vevo" c = true →
            existsb (λ label, contains label c) TrustedChannels.ALL_TRUSTED = true).
  { apply trusted_label_matches. vm_compute. tauto. }
  assert (Htopic : contains "topic" c = true →
            existsb (λ label, contains label c) TrustedChannels.ALL_TRUSTED = true).
  { apply trusted_label_matches. vm_compute. tauto. }
  destruct (existsb (λ label, contains label c) TrustedChannels.ALL_TRUSTED) eqn:Htrusted;
    destruct (contains "vevo" c) eqn:Hv; try (by specialize (Hvevo eq_refl));
    destruct (contains "topic" c) eqn:Ht; try (by specialize (Htopic eq_refl));
    destruct (contains "vevo" t);
    destruct (existsb (λ signal, contains signal t)
                ["official audio"; "official music video"; "song"; "audio"]);
    destruct (contains "official" t); simpl;
    (split; [lia|]); (split; [done|]); (split; [intros [?|?]; (done || lia)|]);
    intros ?; (done || lia).
Qed.

Lemma no_word_without_itself (t : string) (words : list string) :
  existsb (λ word, contains word t && negb (contains word t)) words = false.
Proof.
  induction words as [|word words IH]; simpl; [done|].
  rewrite IH. by destruct (contains word t).
Qed.

(** X15.  A title whose normalised text contains a hard-block keyword
    is spam whatever was searched for.  Otherwise a title is spam
    exactly when it contains a spam keyword that the query does not
    contain; so a title is never filtered for a query that normalises
    to the same text, such as the title itself. *)
Theorem spam_filter_respects_the_query (title : string) :
  let t := TrustedChannels.normalize lower strip re_sub title in
  let blocked := existsb (λ k, contains k t) TrustedChannels.HARD_BLOCK_KEYWORDS in
  (blocked = true → ∀ query, TrustedChannels.is_spam lower strip re_sub title query = true)
  ∧ (∀ query, TrustedChannels.normalize lower strip re_sub query = t →
       TrustedChannels.is_spam lower strip re_sub title query = blocked)
  ∧ (blocked = false → ∀ query,
       TrustedChannels.is_spam lower strip re_sub title query = true
       ↔ ∃ word, In word TrustedChannels.SPAM_KEYWORDS
                 ∧ contains word t = true
                 ∧ contains word (TrustedChannels.normalize lower strip re_sub query)
                   = false).
Proof.
  intros t blocked. unfold TrustedChannels.is_spam. fold t. fold blocked.
  split; [|split].
  - intros -> query. done.
  - intros query ->. destruct blocked; [done|]. apply no_word_without_itself.
  - intros -> query. rewrite existsb_exists. split.
    + intros (word & Hin & [Ht Hq]%andb_true_iff). exists word.
      split; [done|]. split; [done|]. by apply negb_true_iff.
    + intros (word & Hin & Ht & Hq). exists word. split; [done|].
      by rewrite Ht, Hq.
Qed.

End ChannelFacts.

(** ** Channel classification *)

Lemma joinable_false titles :
  AIChannelClassifier.joinable titles = false
  ↔ Exists (λ title, ∀ s, title ≠ JStr s) titles.
Proof.
  induction titles as [|title titles IH]; simpl.
  - split; [done|]. intros H. by apply Exists_nil in H.
  - rewrite Exists_cons, <- IH. destruct title; simpl;
      try (split; [intros _; by left | done]).
    split; [by right|]. intros [H|H]; [by destruct (H s)|done].
Qed.

(** X16.  The classification of a channel is that of the keyword
    heuristic on its lower-cased name and of nothing else: neither the
    recent titles nor the API key change it.  The only other outcome is
    a [TypeError], raised while the prompt is put together, exactly when
    an API key is configured and one of the first ten titles is not a
    string.  In the heuristic a music keyword in the name wins over news
    and movie keywords, and a news keyword over movie keywords. *)
Theorem classification_is_the_heuristic
    (lower : string → string) (api_key : option string) (channel_name : string)
    (recent_titles : list Json) :
  let heuristic := AIChannelClassifier._heuristic_classify lower channel_name in
  let name := lower channel_name in
  let has := λ keywords, existsb (λ k, contains k name) keywords in
  (AIChannelClassifier.classify_channel lower api_key channel_name recent_titles
     = Val heuristic
   ∨ AIChannelClassifier.classify_channel lower api_key channel_name recent_titles
     = Err TypeError)
  ∧ (AIChannelClassifier.classify_channel lower api_key channel_name recent_titles
       = Err TypeError
     ↔ (∃ key, api_key = Some key ∧ key ≠ "")
       ∧ Exists (λ title, ∀ s, title ≠ JStr s) (take 10 recent_titles))
  ∧ (has ["music"; "records"; "audios"; "audio"; "label"; "topic"; "vevo"] = true →
     AIChannelClassifier.channel_type heuristic = "music_label")
  ∧ (has ["music"; "records"; "audios"; "audio"; "label"; "topic"; "vevo"] = false →
     has ["news"; "live"; "breaking"; "times"; "media"] = true →
     AIChannelClassifier.channel_type heuristic = "news")
  ∧ (AIChannelClassifier.channel_type heuristic = "movies" →
     has ["film"; "movie"; "trailers"; "cinema"] = true
     ∧ has ["news"; "live"; "breaking"; "times"; "media"] = false
     ∧ has ["music"; "records"; "audios"; "audio"; "label"; "topic"; "vevo"] = false).
Proof.
  intros heuristic name has.
  split; [|split].
  - unfold AIChannelClassifier.classify_channel.
    destruct api_key as [key|]; [|by left].
    destruct (String.eqb key ""); [by left|].
    destruct (AIChannelClassifier.joinable (take 10 recent_titles)); [by left|by right].
  - rewrite <- joinable_false. unfold AIChannelClassifier.classify_channel.
    destruct api_key as [key|].
    + destruct (String.eqb_spec key "") as [->|Hne].
      * split; [done|]. by intros [(k & [= <-] & ?) _].
      * destruct (AIChannelClassifier.joinable (take 10 recent_titles)).
        -- split; [done|]. by intros [_ ?].
        -- split; [|done]. intros _. split; [|done]. by exists key.
    + split; [done|]. by intros [(k & ? & _) _].
  - unfold heuristic, AIChannelClassifier._heuristic_classify, has, name.
    destruct (existsb _ ["music"; "records"; "audios"; "audio"; "label"; "topic"; "vevo"]);
      destruct (existsb _ ["news"; "live"; "breaking"; "times"; "media"]);
      destruct (existsb _ ["film"; "movie"; "trailers"; "cinema"]); simpl;
      repeat split; done.
Qed.

(** ** Recommendations after the last song: [get_recent_context] *)

Lemma py_eq_sym x y : py_eq x y = py_eq y x.
Proof.
  destruct x, y; simpl; try done.
  - by destruct b, b0.
  - apply Z.eqb_sym.
  - apply String.eqb_sym.
Qed.

Lemma py_in_false x seen a : py_in x seen = false → a ∈ seen → py_eq x a = false.
Proof.
  unfold py_in. intros Hnot Hin.
  destruct (py_eq x a) eqn:E; [|done].
  rewrite <- Hnot. symmetry. apply existsb_exists. exists a.
  split; [by apply list_elem_of_In|done].
Qed.

Section RecentFacts.
Context (str : Json → string).
Context (search_songs : Json → nat → Checked Json).
Context (get_content_similarity : Json → list Json).

Lemma subscript_id_of s id :
  RecommendationService.subscript_id s = Val id → id_of s = Some id.
Proof.
  destruct s as [| | | | |fields]; try done. simpl.
  destruct (dict_get "id" fields); [|done]. by intros [= ->].
Qed.

Lemma keep_if_new_kept video_id song id acc acc' :
  kept video_id acc → id_of song = Some id →
  RecommendationService.keep_if_new song id acc = Val acc' →
  kept video_id acc'.
Proof.
  intros (ids & Hsongs & Hseen & Hdiff) Hid. unfold RecommendationService.keep_if_new.
  destruct (hashable id); [|done].
  destruct (py_in id acc.2) eqn:Hin; intros [= <-]; [by exists ids|].
  exists (ids ++ [id]). simpl. split; [|split].
  - apply Forall2_app; [done|]. by constructor.
  - by rewrite Hseen.
  - rewrite Hseen in Hin. intros i j a b Hi Hj Hne.
    change (video_id :: ids ++ [id]) with ((video_id :: ids) ++ [id]) in Hi, Hj.
    apply lookup_snoc_Some in Hi as [[_ Hi]|[Hi <-]];
      apply lookup_snoc_Some in Hj as [[_ Hj]|[Hj <-]].
    + by apply (Hdiff i j).
    + rewrite py_eq_sym. eapply py_in_false; [done|].
      by eapply list_elem_of_lookup_2.
    + eapply py_in_false; [done|]. by eapply list_elem_of_lookup_2.
    + congruence.
Qed.

Lemma enrich_kept video_id ml_results acc acc' :
  kept video_id acc →
  RecommendationService.enrich search_songs ml_results acc = Val acc' →
  kept video_id acc'.
Proof.
  revert acc. induction ml_results as [|vid rest IH]; intros acc Hkept; simpl.
  - by intros [= <-].
  - destruct (search_songs vid 1) as [res|]; [|done]. simpl.
    destruct (truthy res); simpl; [|by apply IH].
    destruct (RecommendationService.first_with_id res) as [[first id]|] eqn:Hfirst;
      [|done]. simpl.
    destruct (RecommendationService.keep_if_new first id acc) as [acc1|] eqn:Hkeep;
      [|done]. simpl.
    apply IH. eapply keep_if_new_kept; [done| |done].
    destruct res as [| | |s|items|fields]; try done.
    + by destruct s.
    + destruct items as [|x items]; [done|]. simpl in Hfirst.
      destruct (RecommendationService.subscript_id x) as [id'|] eqn:Hx; [|done].
      injection Hfirst as <- <-. by apply subscript_id_of.
Qed.

Lemma fill_kept video_id results acc acc' :
  kept video_id acc →
  RecommendationService.fill results acc = Val acc' →
  kept video_id acc'.
Proof.
  revert acc. induction results as [|s rest IH]; intros acc Hkept; simpl.
  - by intros [= <-].
  - destruct (RecommendationService.subscript_id s) as [id|] eqn:Hs; [|done]. simpl.
    destruct (RecommendationService.keep_if_new s id acc) as [acc1|] eqn:Hkeep;
      [|done]. simpl.
    apply IH. eapply keep_if_new_kept; [done| |done]. by apply subscript_id_of.
Qed.

Lemma fill_from_kept video_id results acc acc' :
  kept video_id acc →
  RecommendationService.fill_from results acc = Val acc' →
  kept video_id acc'.
Proof.
  intros Hkept. destruct results as [| | |s|items|fields]; try done; simpl.
  - destruct s; [by intros [= <-]|done].
  - by apply fill_kept.
  - destruct fields; [by intros [= <-]|done].
Qed.

(** X17.  [get_recent_context] never raises: it answers either with no
    last song and no recommendations, or with the newest entry of the
    play history as last song and at most twelve recommendations.  Each
    recommendation is a dictionary with an [id], and among these ids
    and the [video_id] of the last song no two are equal: the song just
    played is never recommended, and no song is recommended twice. *)
Theorem recent_context_never_repeats (history : Checked (list Json)) :
  let context :=
    RecommendationService.get_recent_context str search_songs get_content_similarity
      history in
  context = RecommendationService.no_context
  ∨ ∃ fields rest recommendations ids,
      history = Val (JDict fields :: rest)
      ∧ context = JDict [("last_song", JDict fields);
                         ("recommendations", JList recommendations)]
      ∧ (length recommendations ≤ 12)%nat
      ∧ Forall2 (λ song id, id_of song = Some id) recommendations ids
      ∧ all_different (default JNull (dict_get "video_id" fields) :: ids).
Proof.
  intros context. unfold context, RecommendationService.get_recent_context,
    RecommendationService.recent_context.
  destruct history as [[|last_song rest]|e]; simpl; try (by left).
  destruct last_song as [| | | | |fields]; try (by left).
  set (video_id := default JNull (dict_get "video_id" fields)).
  destruct (hashable video_id); [|by left].
  assert (Hstart : kept video_id ([], [video_id])).
  { exists []. split; [constructor|]. split; [done|].
    intros i j a b Hi Hj Hne.
    apply list_lookup_singleton_Some in Hi as [-> _].
    apply list_lookup_singleton_Some in Hj as [-> _]. done. }
  destruct (RecommendationService.enrich _ _ _) as [acc1|] eqn:Henrich; [|by left].
  simpl.
  assert (Hkept1 : kept video_id acc1) by (by eapply enrich_kept).
  assert (Hfinish : ∀ acc,
            kept video_id acc →
            ∃ recommendations ids,
              take 12 acc.1 = recommendations
              ∧ (length recommendations ≤ 12)%nat
              ∧ Forall2 (λ song id, id_of song = Some id) recommendations ids
              ∧ all_different (video_id :: ids)).
  { intros acc (ids & Hsongs & _ & Hdiff).
    exists (take 12 acc.1), (take 12 ids). split; [done|].
    split; [rewrite length_take; lia|]. split; [by apply Forall2_take|].
    intros i j a b Hi Hj Hne. apply (Hdiff i j a b); [| |done].
    - destruct i as [|i]; [done|]. simpl in *. by apply lookup_take_Some in Hi as [? _].
    - destruct j as [|j]; [done|]. simpl in *. by apply lookup_take_Some in Hj as [? _]. }
  destruct (Nat.ltb (length acc1.1) 8).
  - destruct (search_songs _ 12) as [results|]; [|by left]. simpl.
    destruct (RecommendationService.fill_from results acc1) as [acc2|] eqn:Hfill;
      [|by left]. simpl.
    destruct (Hfinish acc2) as (recommendations & ids & <- & ? & ? & ?);
      [by eapply fill_from_kept|].
    right. by exists fields, rest, (take 12 acc2.1), ids.
  - simpl. destruct (Hfinish acc1 Hkept1) as (recommendations & ids & <- & ? & ? & ?).
    right. by exists fields, rest, (take 12 acc1.1), ids.
Qed.

End RecentFacts.

(** The newest entry of the history is the song "a": of the songs the
    search finds, "a" is left out and the others are recommended once. *)
Lemma recent_context_never_repeats_example :
  RecommendationService.get_recent_context str_of_string same_songs (λ _, [])
    (Val [JDict [("video_id", JStr "a"); ("title", JStr "t")]])
  = JDict [("last_song", JDict [("video_id", JStr "a"); ("title", JStr "t")]);
           ("recommendations",
            JList [JDict [("id", JStr "b")]; JDict [("id", JStr "c")]])].
Proof. reflexivity. Qed.

(** ** Rooms stay well formed *)

(** X18.  As long as every endpoint runs on a socket of its own, the
    rooms stay well formed: if no room is empty and no room holds a
    connection twice, and the socket is not yet in its user's room, the
    same holds after the endpoint has run, whether the socket was
    refused, is still open or has been closed, and whatever other
    tasks did at its awaits. *)
Theorem endpoint_keeps_rooms_well_formed
    (W : World) (st : State) (websocket : Conn) (user_id : string)
    (incoming : list Main.Received) :
  websocket ∉ default [] (rooms st !! user_id) →
  (∀ u room, rooms st !! u = Some room → room ≠ [] ∧ NoDup room) →
  ∀ u room,
    rooms (Main.websocket_endpoint W websocket user_id incoming st).2 !! u = Some room →
    room ≠ [] ∧ NoDup room.
Proof.
  intros _ Hwf.
  pose proof (websocket_endpoint_steps W websocket user_id incoming st) as Hsteps.
  exact (steps_well_formed _ _ Hsteps Hwf).
Qed.

Lemma endpoint_keeps_rooms_well_formed_witness :
  3 ∉ default [] (rooms scenario !! "u")
  ∧ ∀ u room,
      rooms (Main.websocket_endpoint reliable 3 "u" [Main.Frame JNull] scenario).2 !! u
      = Some room →
      room ≠ [] ∧ NoDup room.
Proof.
  assert (Hnew : 3 ∉ default [] (rooms scenario !! "u")).
  { vm_compute. intros H. apply elem_of_cons in H as [H|H]; [discriminate|].
    apply elem_of_cons in H as [H|H]; [discriminate|]. by apply elem_of_nil in H. }
  split; [exact Hnew|].
  apply (endpoint_keeps_rooms_well_formed reliable scenario 3 "u" [Main.Frame JNull]).
  - exact Hnew.
  - intros u room. unfold scenario; simpl.
    destruct (decide (u = "u")) as [->|Hne].
    + rewrite lookup_singleton_eq. intros [= <-]. split; [done|].
      apply NoDup_cons. split.
      * intros H. apply list_elem_of_singleton in H. discriminate.
      * apply NoDup_singleton.
    + by rewrite lookup_singleton_ne.
Defined.
